(** * Sistem Pakar Diagnosa Malaria: the certainty-factor inference engine

    A shallow embedding of [engine.py] (module [Engine]) and of the
    [ExpertSystem] class of [app.py] (module [App]), and the properties of
    the specification that were checked against them.

    Python's [float] is IEEE-754 binary64.  The arithmetic the two files use
    is collected in the interface [PyFloat]; it has two instances:
    - [binary64]: the operations of the Standard Library's [SpecFloat] at
      precision 53 and maximal exponent 1024, which is what CPython computes;
    - [exact]: the same operations on rationals, with no rounding, used to
      state what holds of the formulas themselves.
    Every definition of the engine is written once, over the interface. *)

From Stdlib Require Import List String Bool ZArith QArith Qabs Lia.
From Stdlib Require Import Floats.SpecFloat.
Import ListNotations.

Set Implicit Arguments.

(** ** Exceptions and results *)

(** The exceptions the modelled code can raise. *)
Inductive exn : Type :=
| ZeroDivisionError   (* float division by zero *)
| ValueError          (* [min] of an empty sequence, [float] of a bad string *)
| KeyError            (* subscript of a missing dictionary key *)
| TypeError.          (* [*] between an object that is no number and a float *)

(** A Python expression either has a value or raises. *)
Inductive result (A : Type) : Type :=
| Ok (a : A)
| Raise (e : exn).

Arguments Ok {A} a.
Arguments Raise {A} e.

Definition bind {A B : Type} (c : result A) (k : A -> result B) : result B :=
  match c with
  | Ok a => k a
  | Raise e => Raise e
  end.

Declare Scope py_scope.
Delimit Scope py_scope with py.
Notation "x <- c ;; k" := (bind c (fun x => k))
  (at level 61, c at next level, right associativity) : py_scope.

(** ** The float interface *)

Class PyFloat (F : Type) : Type := {
  fzero : F;                 (* 0.0 *)
  fone : F;                  (* 1.0 *)
  feps9 : F;                 (* 1e-9 *)
  feps6 : F;                 (* 1e-6 *)
  fopp : F -> F;             (* -x *)
  fabs : F -> F;             (* abs(x) *)
  fadd : F -> F -> F;        (* x + y *)
  fsub : F -> F -> F;        (* x - y *)
  fmul : F -> F -> F;        (* x * y *)
  fquot : F -> F -> F;       (* x / y for a divisor that is not zero *)
  feqb : F -> F -> bool;     (* x == y *)
  fltb : F -> F -> bool;     (* x < y *)
  fleb : F -> F -> bool;     (* x <= y *)
  fround4 : F -> F           (* round(x, 4) *)
}.

Section PyOps.
Context {F : Type} `{PyFloat F}.

(** [x / y]: float division raises on a zero divisor. *)
Definition py_div (x y : F) : result F :=
  if feqb y fzero then Raise ZeroDivisionError else Ok (fquot x y).

(** [min(a, b)] keeps its first argument unless the second is smaller. *)
Definition py_min (a b : F) : F := if fltb b a then b else a.

(** [max(a, b)] keeps its first argument unless the second is greater. *)
Definition py_max (a b : F) : F := if fltb a b then b else a.

(** [min(xs)] over a list: raises on the empty list. *)
Definition py_min_list (xs : list F) : result F :=
  match xs with
  | [] => Raise ValueError
  | x :: rest => Ok (fold_left py_min rest x)
  end.
End PyOps.

(** ** Instance 1: IEEE-754 binary64 *)

Module B64.
Definition prec : Z := 53.
Definition emax : Z := 1024.

Definition t : Type := spec_float.

(** The binary64 value of an integer. *)
Definition of_Z (n : Z) : t := binary_normalize prec emax n 0 false.

(** The binary64 nearest to [n / d], for a positive [d]: what a decimal
    literal or [strtod] denotes when [d] is a power of ten. *)
Definition of_ratio (s : bool) (n d : positive) : t :=
  SFdiv prec emax (S754_finite s n 0) (S754_finite false d 0).

(** The nearest integer to [m * 2^e * 10^4], ties to even. *)
Definition scaled4 (m : positive) (e : Z) : Z :=
  match e with
  | Zneg p =>
      let num := (Zpos m * 10000)%Z in
      let den := Z.pow_pos 2 p in
      let q := (num / den)%Z in
      let r := (num mod den)%Z in
      match (2 * r ?= den)%Z with
      | Lt => q
      | Eq => if Z.even q then q else (q + 1)%Z
      | Gt => (q + 1)%Z
      end
  | _ => (Zpos m * 2 ^ e * 10000)%Z
  end.

(** The binary64 nearest to [q / 10^4], with the sign [s]. *)
Definition dec4 (s : bool) (q : Z) : t :=
  match q with
  | Zpos p => of_ratio s p 10000
  | _ => S754_zero s
  end.

(** [round(x, 4)]: infinities and NaN round to themselves; a finite [x] is
    rounded to four decimals on its exact value, ties to even, and the
    decimal is read back as the nearest binary64. *)
Definition round4 (x : t) : t :=
  match x with
  | S754_finite s m e => dec4 s (scaled4 m e)
  | _ => x
  end.

Definition zero : t := S754_zero false.
Definition one : t := of_Z 1.
Definition eps9 : t := of_ratio false 1 1000000000.
Definition eps6 : t := of_ratio false 1 1000000.

Definition is_nan (x : t) : bool :=
  match x with S754_nan => true | _ => false end.

Definition is_finite (x : t) : bool :=
  match x with S754_zero _ | S754_finite _ _ _ => true | _ => false end.
End B64.

#[export] Instance binary64 : PyFloat B64.t := {|
  fzero := B64.zero;
  fone := B64.one;
  feps9 := B64.eps9;
  feps6 := B64.eps6;
  fopp := SFopp;
  fabs := SFabs;
  fadd := SFadd B64.prec B64.emax;
  fsub := SFsub B64.prec B64.emax;
  fmul := SFmul B64.prec B64.emax;
  fquot := SFdiv B64.prec B64.emax;
  feqb := SFeqb;
  fltb := SFltb;
  fleb := SFleb;
  fround4 := B64.round4
|}.

(** ** Instance 2: exact rational arithmetic *)

Module Exact.
Definition t : Type := Q.

(** The nearest integer to [x * 10^4], ties to even. *)
Definition scaled4 (x : Q) : Z :=
  let y := Qred (x * 10000) in
  let q := (Qnum y / Zpos (Qden y))%Z in
  let r := (Qnum y mod Zpos (Qden y))%Z in
  match (2 * r ?= Zpos (Qden y))%Z with
  | Lt => q
  | Eq => if Z.even q then q else (q + 1)%Z
  | Gt => (q + 1)%Z
  end.

Definition round4 (x : Q) : Q := Qred (Qmake (scaled4 x) 10000).
End Exact.

#[export] Instance exact : PyFloat Exact.t := {|
  fzero := 0%Q;
  fone := 1%Q;
  feps9 := Qmake 1 1000000000;
  feps6 := Qmake 1 1000000;
  fopp := fun x => Qred (Qopp x);
  fabs := fun x => Qred (Qabs x);
  fadd := fun x y => Qred (Qplus x y);
  fsub := fun x y => Qred (Qminus x y);
  fmul := fun x y => Qred (Qmult x y);
  fquot := fun x y => Qred (Qdiv x y);
  feqb := Qeq_bool;
  fltb := fun x y => negb (Qle_bool y x);
  fleb := Qle_bool;
  fround4 := Exact.round4
|}.

(** ** Dictionaries

    A Python [dict] keeps its keys in insertion order; assigning to a key
    that is present replaces the value and keeps the position. *)

Definition dict (V : Type) : Type := list (string * V).

Fixpoint dict_get {V : Type} (k : string) (d : dict V) : option V :=
  match d with
  | [] => None
  | (k', v) :: d' => if String.eqb k k' then Some v else dict_get k d'
  end.

(** [k in d] *)
Definition dict_mem {V : Type} (k : string) (d : dict V) : bool :=
  match dict_get k d with Some _ => true | None => false end.

(** [d[k] = v] *)
Fixpoint dict_set {V : Type} (k : string) (v : V) (d : dict V) : dict V :=
  match d with
  | [] => [(k, v)]
  | (k', v') :: d' =>
      if String.eqb k k' then (k, v) :: d' else (k', v') :: dict_set k v d'
  end.

(** [d[k]] *)
Definition dict_item {V : Type} (k : string) (d : dict V) : result V :=
  match dict_get k d with Some v => Ok v | None => Raise KeyError end.

(** [d.get(k, dflt)] *)
Definition dict_get_default {V : Type} (k : string) (dflt : V) (d : dict V) : V :=
  match dict_get k d with Some v => v | None => dflt end.

Definition dict_keys {V : Type} (d : dict V) : list string := map fst d.

(** ** The knowledge base

    The parsed JSON document: [{symptoms: [{code, mb, md}], rules: [{id, if,
    then, cf, note}]}].  The keys the code reads with a default ([mb], [md],
    [cf], [note]) are optional. *)

Record symptom (F : Type) : Type := Symptom {
  s_code : string;
  s_mb : option F;
  s_md : option F
}.

Record rule (F : Type) : Type := Rule {
  r_id : string;
  r_if : list string;
  r_then : string;
  r_cf : option F;
  r_note : option string
}.

Record knowledge_base (F : Type) : Type := KB {
  kb_symptoms : list (symptom F);
  kb_rules : list (rule F)
}.

(** A confidence value handed in by the caller, seen through what
    [float(...)] makes of it: a float, or an object [float] rejects. *)
Inductive pyobj (F : Type) : Type :=
| Num (x : F)
| NonNumeric.

Arguments Num {F} x.
Arguments NonNumeric {F}.

(** [float(o)] *)
Definition py_float {F : Type} (o : pyobj F) : result F :=
  match o with
  | Num x => Ok x
  | NonNumeric => Raise ValueError
  end.

Definition opt_default {A : Type} (dflt : A) (o : option A) : A :=
  match o with Some a => a | None => dflt end.


(** ** Paths and files

    What the two loaders see of the file system: for each path, what
    [open(path)] followed by [json.load] comes to. *)

From Stdlib Require Import Ascii.

(** [E] stands for the exceptions that neither loader catches: every
    exception that is neither a FileNotFoundError nor a JSONDecodeError
    (IsADirectoryError and PermissionError from [open], UnicodeDecodeError
    from [json.load] on bytes that are not UTF-8, ...). *)
Inductive opened (J E : Type) : Type :=
| NotFound            (* [open] raises FileNotFoundError *)
| OpenError (e : E)   (* [open] raises another exception, [e] *)
| Malformed           (* the file opens and [json.load] raises JSONDecodeError *)
| ReadError (e : E)   (* the file opens and [json.load] raises another exception, [e] *)
| Parsed (j : J).     (* the file opens and holds the document [j] *)

Arguments NotFound {J E}.
Arguments OpenError {J E} e.
Arguments Malformed {J E}.
Arguments ReadError {J E} e.
Arguments Parsed {J E} j.

Definition filesystem (J E : Type) : Type := string -> opened J E.

(** The exceptions a loader ends in. *)
Inductive load_exn (E : Type) : Type :=
| FileNotFoundError (msg : string)   (* raised by [load_kb] itself *)
| PlainException (msg : string)      (* [raise Exception(msg)] of [app.py] *)
| JSONDecodeError                    (* of [json.load], let through *)
| Uncaught (e : E).                  (* of [open] or [json.load], let through *)

Arguments FileNotFoundError {E} msg.
Arguments PlainException {E} msg.
Arguments JSONDecodeError {E}.
Arguments Uncaught {E} e.

Inductive loaded (J E : Type) : Type :=
| Loaded (j : J)
| LoadRaise (e : load_exn E).

Arguments Loaded {J E} j.
Arguments LoadRaise {J E} e.

(** The newline character. *)
Definition nl : string := String (Ascii.ascii_of_nat 10) EmptyString.

Definition is_empty (s : string) : bool :=
  match s with EmptyString => true | String _ _ => false end.

(** [s.startswith(c)] and [s.endswith(c)] for a one-character [c]. *)
Definition starts_with (c : Ascii.ascii) (s : string) : bool :=
  match s with
  | String c' _ => Ascii.eqb c' c
  | EmptyString => false
  end.

Fixpoint ends_with (c : Ascii.ascii) (s : string) : bool :=
  match s with
  | EmptyString => false
  | String c' EmptyString => Ascii.eqb c' c
  | String _ rest => ends_with c rest
  end.

(** [os.path.join(a, b)] on POSIX: an absolute [b] replaces [a]; a
    separator is put between the two unless [a] is empty or ends in one. *)
Definition path_join (a b : string) : string :=
  if starts_with "/"%char b then b
  else if is_empty a || ends_with "/"%char a then (a ++ b)%string
  else (a ++ "/" ++ b)%string.

(** [sep.join(items)] *)
Definition str_join (sep : string) (items : list string) : string :=
  String.concat sep items.
(** ** engine.py *)

Module Engine.
Section WithFloat.
Context {F : Type} `{PyFloat F}.
Local Open Scope py_scope.

(** [cf_symptom_from_mbmd]: the base CF, MB - MD. *)
Definition cf_symptom_from_mbmd (s : symptom F) : F :=
  fsub (opt_default fzero (s_mb s)) (opt_default fzero (s_md s)).

(** [combine_cf]: the MYCIN combination. *)
Definition combine_cf (cf1 cf2 : F) : result F :=
  if fleb fzero cf1 && fleb fzero cf2 then
    Ok (fadd cf1 (fmul cf2 (fsub fone cf1)))
  else if fleb cf1 fzero && fleb cf2 fzero then
    Ok (fadd cf1 (fmul cf2 (fadd fone cf1)))
  else
    let denom := fsub fone (py_min (fabs cf1) (fabs cf2)) in
    if feqb denom fzero then Ok fzero
    else py_div (fadd cf1 cf2) denom.

(** One record of the explanation trace. *)
Record trace_item : Type := TraceItem {
  t_rule_id : string;
  t_if : list string;
  t_antecedent_cfs : list F;
  t_cf_antecedent : F;
  t_rule_cf : F;
  t_rule_contribution : F;
  t_conclusion : string;
  t_old_cf : F;
  t_new_cf : F;
  t_note : string
}.

(** The variables of [forward_chaining] that the loop updates. *)
Record state : Type := State {
  cf_facts : dict F;
  applied_rules : dict F;
  fired_trace : list trace_item;
  changed : bool
}.

(** [symptom_map] and [base_cf]: a later symptom with the same code
    replaces an earlier one. *)
Definition symptom_map (kb : knowledge_base F) : dict (symptom F) :=
  fold_left (fun d s => dict_set (s_code s) s d) (kb_symptoms kb) [].

Definition base_cf (kb : knowledge_base F) : dict F :=
  map (fun '(code, s) => (code, cf_symptom_from_mbmd s)) (symptom_map kb).

(** The seeding loop body: [float(user_conf)] with its [except] branch,
    then the scaled or the raw value. *)
Definition seed_fact (base : dict F) (facts : dict F) (entry : string * pyobj F)
  : dict F :=
  let '(code, o) := entry in
  let user_conf := match py_float o with Ok x => x | Raise _ => fone end in
  match dict_get code base with
  | Some b => dict_set code (fmul user_conf b) facts
  | None => dict_set code user_conf facts
  end.

Definition seed_facts (base : dict F) (input_facts : list (string * pyobj F))
  : dict F :=
  fold_left (seed_fact base) input_facts [].

(** The inner loop over the antecedents: the CFs found so far and whether
    one was missing when the loop stopped. *)
Fixpoint antecedent_lookup (facts : dict F) (antecedents : list string)
         (acc : list F) : list F * bool :=
  match antecedents with
  | [] => (acc, false)
  | a :: rest =>
      match dict_get a facts with
      | Some v => antecedent_lookup facts rest (acc ++ [v])
      | None => (acc, true)
      end
  end.

(** The anti-oscillation test: the rule was applied before, with an
    antecedent CF less than [1e-9] away from the present one. *)
Definition unchanged_since_applied (memo : dict F) (rid : string)
           (cf_antecedent : F) : bool :=
  match dict_get rid memo with
  | Some prev_cf => fltb (fabs (fsub prev_cf cf_antecedent)) feps9
  | None => false
  end.

(** The body of [for rule in rules]. *)
Definition fire_rule (st : state) (r : rule F) : result state :=
  let rid := r_id r in
  let antecedents := r_if r in
  let conclusion := r_then r in
  let rule_strength := opt_default fone (r_cf r) in
  let '(antecedent_cfs, missing) :=
    antecedent_lookup (cf_facts st) antecedents [] in
  if missing || match antecedent_cfs with [] => true | _ => false end then Ok st
  else
    cf_antecedent <- py_min_list antecedent_cfs ;;
    if unchanged_since_applied (applied_rules st) rid cf_antecedent then Ok st
    else
      let rule_cf_value := fmul rule_strength cf_antecedent in
      let old_concl_cf := dict_get_default conclusion fzero (cf_facts st) in
      new_concl_cf <-
        (if dict_mem conclusion (cf_facts st)
         then combine_cf old_concl_cf rule_cf_value
         else Ok rule_cf_value) ;;
      if fltb feps6 (fabs (fsub new_concl_cf old_concl_cf)) then
        Ok {| cf_facts := dict_set conclusion new_concl_cf (cf_facts st);
              applied_rules := dict_set rid cf_antecedent (applied_rules st);
              fired_trace :=
                fired_trace st ++
                [ {| t_rule_id := rid;
                     t_if := antecedents;
                     t_antecedent_cfs := antecedent_cfs;
                     t_cf_antecedent := cf_antecedent;
                     t_rule_cf := rule_strength;
                     t_rule_contribution := rule_cf_value;
                     t_conclusion := conclusion;
                     t_old_cf := old_concl_cf;
                     t_new_cf := new_concl_cf;
                     t_note := opt_default EmptyString (r_note r) |} ];
              changed := true |}
      else Ok st.

(** One pass: [for rule in rules: ...]. *)
Fixpoint fire_rules (rules : list (rule F)) (st : state) : result state :=
  match rules with
  | [] => Ok st
  | r :: rest => st' <- fire_rule st r ;; fire_rules rest st'
  end.

Definition reset_changed (st : state) : state :=
  {| cf_facts := cf_facts st;
     applied_rules := applied_rules st;
     fired_trace := fired_trace st;
     changed := false |}.

(** [while changed: changed = False; for rule in rules: ...], entered with
    [changed] true.  [None]: more than [fuel] passes are needed. *)
Fixpoint passes (fuel : nat) (rules : list (rule F)) (st : state)
  : option (result state) :=
  match fuel with
  | O => None
  | S fuel' =>
      match fire_rules rules (reset_changed st) with
      | Raise e => Some (Raise e)
      | Ok st' => if changed st' then passes fuel' rules st' else Some (Ok st')
      end
  end.

(** [max(min(x, 1.0), -1.0)] *)
Definition clamp (x : F) : F := py_max (py_min x fone) (fopp fone).

(** The rounding and the clamp applied to one value:
    [max(min(round(v, 4), 1.0), -1.0)]. *)
Definition final_value (v : F) : F := clamp (fround4 v).

(** [for k, v in list(cf_facts.items()): cf_facts[k] = ...] *)
Definition finalize (facts : dict F) : dict F :=
  fold_left (fun d '(k, v) => dict_set k (final_value v) d) facts facts.

(** The table written into [forward_chaining]. *)
Definition translation_map : dict string :=
  [ ("Anemia_due_to_malaria", "Anemia akibat malaria");
    ("Respiratory_complication", "Komplikasi pernapasan akibat malaria");
    ("Malaria Tertiana", "Malaria Tertiana");
    ("Malaria Tropika", "Malaria Tropika") ]%string.

(** [translation_map.get(k, k)] *)
Definition translate_key (k : string) : string :=
  dict_get_default k k translation_map.

(** [{translation_map.get(k, k): v for k, v in cf_facts.items()}] *)
Definition translate (facts : dict F) : dict F :=
  fold_left (fun d '(k, v) => dict_set (translate_key k) v d) facts [].

(** The state the loop starts from. *)
Definition initial_state (kb : knowledge_base F)
           (input_facts : list (string * pyobj F)) : state :=
  {| cf_facts := seed_facts (base_cf kb) input_facts;
     applied_rules := [];
     fired_trace := [];
     changed := true |}.

(** [forward_chaining(kb, input_facts)] with at most [fuel] passes. *)
Definition forward_chaining (fuel : nat) (kb : knowledge_base F)
           (input_facts : list (string * pyobj F))
  : option (result (dict F * list trace_item)) :=
  match passes fuel (kb_rules kb) (initial_state kb input_facts) with
  | None => None
  | Some (Raise e) => Some (Raise e)
  | Some (Ok st) =>
      Some (Ok (translate (finalize (cf_facts st)), fired_trace st))
  end.

(** *** Notions used to state the properties of the loop *)

(** The memo a trace determines: each rule id with the antecedent CF of its
    latest entry. *)
Definition memo_of (tr : list trace_item) : dict F :=
  fold_left (fun m t => dict_set (t_rule_id t) (t_cf_antecedent t) m) tr [].

(** A trace in which no entry has an antecedent CF less than [1e-9] away
    from that of the previous entry of the same rule id. *)
Inductive spaced : list trace_item -> Prop :=
| spaced_nil : spaced []
| spaced_snoc (tr : list trace_item) (t : trace_item) :
    spaced tr ->
    unchanged_since_applied (memo_of tr) (t_rule_id t) (t_cf_antecedent t) = false ->
    spaced (tr ++ [t]).

(** The entries of a trace that a rule id contributed. *)
Definition fired_by (rid : string) (tr : list trace_item) : list trace_item :=
  filter (fun t => String.eqb rid (t_rule_id t)) tr.

(** [k] passes in a row that each commit a change, followed on the fact
    store and the memo only. *)
Fixpoint spin (k : nat) (rules : list (rule F)) (facts memo : dict F)
  : option (dict F * dict F) :=
  match k with
  | O => Some (facts, memo)
  | S k' =>
      match fire_rules rules (State facts memo [] false) with
      | Ok st' =>
          if changed st' then spin k' rules (cf_facts st') (applied_rules st')
          else None
      | Raise _ => None
      end
  end.

(** The fact stores after each of [k] committing passes in a row. *)
Fixpoint orbit (k : nat) (rules : list (rule F)) (facts memo : dict F)
  : list (dict F) :=
  match k with
  | O => []
  | S k' =>
      match spin 1 rules facts memo with
      | Some (facts', memo') => facts' :: orbit k' rules facts' memo'
      | None => []
      end
  end.

(** The state after a rule commits: the new CF of its conclusion, the memo
    entry and the trace record. *)
Definition committed (st : state) (r : rule F) (antecedent_cfs : list F)
           (cf_antecedent new_concl_cf : F) : state :=
  {| cf_facts := dict_set (r_then r) new_concl_cf (cf_facts st);
     applied_rules := dict_set (r_id r) cf_antecedent (applied_rules st);
     fired_trace :=
       fired_trace st ++
       [ {| t_rule_id := r_id r;
            t_if := r_if r;
            t_antecedent_cfs := antecedent_cfs;
            t_cf_antecedent := cf_antecedent;
            t_rule_cf := opt_default fone (r_cf r);
            t_rule_contribution := fmul (opt_default fone (r_cf r)) cf_antecedent;
            t_conclusion := r_then r;
            t_old_cf := dict_get_default (r_then r) fzero (cf_facts st);
            t_new_cf := new_concl_cf;
            t_note := opt_default EmptyString (r_note r) |} ];
     changed := true |}.

(** The states the loop of [forward_chaining] goes through, from [st0]:
    each firing of a rule of the list and each start of a pass is a step. *)
Inductive reachable (rules : list (rule F)) (st0 : state) : state -> Prop :=
| reach_start : reachable rules st0 st0
| reach_fire (st st' : state) (r : rule F) :
    reachable rules st0 st -> In r rules -> fire_rule st r = Ok st' ->
    reachable rules st0 st'
| reach_pass (st : state) :
    reachable rules st0 st -> reachable rules st0 (reset_changed st).

(** A trace record written by a rule of the list that has at least one
    antecedent. *)
Definition from_rule (rules : list (rule F)) (t : trace_item) : Prop :=
  exists r, In r rules /\ r_if r <> [] /\
            t_rule_id t = r_id r /\ t_if t = r_if r /\ t_conclusion t = r_then r.

(** What the [except] branch of the seeding loop puts in the place of a value
    that [float] rejects. *)
Definition recovered (o : pyobj F) : pyobj F :=
  match o with
  | Num x => Num x
  | NonNumeric => Num fone
  end.

(** A state with a trace put in front of its own. *)
Definition prefix_trace (t : list trace_item) (st : state) : state :=
  {| cf_facts := cf_facts st;
     applied_rules := applied_rules st;
     fired_trace := t ++ fired_trace st;
     changed := changed st |}.

(** The confidence the seeding loop works with: [float(user_conf)], or 1.0
    when [float] raises. *)
Definition confidence (o : pyobj F) : F :=
  match py_float o with Ok x => x | Raise _ => fone end.

(** A fact store with the records of a trace applied to it in order: each
    record sets its conclusion to its new CF. *)
Definition replay (facts : dict F) (tr : list trace_item) : dict F :=
  fold_left (fun d t => dict_set (t_conclusion t) (t_new_cf t) d) tr facts.

(** A trace in which every antecedent of every record is a code of [inputs]
    or the conclusion of an earlier record. *)
Inductive explained (inputs : list string) : list trace_item -> Prop :=
| explained_nil : explained inputs []
| explained_snoc (tr : list trace_item) (t : trace_item) :
    explained inputs tr ->
    (forall a, In a (t_if t) -> In a inputs \/ In a (map t_conclusion tr)) ->
    explained inputs (tr ++ [t]).

(** [a] is an antecedent of one of the rules. *)
Definition is_antecedent (a : string) (rules : list (rule F)) : bool :=
  existsb (fun r => existsb (String.eqb a) (r_if r)) rules.

(** No rule concludes a fact that a rule has as an antecedent. *)
Definition unchained (rules : list (rule F)) : bool :=
  forallb (fun r => negb (is_antecedent (r_then r) rules)) rules.

(** [abs(c - c) < 1e-9]: the anti-oscillation test of a CF against itself. *)
Definition stable (c : F) : bool := fltb (fabs (fsub c c)) feps9.

(** What the loop keeps when no conclusion is an antecedent and the rule ids
    are unique: the CFs of the antecedents stay those of the start, the memo
    holds for a rule id the antecedent CF of its rule at the start, and no
    rule id has two trace records. *)
Definition unchained_invariant (rules : list (rule F)) (st0 st : state) : Prop :=
  (forall a, is_antecedent a rules = true ->
             dict_get a (cf_facts st) = dict_get a (cf_facts st0)) /\
  (forall rid c, dict_get rid (applied_rules st) = Some c ->
     exists r cfs, In r rules /\ r_id r = rid /\
                   antecedent_lookup (cf_facts st0) (r_if r) [] = (cfs, false) /\
                   py_min_list cfs = Ok c) /\
  NoDup (map t_rule_id (fired_trace st)) /\
  (forall t, In t (fired_trace st) ->
             In (t_rule_id t) (map (@r_id F) rules) /\
             dict_mem (t_rule_id t) (applied_rules st) = true).

End WithFloat.

Arguments trace_item : clear implicits.
Arguments state : clear implicits.

(** *** [load_kb]

    [base_dir] is [os.path.dirname(__file__)]; [path] is the optional
    argument, [None] by default. *)

Definition RULES_PATHS : list string :=
  ["rules_combined.json"; "rules.json"]%string.

Definition candidates (base_dir : string) (path : option string) : list string :=
  (match path with
   | Some p => if is_empty p then [] else [p; path_join base_dir p]
   | None => []
   end) ++
  flat_map (fun name => [path_join base_dir name; name]) RULES_PATHS.

(** [for p in candidates: ...]: [None] when the loop runs to its end. *)
Fixpoint try_candidates {J E : Type} (fs : filesystem J E) (ps : list string)
  : option (loaded J E) :=
  match ps with
  | [] => None
  | p :: rest =>
      if is_empty p then try_candidates fs rest
      else
        match fs p with
        | Parsed j => Some (Loaded j)
        | NotFound => try_candidates fs rest
        | Malformed => Some (LoadRaise JSONDecodeError)
        | OpenError e => Some (LoadRaise (Uncaught e))
        | ReadError e => Some (LoadRaise (Uncaught e))
        end
  end.

Definition not_found_message (cands : list string) : string :=
  ("File rules JSON tidak ditemukan." ++ nl ++ "Dicari di:" ++ nl ++ "  " ++
   str_join (nl ++ "  ") cands)%string.

Definition load_kb {J E : Type} (fs : filesystem J E) (base_dir : string)
           (path : option string) : loaded J E :=
  let cands := candidates base_dir path in
  match try_candidates fs cands with
  | Some out => out
  | None => LoadRaise (FileNotFoundError (not_found_message cands))
  end.
End Engine.

(** ** app.py: the [ExpertSystem] class *)

Module App.
Section WithFloat.
Context {F : Type} `{PyFloat F}.
Local Open Scope py_scope.

(** [get_mb_md]: the first symptom with the code, else [(1.0, 0.0)]. *)
Fixpoint get_mb_md (symptoms : list (symptom F)) (symptom_code : string)
  : F * F :=
  match symptoms with
  | [] => (fone, fzero)
  | s :: rest =>
      if String.eqb (s_code s) symptom_code
      then (opt_default fone (s_mb s), opt_default fzero (s_md s))
      else get_mb_md rest symptom_code
  end.

(** [calculate_cf] *)
Definition calculate_cf (kb : knowledge_base F) (user_cf : F)
           (symptom_code : string) : F :=
  let '(mb, md) := get_mb_md (kb_symptoms kb) symptom_code in
  let base_cf := fsub mb md in
  fmul user_cf base_cf.

(** [ExpertSystem.combine_cf]: the negative branch is strict and the
    division is not guarded. *)
Definition combine_cf (cf1 cf2 : F) : result F :=
  if fleb fzero cf1 && fleb fzero cf2 then
    Ok (fadd cf1 (fmul cf2 (fsub fone cf1)))
  else if fltb cf1 fzero && fltb cf2 fzero then
    Ok (fadd cf1 (fmul cf2 (fadd fone cf1)))
  else
    py_div (fadd cf1 cf2) (fsub fone (py_min (fabs cf1) (fabs cf2))).

Record trace_item : Type := TraceItem {
  t_rule_id : string;
  t_if : list string;
  t_then : string;
  t_antecedent_cfs : list F;
  t_rule_cf : F;
  t_old_cf : F;
  t_new_cf : F;
  t_note : string
}.

Record state : Type := State {
  cf_facts : dict F;
  trace : list trace_item;
  rules_fired : bool
}.

(** [rule_id in [t.get('rule_id') for t in trace]] *)
Definition in_trace (rule_id : string) (tr : list trace_item) : bool :=
  existsb (fun t => String.eqb rule_id (t_rule_id t)) tr.

(** [[cf_facts[ant] for ant in antecedents]] *)
Fixpoint antecedent_values (facts : dict F) (antecedents : list string)
  : result (list F) :=
  match antecedents with
  | [] => Ok []
  | a :: rest =>
      v <- dict_item a facts ;;
      vs <- antecedent_values facts rest ;;
      Ok (v :: vs)
  end.

(** The body of [for rule in self.kb.get('rules', [])]. *)
Definition fire_rule (st : state) (r : rule F) : result state :=
  let rule_id := r_id r in
  let antecedents := r_if r in
  let conclusion := r_then r in
  let rule_cf := opt_default fone (r_cf r) in
  if dict_mem conclusion (cf_facts st) && in_trace rule_id (trace st) then Ok st
  else if negb (forallb (fun ant => dict_mem ant (cf_facts st)) antecedents)
  then Ok st
  else
    ant_cfs <- antecedent_values (cf_facts st) antecedents ;;
    min_cf <- py_min_list ant_cfs ;;
    let rule_contribution := fmul rule_cf min_cf in
    let old_cf := dict_get_default conclusion fzero (cf_facts st) in
    new_cf <-
      (if dict_mem conclusion (cf_facts st)
       then combine_cf old_cf rule_contribution
       else Ok rule_contribution) ;;
    if fltb feps6 (fabs (fsub new_cf old_cf)) then
      Ok {| cf_facts := dict_set conclusion new_cf (cf_facts st);
            trace :=
              trace st ++
              [ {| t_rule_id := rule_id;
                   t_if := antecedents;
                   t_then := conclusion;
                   t_antecedent_cfs := ant_cfs;
                   t_rule_cf := rule_cf;
                   t_old_cf := old_cf;
                   t_new_cf := new_cf;
                   t_note := opt_default EmptyString (r_note r) |} ];
            rules_fired := true |}
    else Ok st.

Fixpoint fire_rules (rules : list (rule F)) (st : state) : result state :=
  match rules with
  | [] => Ok st
  | r :: rest => st' <- fire_rule st r ;; fire_rules rest st'
  end.

Definition reset_fired (st : state) : state :=
  {| cf_facts := cf_facts st; trace := trace st; rules_fired := false |}.

(** [while rules_fired: rules_fired = False; for rule in ...]. *)
Fixpoint passes (fuel : nat) (rules : list (rule F)) (st : state)
  : option (result state) :=
  match fuel with
  | O => None
  | S fuel' =>
      match fire_rules rules (reset_fired st) with
      | Raise e => Some (Raise e)
      | Ok st' =>
          if rules_fired st' then passes fuel' rules st' else Some (Ok st')
      end
  end.

(** The first loop: [cf_facts[code] = self.calculate_cf(user_cf, code)]. *)
Definition seed_facts (kb : knowledge_base F) (facts : list (string * F))
  : dict F :=
  fold_left
    (fun d '(code, user_cf) => dict_set code (calculate_cf kb user_cf code) d)
    facts [].

Definition initial_state (kb : knowledge_base F) (facts : list (string * F))
  : state :=
  {| cf_facts := seed_facts kb facts; trace := []; rules_fired := true |}.

(** [ExpertSystem.forward_chaining(facts)] with at most [fuel] passes. *)
Definition forward_chaining (fuel : nat) (kb : knowledge_base F)
           (facts : list (string * F))
  : option (result (dict F * list trace_item)) :=
  match passes fuel (kb_rules kb) (initial_state kb facts) with
  | None => None
  | Some (Raise e) => Some (Raise e)
  | Some (Ok st) => Some (Ok (cf_facts st, trace st))
  end.

(** *** The same method on what a caller hands in

    [facts] is annotated [Dict[str, float]], but the method converts
    nothing: [user_cf] goes as it is into [user_cf * base_cf].  For a float
    that is the product.  For an object [float] rejects and that is no
    number either (a [str], [None], a list) the product with a float raises
    TypeError, and nothing in the method catches it. *)
Definition py_mul_obj (o : pyobj F) (y : F) : result F :=
  match o with
  | Num x => Ok (fmul x y)
  | NonNumeric => Raise TypeError
  end.

Definition calculate_cf_obj (kb : knowledge_base F) (user_cf : pyobj F)
           (symptom_code : string) : result F :=
  let '(mb, md) := get_mb_md (kb_symptoms kb) symptom_code in
  let base_cf := fsub mb md in
  py_mul_obj user_cf base_cf.

(** The first loop, from the fact store [d] built so far. *)
Fixpoint seed_facts_obj (kb : knowledge_base F) (facts : list (string * pyobj F))
         (d : dict F) : result (dict F) :=
  match facts with
  | [] => Ok d
  | (code, user_cf) :: rest =>
      v <- calculate_cf_obj kb user_cf code ;;
      seed_facts_obj kb rest (dict_set code v d)
  end.

Definition forward_chaining_obj (fuel : nat) (kb : knowledge_base F)
           (facts : list (string * pyobj F))
  : option (result (dict F * list trace_item)) :=
  match seed_facts_obj kb facts [] with
  | Raise e => Some (Raise e)
  | Ok d =>
      match passes fuel (kb_rules kb)
                   {| cf_facts := d; trace := []; rules_fired := true |} with
      | None => None
      | Some (Raise e) => Some (Raise e)
      | Some (Ok st) => Some (Ok (cf_facts st, trace st))
      end
  end.

(** *** Notions used to state the properties of the loop *)

(** The states the loop goes through, from [st0]. *)
Inductive reachable (rules : list (rule F)) (st0 : state) : state -> Prop :=
| reach_start : reachable rules st0 st0
| reach_fire (st st' : state) (r : rule F) :
    reachable rules st0 st -> In r rules -> fire_rule st r = Ok st' ->
    reachable rules st0 st'
| reach_pass (st : state) :
    reachable rules st0 st -> reachable rules st0 (reset_fired st).

(** What identifies the rule in a trace record and in the rule itself. *)
Definition trace_key (t : trace_item) : string * string :=
  (t_rule_id t, t_then t).

Definition rule_key (r : rule F) : string * string := (r_id r, r_then r).

(** What the loop keeps: the conclusion of every trace record is in the fact
    store, every record is that of a rule of the list, and no rule has two
    records. *)
Definition app_invariant (rules : list (rule F)) (st : state) : Prop :=
  (forall t, In t (trace st) -> dict_mem (t_then t) (cf_facts st) = true) /\
  incl (map trace_key (trace st)) (map rule_key rules) /\
  NoDup (map trace_key (trace st)).

(** *** The request handler [infer]

    [float_of_str] is Python's [float] on a string ([None]: it raises
    ValueError) and [str_of_float] is [str] on a float. *)

Variable float_of_str : string -> option F.
Variable str_of_float : F -> string.

Definition CONF_LABELS : list (string * string) :=
  [ ("1.0", "Sangat Yakin");
    ("0.8", "Yakin");
    ("0.5", "Ragu-ragu");
    ("0.2", "Tidak Yakin");
    ("0.0", "Sangat Tidak Yakin") ]%string.

(** [request.form]: the submitted fields in order, a key possibly more than
    once; [getlist] gives all the values of a key, [get] the first one. *)
Definition form : Type := list (string * string).

Definition form_getlist (key : string) (f : form) : list string :=
  map snd (filter (fun kv => String.eqb key (fst kv)) f).

Definition form_get (key dflt : string) (f : form) : string :=
  match find (fun kv => String.eqb key (fst kv)) f with
  | Some kv => snd kv
  | None => dflt
  end.

(** [next((lab for v, lab in labels if float(v) == cf_user), dflt)] *)
Fixpoint first_label (labels : list (string * string)) (cf_user : F)
         (dflt : string) : result string :=
  match labels with
  | [] => Ok dflt
  | (v, lab) :: rest =>
      match float_of_str v with
      | None => Raise ValueError
      | Some x => if feqb x cf_user then Ok lab else first_label rest cf_user dflt
      end
  end.

(** The body of [for code in selected]. *)
Definition read_symptom (f : form) (acc : dict F * dict string) (code : string)
  : result (dict F * dict string) :=
  let val := form_get ("confidence_" ++ code) "1.0" f in
  let cf_user := match float_of_str val with Some x => x | None => fone end in
  let input_facts := dict_set code cf_user (fst acc) in
  label <- first_label CONF_LABELS cf_user (str_of_float cf_user) ;;
  Ok (input_facts, dict_set code label (snd acc)).

(** The confidence the loop body works with for a code: the field
    [confidence_<code>] (["1.0"] when the form has none) through [float],
    and 1.0 when [float] raises ValueError. *)
Definition submitted_confidence (f : form) (code : string) : F :=
  match float_of_str (form_get ("confidence_" ++ code) "1.0" f) with
  | Some x => x
  | None => fone
  end.

Fixpoint read_symptoms (f : form) (selected : list string)
         (acc : dict F * dict string) : result (dict F * dict string) :=
  match selected with
  | [] => Ok acc
  | code :: rest => acc' <- read_symptom f acc code ;; read_symptoms f rest acc'
  end.

(** The arguments [infer] hands to the result template. *)
Record page : Type := Page {
  p_input_selected : list string;
  p_input_facts : dict F;
  p_input_labels : dict string;
  p_conclusions : dict F;
  p_trace : list trace_item
}.

(** [{k: v for k, v in cf_facts.items() if not k.startswith('G')}] *)
Definition non_symptoms (facts : dict F) : dict F :=
  filter (fun kv => negb (starts_with "G"%char (fst kv))) facts.

(** [infer()] on the submitted form, with at most [fuel] passes of the
    inference loop. *)
Definition infer (fuel : nat) (kb : knowledge_base F) (f : form)
  : option (result page) :=
  let selected := form_getlist "symptom" f in
  match read_symptoms f selected ([], []) with
  | Raise e => Some (Raise e)
  | Ok (facts, labels) =>
      match forward_chaining fuel kb facts with
      | None => None
      | Some (Raise e) => Some (Raise e)
      | Some (Ok (out, tr)) =>
          Some (Ok {| p_input_selected := selected;
                      p_input_facts := facts;
                      p_input_labels := labels;
                      p_conclusions := non_symptoms out;
                      p_trace := tr |})
      end
  end.

(** *** A notion used to state what the trace says

    A fact store with the records of a trace applied to it in order: each
    record sets its conclusion to its new CF. *)
Definition replay (facts : dict F) (tr : list trace_item) : dict F :=
  fold_left (fun d t => dict_set (t_then t) (t_new_cf t) d) tr facts.
End WithFloat.

Arguments trace_item : clear implicits.
Arguments state : clear implicits.
Arguments page : clear implicits.

(** *** [ExpertSystem.load_knowledge_base]

    [file_dir] is [os.path.dirname(__file__)] and [abs_dir] is
    [os.path.dirname(os.path.abspath(__file__))].  The result comes with the
    lines printed. *)

Definition possible_paths (file_dir abs_dir filename : string) : list string :=
  [ filename;
    path_join file_dir filename;
    path_join (path_join file_dir "..") filename;
    path_join abs_dir filename ].

Definition loading_line (path : string) : string :=
  ("Loading knowledge base from: " ++ path)%string.

(** [for path in possible_paths: ...]: [None] when the loop runs to its end. *)
Fixpoint try_paths {J E : Type} (fs : filesystem J E) (ps : list string)
  : option (list string * loaded J E) :=
  match ps with
  | [] => None
  | p :: rest =>
      match fs p with
      | NotFound => try_paths fs rest
      | OpenError e => Some ([], LoadRaise (Uncaught e))
      | Malformed => Some ([loading_line p], LoadRaise JSONDecodeError)
      | ReadError e => Some ([loading_line p], LoadRaise (Uncaught e))
      | Parsed j => Some ([loading_line p], Loaded j)
      end
  end.

Definition not_found_message (filename : string) (paths : list string) : string :=
  ("Knowledge base file " ++ filename ++ " not found. Searched in:" ++ nl ++
   str_join nl (map (fun p => "- " ++ p) paths))%string.

Definition load_knowledge_base {J E : Type} (fs : filesystem J E)
           (file_dir abs_dir filename : string) : list string * loaded J E :=
  let paths := possible_paths file_dir abs_dir filename in
  match try_paths fs paths with
  | Some out => out
  | None => ([], LoadRaise (PlainException (not_found_message filename paths)))
  end.

(** [ExpertSystem()]: the knowledge base file is [rules_combined.json]. *)
Definition expert_system {J E : Type} (fs : filesystem J E) (file_dir abs_dir : string)
  : list string * loaded J E :=
  load_knowledge_base fs file_dir abs_dir "rules_combined.json".
End App.

(** ** Concrete knowledge bases and inputs (binary64) *)

Module Examples.
Import Engine.
Local Open Scope string_scope.

(** The binary64 value of the decimal literal [n / d] and of its negation. *)
Definition lit (n d : positive) : B64.t := B64.of_ratio false n d.
Definition neg (n d : positive) : B64.t := SFopp (lit n d).

(** The end-to-end example of the specification: symptom G02 with MB 1.0 and
    MD 0.0, asserted with confidence 1.0, and the rule R1: G02 -> D1, 0.8. *)
Definition kb_g02 : knowledge_base B64.t :=
  KB [Symptom "G02" (Some (lit 1 1)) (Some B64.zero)]
     [Rule "R1" ["G02"] "D1" (Some (lit 8 10)) None].
Definition facts_g02 : list (string * pyobj B64.t) := [("G02", Num (lit 1 1))].

(** Two rules that feed each other with opposite signs:
    R1: X -> Y with strength 1.0, R2: Y -> X with strength -1.0;
    X is asserted with 0.5 and Y with 0.75.  Every value the loop computes
    from them is a multiple of 1/8, so that no operation rounds. *)
Definition kb_feedback : knowledge_base B64.t :=
  KB [] [Rule "R1" ["X"] "Y" (Some (lit 1 1)) None;
         Rule "R2" ["Y"] "X" (Some (neg 1 1)) None].
Definition facts_feedback : list (string * pyobj B64.t) :=
  [("X", Num (lit 5 10)); ("Y", Num (lit 75 100))].

(** The fact store and the memo after the first pass on [kb_feedback]. *)
Definition feedback_facts1 : dict B64.t :=
  [("X", neg 75 100); ("Y", lit 875 1000)].
Definition feedback_memo1 : dict B64.t :=
  [("R1", lit 5 10); ("R2", lit 875 1000)].

(** One rule that concludes its own antecedent, asserted at 3.0. *)
Definition kb_selfloop : knowledge_base B64.t :=
  KB [] [Rule "R1" ["A"] "A" (Some (lit 1 1)) None].
Definition facts_selfloop : list (string * pyobj B64.t) := [("A", Num (lit 3 1))].

(** D is supported by A (asserted at infinity) and opposed by B. *)
Definition kb_inf : knowledge_base B64.t :=
  KB [] [Rule "R" ["A"] "D" (Some (lit 1 1)) None;
         Rule "R2" ["B"] "D" (Some (neg 1 1)) None].
Definition facts_inf : list (string * pyobj B64.t) :=
  [("A", Num (S754_infinity false)); ("B", Num (lit 1 1))].

(** No rule; one fact asserted with NaN, one with a label of the table. *)
Definition kb_empty : knowledge_base B64.t := KB [] [].
Definition facts_nan : list (string * pyobj B64.t) := [("X", Num S754_nan)].
Definition facts_anemia : list (string * pyobj B64.t) :=
  [("Anemia_due_to_malaria", Num (lit 1 1))].

(** The same assertion of G02 as [app.py] takes it, and a rule without
    antecedents. *)
Definition facts_g02_app : list (string * B64.t) := [("G02", lit 1 1)].
Definition rule_no_antecedent : rule B64.t := Rule "R0" [] "D1" None None.

(** What the two loops return on the end-to-end example. *)
Definition result_g02 : dict B64.t * list (Engine.trace_item B64.t) :=
  Eval vm_compute in
    match Engine.forward_chaining 2 kb_g02 facts_g02 with
    | Some (Ok out) => out
    | _ => ([], [])
    end.
Definition app_result_g02 : dict B64.t * list (App.trace_item B64.t) :=
  Eval vm_compute in
    match App.forward_chaining 2 kb_g02 facts_g02_app with
    | Some (Ok out) => out
    | _ => ([], [])
    end.

(** The record the rule R1 writes on the end-to-end example, and the state
    of the loop once it has fired. *)
Definition record_g02 : Engine.trace_item B64.t :=
  Engine.TraceItem "R1" ["G02"] [lit 1 1] (lit 1 1) (lit 8 10) (lit 8 10)
                   "D1" B64.zero (lit 8 10) "".
Definition state_g02 : Engine.state B64.t :=
  Engine.State [("G02", lit 1 1); ("D1", lit 8 10)] [("R1", lit 1 1)]
               [record_g02] true.

(** A knowledge base whose only rule has no antecedent. *)
Definition kb_no_antecedent : knowledge_base B64.t := KB [] [rule_no_antecedent].

(** A submitted form that selects G02 and gives no confidence for it, with
    [float] on the strings of [CONF_LABELS] and a stand-in for [str]. *)
Definition form_g02 : App.form := [("symptom", "G02")].
Definition float_of_label (s : string) : option B64.t :=
  if String.eqb s "1.0" then Some (lit 1 1)
  else if String.eqb s "0.8" then Some (lit 8 10)
  else if String.eqb s "0.5" then Some (lit 5 10)
  else if String.eqb s "0.2" then Some (lit 2 10)
  else if String.eqb s "0.0" then Some B64.zero
  else None.
Definition str_of_level (x : B64.t) : string := "other".
Definition page_g02 : App.page B64.t :=
  Eval vm_compute in
    match App.infer float_of_label str_of_level 2 kb_g02 form_g02 with
    | Some (Ok pg) => pg
    | _ => @App.Page B64.t [] [] [] [] []
    end.

(** A and B asserted at 1.0, for the rules of [kb_inf]: R supports D with
    1.0 and R2 opposes it with -1.0. *)
Definition facts_unit : list (string * pyobj B64.t) :=
  [("A", Num (lit 1 1)); ("B", Num (lit 1 1))].
Definition facts_unit_app : list (string * B64.t) :=
  [("A", lit 1 1); ("B", lit 1 1)].

(** Two rules under one id that support the same conclusion, from A (0.5)
    and from B (0.25), and what [forward_chaining] returns on them. *)
Definition kb_shared_id : knowledge_base B64.t :=
  KB [] [Rule "R" ["A"] "D" None None; Rule "R" ["B"] "D" None None].
Definition facts_shared_id : list (string * pyobj B64.t) :=
  [("A", Num (lit 5 10)); ("B", Num (lit 25 100))].
Definition facts_shared_id_app : list (string * B64.t) :=
  [("A", lit 5 10); ("B", lit 25 100)].
Definition result_shared_id : dict B64.t * list (Engine.trace_item B64.t) :=
  Eval vm_compute in
    match Engine.forward_chaining 26 kb_shared_id facts_shared_id with
    | Some (Ok out) => out
    | _ => ([], [])
    end.

(** Two rules under one id with different conclusions, and A asserted. *)
Definition kb_same_id_app : knowledge_base B64.t :=
  KB [] [Rule "R" ["A"] "D1" None None; Rule "R" ["A"] "D2" None None].
Definition facts_a_app : list (string * B64.t) := [("A", lit 1 1)].

(** G02 asserted with a value that is no number, as in
    [{'G02': 'abc'}]. *)
Definition facts_abc : list (string * pyobj B64.t) := [("G02", NonNumeric)].

(** Three file systems: one with [rules.json] in the working directory only,
    one with a [rules_combined.json] in the working directory and another
    in [/srv/app], and one whose [rules_combined.json], in the working
    directory, is not UTF-8.  An exception that is not caught is given by the
    name of its class. *)
Definition fs_rules_json : filesystem nat string :=
  fun p => if String.eqb p "rules.json" then Parsed 7%nat else NotFound.
Definition fs_two_copies : filesystem nat string :=
  fun p =>
    if String.eqb p "rules_combined.json" then Parsed 1%nat
    else if String.eqb p "/srv/app/rules_combined.json" then Parsed 2%nat
    else NotFound.
Definition fs_not_utf8 : filesystem nat string :=
  fun p =>
    if String.eqb p "rules_combined.json" then ReadError "UnicodeDecodeError"
    else if String.eqb p "rules.json" then Parsed 7%nat
    else NotFound.
End Examples.

(** ** Decidable checks used in the proofs about binary64 *)

Module Checks.
(** Equality of representations. *)
Definition sf_eqb (x y : B64.t) : bool :=
  match x, y with
  | S754_zero a, S754_zero b => Bool.eqb a b
  | S754_infinity a, S754_infinity b => Bool.eqb a b
  | S754_nan, S754_nan => true
  | S754_finite a m e, S754_finite b m' e' =>
      Bool.eqb a b && Pos.eqb m m' && Z.eqb e e'
  | _, _ => false
  end.

(** The clamped [q / 10^4] is left as it is by [round(., 4)]. *)
Definition rounded_ok (s : bool) (q : Z) : bool :=
  let y := Engine.clamp (B64.dec4 s q) in
  sf_eqb (B64.round4 y) y.

(** [r] lies beyond the clamp on the side of the sign [s]. *)
Definition beyond (s : bool) (r : B64.t) : bool :=
  if s then SFltb r (SFopp B64.one) && negb (SFltb B64.one r)
  else SFltb B64.one r.

(** [P] holds of the [n] integers from [q] on. *)
Fixpoint forall_from (n : nat) (q : Z) (P : Z -> bool) : bool :=
  match n with
  | O => true
  | S n' => P q && forall_from n' (q + 1)%Z P
  end.
End Checks.

(** * Properties *)

Local Open Scope nat_scope.
Local Open Scope list_scope.

(** ** Dictionaries *)

Section DictFacts.
Context {V : Type}.
Implicit Types (k : string) (v : V) (d : dict V).

Lemma dict_get_set_eq k v d : dict_get k (dict_set k v d) = Some v.
Proof.
  induction d as [|[k' v'] d IH]; simpl.
  - now rewrite String.eqb_refl.
  - destruct (String.eqb k k') eqn:E; simpl.
    + now rewrite String.eqb_refl.
    + now rewrite E.
Qed.

Lemma dict_get_set_neq k k' v d :
  k <> k' -> dict_get k' (dict_set k v d) = dict_get k' d.
Proof.
  intros Hne. induction d as [|[k0 v0] d IH]; simpl.
  - destruct (String.eqb k' k) eqn:E; [|reflexivity].
    apply String.eqb_eq in E. congruence.
  - destruct (String.eqb k k0) eqn:E; simpl.
    + apply String.eqb_eq in E. subst k0.
      destruct (String.eqb k' k) eqn:E'; [|reflexivity].
      apply String.eqb_eq in E'. congruence.
    + now rewrite IH.
Qed.

Lemma dict_mem_set k k' v d :
  dict_mem k' (dict_set k v d) = String.eqb k k' || dict_mem k' d.
Proof.
  unfold dict_mem. destruct (String.eqb k k') eqn:E.
  - apply String.eqb_eq in E. subst. now rewrite dict_get_set_eq.
  - apply String.eqb_neq in E. now rewrite dict_get_set_neq.
Qed.

Lemma dict_mem_set_mono k k' v d :
  dict_mem k' d = true -> dict_mem k' (dict_set k v d) = true.
Proof. intros Hm. rewrite dict_mem_set, Hm. apply orb_true_r. Qed.

Lemma dict_mem_keys k d : dict_mem k d = true <-> In k (dict_keys d).
Proof.
  unfold dict_mem, dict_keys. induction d as [|[k' v'] d IH]; simpl.
  - split; [discriminate | tauto].
  - destruct (String.eqb k k') eqn:E.
    + apply String.eqb_eq in E. subst. split; auto.
    + apply String.eqb_neq in E. rewrite IH. split; [auto|].
      intros [Heq|Hin]; [congruence | assumption].
Qed.

Lemma dict_keys_set k v d :
  dict_keys (dict_set k v d) =
  if dict_mem k d then dict_keys d else dict_keys d ++ [k].
Proof.
  unfold dict_mem, dict_keys. induction d as [|[k' v'] d IH]; simpl; [reflexivity|].
  destruct (String.eqb k k') eqn:E; simpl.
  - apply String.eqb_eq in E. now subst.
  - rewrite IH. now destruct (dict_get k d).
Qed.

Lemma dict_set_In k v d kv :
  In kv (dict_set k v d) -> kv = (k, v) \/ In kv d.
Proof.
  induction d as [|[k' v'] d IH]; simpl.
  - intros [<-|[]]. now left.
  - destruct (String.eqb k k'); simpl.
    + intros [<-|Hin]; auto.
    + intros [<-|Hin]; auto. destruct (IH Hin); auto.
Qed.

Lemma dict_keys_set_NoDup k v d :
  NoDup (dict_keys d) -> NoDup (dict_keys (dict_set k v d)).
Proof.
  intros Hnd. rewrite dict_keys_set. destruct (dict_mem k d) eqn:E; [assumption|].
  apply NoDup_app; [assumption | repeat constructor; simpl; tauto |].
  intros x Hin [<-|[]]. apply dict_mem_keys in Hin. congruence.
Qed.
End DictFacts.

(** ** The engine: what one rule does *)

Section EngineFacts.
Context {F : Type} `{PyFloat F}.
Import Engine.

(** [combine_cf] has a value on every pair of floats: the only division is
    behind the test of its divisor. *)
Lemma combine_cf_total (cf1 cf2 : F) : exists v, combine_cf cf1 cf2 = Ok v.
Proof.
  unfold combine_cf, py_div.
  destruct (fleb fzero cf1 && fleb fzero cf2); [eauto|].
  destruct (fleb cf1 fzero && fleb cf2 fzero); [eauto|].
  cbv zeta.
  destruct (feqb (fsub fone (py_min (fabs cf1) (fabs cf2))) fzero); eauto.
Qed.

(** The two outcomes of the loop body: the state is left as it was, or the
    rule commits. *)
Lemma fire_rule_cases (st st' : state F) (r : rule F) :
  fire_rule st r = Ok st' ->
  st' = st \/
  exists cfs c new,
    antecedent_lookup (cf_facts st) (r_if r) [] = (cfs, false) /\
    cfs <> [] /\
    py_min_list cfs = Ok c /\
    unchanged_since_applied (applied_rules st) (r_id r) c = false /\
    fltb feps6 (fabs (fsub new (dict_get_default (r_then r) fzero (cf_facts st)))) = true /\
    st' = committed st r cfs c new.
Proof.
  unfold fire_rule.
  destruct (antecedent_lookup (cf_facts st) (r_if r) []) as [cfs missing] eqn:Hl.
  destruct missing; simpl; [intros [= <-]; now left|].
  destruct cfs as [|x cfs]; simpl; [intros [= <-]; now left|].
  destruct (unchanged_since_applied _ _ _) eqn:Hu; [intros [= <-]; now left|].
  destruct (dict_mem (r_then r) (cf_facts st)).
  - destruct (combine_cf_total
                (dict_get_default (r_then r) fzero (cf_facts st))
                (fmul (opt_default fone (r_cf r)) (fold_left py_min cfs x)))
      as [new Hnew].
    rewrite Hnew. simpl.
    destruct (fltb feps6 _) eqn:Hc; intros [= <-]; [right|now left].
    exists (x :: cfs), (fold_left py_min cfs x), new.
    repeat split; try assumption; try discriminate.
  - simpl. destruct (fltb feps6 _) eqn:Hc; intros [= <-]; [right|now left].
    exists (x :: cfs), (fold_left py_min cfs x),
      (fmul (opt_default fone (r_cf r)) (fold_left py_min cfs x)).
    repeat split; try assumption; try discriminate.
Qed.

(** The loop body raises on no state and no rule. *)
Lemma fire_rule_total (st : state F) (r : rule F) :
  exists st', fire_rule st r = Ok st'.
Proof.
  unfold fire_rule.
  destruct (antecedent_lookup (cf_facts st) (r_if r) []) as [cfs missing].
  destruct missing; simpl; [eauto|].
  destruct cfs as [|x cfs]; simpl; [eauto|].
  destruct (unchanged_since_applied _ _ _); [eauto|].
  destruct (dict_mem (r_then r) (cf_facts st)).
  - destruct (combine_cf_total
                (dict_get_default (r_then r) fzero (cf_facts st))
                (fmul (opt_default fone (r_cf r)) (fold_left py_min cfs x)))
      as [new ->].
    simpl. destruct (fltb feps6 _); eauto.
  - simpl. destruct (fltb feps6 _); eauto.
Qed.

Lemma fire_rules_total (rules : list (rule F)) (st : state F) :
  exists st', fire_rules rules st = Ok st'.
Proof.
  revert st. induction rules as [|r rest IH]; intros st; simpl; [eauto|].
  destruct (fire_rule_total st r) as [st1 ->]. simpl. apply IH.
Qed.

Lemma passes_no_raise (fuel : nat) (rules : list (rule F)) (st : state F) (e : exn) :
  passes fuel rules st <> Some (Raise e).
Proof.
  revert st. induction fuel as [|fuel IH]; intros st; simpl; [discriminate|].
  destruct (fire_rules_total rules (reset_changed st)) as [st1 ->].
  destruct (changed st1); [apply IH | discriminate].
Qed.

(** Every state a pass or the loop ends in is reachable. *)
Lemma fire_rules_reachable (rules all : list (rule F)) (st0 st st' : state F) :
  incl rules all -> reachable all st0 st -> fire_rules rules st = Ok st' ->
  reachable all st0 st'.
Proof.
  revert st. induction rules as [|r rest IH]; intros st Hincl Hr; simpl.
  - now intros [= <-].
  - destruct (fire_rule st r) as [st1|] eqn:E; simpl; [|discriminate].
    apply IH.
    + intros x Hx. apply Hincl. now right.
    + eapply reach_fire; eauto. apply Hincl. now left.
Qed.

Lemma passes_reachable (fuel : nat) (rules : list (rule F)) (st0 st st' : state F) :
  reachable rules st0 st -> passes fuel rules st = Some (Ok st') ->
  reachable rules st0 st'.
Proof.
  revert st. induction fuel as [|fuel IH]; intros st Hr; simpl; [discriminate|].
  destruct (fire_rules rules (reset_changed st)) as [st1|] eqn:E; [|discriminate].
  assert (Hr1 : reachable rules st0 st1).
  { eapply fire_rules_reachable; [apply incl_refl | apply reach_pass; exact Hr | exact E]. }
  destruct (changed st1); [now apply IH | now intros [= <-]].
Qed.

(** What [forward_chaining] returns comes from a reachable state. *)
Lemma forward_chaining_final (fuel : nat) (kb : knowledge_base F)
      (input_facts : list (string * pyobj F)) (facts : dict F)
      (tr : list (trace_item F)) :
  forward_chaining fuel kb input_facts = Some (Ok (facts, tr)) ->
  exists st,
    reachable (kb_rules kb) (initial_state kb input_facts) st /\
    facts = translate (finalize (cf_facts st)) /\
    tr = fired_trace st.
Proof.
  unfold forward_chaining.
  destruct (passes fuel (kb_rules kb) (initial_state kb input_facts))
    as [[st|e]|] eqn:E; try discriminate.
  intros [= <- <-]. exists st. repeat split.
  eapply passes_reachable; [apply reach_start | exact E].
Qed.
End EngineFacts.

(** ** The engine: where trace records come from, and recovered confidences *)

Section EngineSafety.
Context {F : Type} `{PyFloat F}.
Import Engine.

(** Every record of the trace was written by a rule of the knowledge base
    that has at least one antecedent. *)
Lemma trace_from_rules (rules : list (rule F)) (st0 st : state F) :
  reachable rules st0 st ->
  Forall (from_rule rules) (fired_trace st0) ->
  Forall (from_rule rules) (fired_trace st).
Proof.
  intros Hr H0. induction Hr as [|st st' r Hr IH Hin Hf|st Hr IH]; auto.
  destruct (fire_rule_cases _ _ Hf) as [->|(cfs & c & new & Hl & Hne & _ & _ & _ & ->)];
    [assumption|].
  simpl. apply Forall_app. split; [assumption|].
  constructor; [|constructor].
  exists r. simpl. repeat split; try assumption.
  intros Hnil. rewrite Hnil in Hl. simpl in Hl. congruence.
Qed.

Lemma seed_fact_recovered (base facts : dict F) (code : string) (o : pyobj F) :
  seed_fact base facts (code, o) = seed_fact base facts (code, recovered o).
Proof. destruct o; reflexivity. Qed.

Lemma seed_facts_recovered (base : dict F) (input_facts : list (string * pyobj F)) :
  seed_facts base input_facts =
  seed_facts base (map (fun '(code, o) => (code, recovered o)) input_facts).
Proof.
  unfold seed_facts. generalize (@nil (string * F)).
  induction input_facts as [|[code o] rest IH]; intros d; [reflexivity|].
  cbn [map fold_left]. rewrite <- seed_fact_recovered. apply IH.
Qed.

End EngineSafety.

(** ** The engine: finalization and the label table *)

Section Finalizer.
Context {F : Type} `{PyFloat F}.
Import Engine.

Lemma dict_set_fresh {V : Type} (k : string) (v : V) (d : dict V) :
  dict_mem k d = false -> dict_set k v d = d ++ [(k, v)].
Proof.
  unfold dict_mem. induction d as [|[k' v'] d IH]; simpl; [reflexivity|].
  destruct (String.eqb k k'); [discriminate|].
  intros Hm. now rewrite IH.
Qed.

Lemma dict_set_middle {V : Type} (k : string) (v w : V) (d1 d2 : dict V) :
  ~ In k (dict_keys d1) ->
  dict_set k v (d1 ++ (k, w) :: d2) = d1 ++ (k, v) :: d2.
Proof.
  induction d1 as [|[k' v'] d1 IH]; simpl; intros Hnin.
  - now rewrite String.eqb_refl.
  - destruct (String.eqb k k') eqn:E.
    + apply String.eqb_eq in E. exfalso. apply Hnin. left. now symmetry.
    + rewrite IH; [reflexivity|]. intros Hin. apply Hnin. now right.
Qed.

(** The fact store never holds a key twice. *)
Lemma seed_facts_NoDup (base : dict F) (input_facts : list (string * pyobj F)) :
  NoDup (dict_keys (seed_facts base input_facts)).
Proof.
  unfold seed_facts.
  assert (Hgen : forall acc : dict F,
             NoDup (dict_keys acc) ->
             NoDup (dict_keys (fold_left (seed_fact base) input_facts acc))).
  { induction input_facts as [|[code o] rest IH]; intros acc Hacc; [assumption|].
    simpl. apply IH. destruct (dict_get code base); now apply dict_keys_set_NoDup. }
  apply Hgen. constructor.
Qed.

Lemma cf_facts_NoDup (rules : list (rule F)) (st0 st : state F) :
  reachable rules st0 st ->
  NoDup (dict_keys (cf_facts st0)) -> NoDup (dict_keys (cf_facts st)).
Proof.
  intros Hr H0. induction Hr as [|st st' r Hr IH Hin Hf|st Hr IH]; auto.
  destruct (fire_rule_cases _ _ Hf) as [->|(cfs & c & new & _ & _ & _ & _ & _ & ->)];
    [assumption|].
  simpl. now apply dict_keys_set_NoDup.
Qed.

(** On a store without repeated keys the finalization loop maps
    [final_value] over the values. *)
Lemma finalize_map (facts : dict F) :
  NoDup (dict_keys facts) ->
  finalize facts = map (fun '(k, v) => (k, final_value v)) facts.
Proof.
  unfold finalize.
  set (g := fun '((k, v) : string * F) => (k, final_value v)).
  assert (Hgen : forall todo done : dict F,
             NoDup (dict_keys (done ++ todo)) ->
             fold_left (fun d '(k, v) => dict_set k (final_value v) d) todo
                       (map g done ++ todo) = map g (done ++ todo)).
  { induction todo as [|[k v] todo IH]; intros done Hnd; simpl.
    - now rewrite !app_nil_r.
    - rewrite dict_set_middle.
      + specialize (IH (done ++ [(k, v)])).
        rewrite map_app, <- !app_assoc in IH. simpl in IH. apply IH.
        exact Hnd.
      + unfold dict_keys in *. rewrite map_app in Hnd. simpl in Hnd.
        apply NoDup_remove_2 in Hnd. rewrite map_map.
        intros Hin. apply Hnd. apply in_or_app. left.
        rewrite in_map_iff in *. destruct Hin as ([k0 v0] & Hk & Hin0).
        exists (k0, v0). split; [exact Hk | exact Hin0]. }
  intros Hnd. apply (Hgen facts []). exact Hnd.
Qed.

(** Every entry of the translated mapping carries the value of an entry
    whose key translates to its label. *)
Lemma translate_In (facts : dict F) (label : string) (v : F) :
  In (label, v) (translate facts) ->
  exists code, In (code, v) facts /\ label = translate_key code.
Proof.
  unfold translate.
  assert (Hgen : forall todo acc : dict F,
             In (label, v)
                (fold_left (fun d '(k, w) => dict_set (translate_key k) w d) todo acc) ->
             In (label, v) acc \/
             exists code, In (code, v) todo /\ label = translate_key code).
  { induction todo as [|[k w] todo IH]; intros acc; simpl; [tauto|].
    intros Hin. destruct (IH _ Hin) as [Hacc|(code & Hc & Hl)].
    - destruct (dict_set_In _ _ _ _ Hacc) as [[= -> ->]|Hin']; [|tauto].
      right. exists k. split; [now left | reflexivity].
    - right. exists code. split; [now right | assumption]. }
  intros Hin. destruct (Hgen _ _ Hin) as [[]|Hex]. exact Hex.
Qed.

(** Every key of the store is present under its label. *)
Lemma translate_mem (facts : dict F) (code : string) :
  In code (dict_keys facts) -> dict_mem (translate_key code) (translate facts) = true.
Proof.
  unfold translate.
  assert (Hgen : forall todo acc : dict F,
             dict_mem (translate_key code) acc = true \/ In code (dict_keys todo) ->
             dict_mem (translate_key code)
               (fold_left (fun d '(k, w) => dict_set (translate_key k) w d) todo acc)
             = true).
  { induction todo as [|[k w] todo IH]; intros acc; simpl; [tauto|].
    intros [Hacc|[->|Hin]]; apply IH.
    - left. now apply dict_mem_set_mono.
    - left. rewrite dict_mem_set, String.eqb_refl. reflexivity.
    - now right. }
  intros Hin. apply Hgen. now right.
Qed.

(** Where no two keys share a label, translation renames the keys in place. *)
Lemma translate_map (facts : dict F) :
  NoDup (map translate_key (dict_keys facts)) ->
  translate facts = map (fun '(k, v) => (translate_key k, v)) facts.
Proof.
  unfold translate.
  set (g := fun '((k, v) : string * F) => (translate_key k, v)).
  assert (Hgen : forall todo done : dict F,
             NoDup (map translate_key (dict_keys (done ++ todo))) ->
             fold_left (fun d '(k, w) => dict_set (translate_key k) w d) todo
                       (map g done) = map g (done ++ todo)).
  { induction todo as [|[k w] todo IH]; intros done Hnd; simpl.
    - now rewrite app_nil_r.
    - rewrite dict_set_fresh.
      + specialize (IH (done ++ [(k, w)])).
        rewrite map_app, <- app_assoc in IH. simpl in IH. apply IH. exact Hnd.
      + destruct (dict_mem (translate_key k) (map g done)) eqn:Em; [|reflexivity].
        exfalso. apply dict_mem_keys in Em.
        unfold dict_keys in *. rewrite !map_app in Hnd. simpl in Hnd.
        apply NoDup_remove_2 in Hnd. apply Hnd. apply in_or_app. left.
        rewrite map_map in Em. rewrite map_map.
        rewrite in_map_iff in *. destruct Em as ([k0 v0] & Hk & Hin0).
        exists (k0, v0). split; [exact Hk | exact Hin0]. }
  intros Hnd. apply (Hgen facts []). exact Hnd.
Qed.

Lemma translate_key_unmapped (code : string) :
  dict_get code translation_map = None -> translate_key code = code.
Proof. unfold translate_key, dict_get_default. now intros ->. Qed.

(** The finalized fact store behind a returned mapping. *)
Lemma forward_chaining_finalized (fuel : nat) (kb : knowledge_base F)
      (input_facts : list (string * pyobj F)) (facts : dict F)
      (tr : list (trace_item F)) :
  forward_chaining fuel kb input_facts = Some (Ok (facts, tr)) ->
  exists st,
    reachable (kb_rules kb) (initial_state kb input_facts) st /\
    tr = fired_trace st /\
    facts = translate (map (fun '(k, v) => (k, final_value v)) (cf_facts st)).
Proof.
  intros Hrun. destruct (forward_chaining_final _ _ _ Hrun) as (st & Hr & -> & ->).
  exists st. repeat split; [assumption|].
  rewrite finalize_map; [reflexivity|].
  apply (cf_facts_NoDup Hr). simpl. apply seed_facts_NoDup.
Qed.

(** Inside the loop the fact store is keyed by codes of the input and by
    conclusions of the rules, as they are written there. *)
Lemma seed_facts_keys (base : dict F) (input_facts : list (string * pyobj F)) (k : string) :
  In k (dict_keys (seed_facts base input_facts)) -> In k (map fst input_facts).
Proof.
  unfold seed_facts.
  assert (Hgen : forall acc : dict F,
             In k (dict_keys (fold_left (seed_fact base) input_facts acc)) ->
             In k (dict_keys acc) \/ In k (map fst input_facts)).
  { induction input_facts as [|[code o] rest IH]; intros acc; simpl; [tauto|].
    intros Hin. destruct (IH _ Hin) as [Hacc|Hrest]; [|tauto].
    assert (Hk : In k (dict_keys (dict_set code fzero acc)) -> In k (dict_keys acc) \/ code = k).
    { rewrite dict_keys_set. destruct (dict_mem code acc); [tauto|].
      intros Hi. apply in_app_or in Hi. destruct Hi as [Hi|[->|[]]]; tauto. }
    assert (Hsame : forall v w : F, dict_keys (dict_set code v acc) = dict_keys (dict_set code w acc))
      by (intros v w; now rewrite !dict_keys_set).
    destruct (dict_get code base);
      rewrite (Hsame _ fzero) in Hacc; destruct (Hk Hacc); tauto. }
  intros Hin. destruct (Hgen _ Hin) as [[]|Hi]. exact Hi.
Qed.

Lemma cf_facts_keys (kb : knowledge_base F) (input_facts : list (string * pyobj F))
      (st : state F) (k : string) :
  reachable (kb_rules kb) (initial_state kb input_facts) st ->
  In k (dict_keys (cf_facts st)) ->
  In k (map fst input_facts) \/ In k (map (@r_then F) (kb_rules kb)).
Proof.
  intros Hr. induction Hr as [|st st' r Hr IH Hin Hf|st Hr IH]; auto.
  - simpl. intros Hk. left. now apply seed_facts_keys in Hk.
  - destruct (fire_rule_cases _ _ Hf) as [->|(cfs & c & new & _ & _ & _ & _ & _ & ->)];
      [assumption|].
    simpl. rewrite dict_keys_set. destruct (dict_mem (r_then r) (cf_facts st)); [assumption|].
    intros Hk. apply in_app_or in Hk. destruct Hk as [Hk|[<-|[]]]; [auto|].
    right. now apply in_map.
Qed.

(** C8 (as amended). The label table is part of [forward_chaining]: it is
    applied once, after the loop and after the rounding and the clamp, never
    inside the loop, whose fact store is keyed by the codes of the input and
    of the rule conclusions.  The returned mapping is the translation of
    the finalized store: every returned entry carries, unchanged, the
    finalized value of a fact whose code translates to its key; every fact
    is present under its label; a code without an entry in the table keeps
    its name; and where no two facts share a label the mapping is the
    finalized store with each key replaced by its label. *)
Theorem labels_applied_after_finalization (fuel : nat) (kb : knowledge_base F)
        (input_facts : list (string * pyobj F)) (facts : dict F)
        (tr : list (trace_item F)) :
  forward_chaining fuel kb input_facts = Some (Ok (facts, tr)) ->
  exists st finalized,
    reachable (kb_rules kb) (initial_state kb input_facts) st /\
    (forall k, In k (dict_keys (cf_facts st)) ->
               In k (map fst input_facts) \/ In k (map (@r_then F) (kb_rules kb))) /\
    finalized = map (fun '(k, v) => (k, final_value v)) (cf_facts st) /\
    facts = translate finalized /\
    (forall label v, In (label, v) facts ->
                     exists code, In (code, v) finalized /\ label = translate_key code) /\
    (forall code, In code (dict_keys finalized) ->
                  dict_mem (translate_key code) facts = true) /\
    (forall code, dict_get code translation_map = None -> translate_key code = code) /\
    (NoDup (map translate_key (dict_keys finalized)) ->
     facts = map (fun '(k, v) => (translate_key k, v)) finalized).
Proof.
  intros Hrun. destruct (forward_chaining_finalized _ _ _ Hrun) as (st & Hr & -> & ->).
  exists st, (map (fun '(k, v) => (k, final_value v)) (cf_facts st)).
  repeat split.
  - exact Hr.
  - intros k. now apply cf_facts_keys.
  - intros label v. apply translate_In.
  - intros code. apply translate_mem.
  - apply translate_key_unmapped.
  - apply translate_map.
Qed.
End Finalizer.

(** ** The engine: the anti-oscillation memo *)

Section AntiOscillation.
Context {F : Type} `{PyFloat F}.
Import Engine.

Lemma memo_of_snoc (tr : list (trace_item F)) (t : trace_item F) :
  memo_of (tr ++ [t]) = dict_set (t_rule_id t) (t_cf_antecedent t) (memo_of tr).
Proof. unfold memo_of. now rewrite fold_left_app. Qed.

(** The memo is the memo of the trace, and the trace is spaced: both hold
    when the loop starts and every firing keeps them. *)
Lemma memo_invariant (rules : list (rule F)) (st0 st : state F) :
  reachable rules st0 st ->
  applied_rules st0 = memo_of (fired_trace st0) -> spaced (fired_trace st0) ->
  applied_rules st = memo_of (fired_trace st) /\ spaced (fired_trace st).
Proof.
  intros Hr Hm0 Hs0.
  induction Hr as [|st st' r Hr [IHm IHs] Hin Hf|st Hr IH]; auto.
  destruct (fire_rule_cases _ _ Hf)
    as [->|(cfs & c & new & _ & _ & _ & Hu & _ & ->)]; [auto|].
  simpl. split.
  - rewrite memo_of_snoc. simpl. now rewrite IHm.
  - apply spaced_snoc; [assumption|]. simpl. now rewrite <- IHm.
Qed.

Lemma memo_of_get (tr : list (trace_item F)) (rid : string) (c : F) :
  dict_get rid (memo_of tr) = Some c ->
  exists t, In t tr /\ t_rule_id t = rid /\ t_cf_antecedent t = c.
Proof.
  induction tr as [|t tr IH] using rev_ind.
  - discriminate.
  - rewrite memo_of_snoc. destruct (String.eqb (t_rule_id t) rid) eqn:E.
    + apply String.eqb_eq in E. subst rid. rewrite dict_get_set_eq.
      intros [= <-]. exists t. split; [apply in_or_app; right; now left | auto].
    + apply String.eqb_neq in E. rewrite dict_get_set_neq by assumption.
      intros Hg. destruct (IH Hg) as (t0 & Hin & Hid & Hc).
      exists t0. split; [apply in_or_app; now left | auto].
Qed.

Lemma memo_of_mem (tr : list (trace_item F)) (t : trace_item F) :
  In t tr -> dict_mem (t_rule_id t) (memo_of tr) = true.
Proof.
  induction tr as [|t0 tr IH] using rev_ind; [intros []|].
  intros Hin. rewrite memo_of_snoc, dict_mem_set.
  apply in_app_or in Hin. destruct Hin as [Hin|[->|[]]].
  - rewrite (IH Hin). apply orb_true_r.
  - now rewrite String.eqb_refl.
Qed.

Lemma fired_by_app (rid : string) (tr1 tr2 : list (trace_item F)) :
  fired_by rid (tr1 ++ tr2) = fired_by rid tr1 ++ fired_by rid tr2.
Proof. unfold fired_by. apply filter_app. Qed.

Lemma fired_by_In (rid : string) (tr : list (trace_item F)) (t : trace_item F) :
  In t (fired_by rid tr) <-> In t tr /\ t_rule_id t = rid.
Proof.
  unfold fired_by. rewrite filter_In, String.eqb_eq. intuition congruence.
Qed.

(** In a spaced trace, a rule id whose records all carry one antecedent CF
    [c], with [abs(c - c) < 1e-9], has at most one record. *)
Lemma spaced_once (tr : list (trace_item F)) (rid : string) (c : F) :
  spaced tr ->
  (forall t, In t tr -> t_rule_id t = rid -> t_cf_antecedent t = c) ->
  fltb (fabs (fsub c c)) feps9 = true ->
  List.length (fired_by rid tr) <= 1.
Proof.
  intros Hs. induction Hs as [|tr t Hs IH Hu]; intros Hall Hcc; [simpl; lia|].
  rewrite fired_by_app, length_app.
  assert (Hall' : forall t0, In t0 tr -> t_rule_id t0 = rid -> t_cf_antecedent t0 = c).
  { intros t0 Hin. apply Hall. apply in_or_app. now left. }
  specialize (IH Hall' Hcc).
  simpl. destruct (String.eqb rid (t_rule_id t)) eqn:E; simpl; [|lia].
  apply String.eqb_eq in E.
  assert (Hct : t_cf_antecedent t = c).
  { apply Hall; [apply in_or_app; right; now left | now symmetry]. }
  destruct (fired_by rid tr) as [|t0 l] eqn:Hfb; [simpl; lia|exfalso].
  assert (Hin0 : In t0 (fired_by rid tr)) by (rewrite Hfb; now left).
  apply fired_by_In in Hin0. destruct Hin0 as [Hin0 Hid0].
  pose proof (memo_of_mem _ _ Hin0) as Hmem. rewrite Hid0 in Hmem.
  unfold unchanged_since_applied in Hu. rewrite <- E in Hu.
  unfold dict_mem in Hmem.
  destruct (dict_get rid (memo_of tr)) as [prev|] eqn:Hg; [|discriminate].
  destruct (memo_of_get _ _ Hg) as (t1 & Hin1 & Hid1 & Hc1).
  rewrite (Hall' t1 Hin1 Hid1) in Hc1. subst prev.
  rewrite Hct in Hu. congruence.
Qed.

(** The guard: a rule whose antecedents are all present, with combined CF
    [c], and whose memo entry is less than [1e-9] away from [c], leaves the
    state as it is. *)
Lemma fire_rule_guard (st : state F) (r : rule F) (cfs : list F) (c : F) :
  antecedent_lookup (cf_facts st) (r_if r) [] = (cfs, false) ->
  py_min_list cfs = Ok c ->
  unchanged_since_applied (applied_rules st) (r_id r) c = true ->
  fire_rule st r = Ok st.
Proof.
  intros Hl Hm Hu. unfold fire_rule. rewrite Hl.
  destruct cfs as [|x cfs]; [reflexivity|].
  simpl in Hm. injection Hm as <-. simpl. now rewrite Hu.
Qed.
End AntiOscillation.

(** ** The engine: passes that never settle *)

Section Spinning.
Context {F : Type} `{PyFloat F}.
Import Engine.

(** The trace is written and never read: a firing does to the fact store,
    the memo and the flag what it does from the empty trace. *)
Lemma fire_rule_trace (f m : dict F) (t : list (trace_item F)) (c : bool)
      (r : rule F) :
  fire_rule (State f m t c) r =
  match fire_rule (State f m [] c) r with
  | Ok st' => Ok (prefix_trace t st')
  | Raise e => Raise e
  end.
Proof.
  unfold fire_rule, prefix_trace. simpl.
  destruct (antecedent_lookup f (r_if r) []) as [cfs missing].
  destruct missing; simpl; [now rewrite app_nil_r|].
  destruct cfs as [|x cfs]; simpl; [now rewrite app_nil_r|].
  destruct (unchanged_since_applied m (r_id r) (fold_left py_min cfs x));
    [simpl; now rewrite app_nil_r|].
  destruct (if dict_mem (r_then r) f
            then combine_cf (dict_get_default (r_then r) fzero f)
                            (fmul (opt_default fone (r_cf r)) (fold_left py_min cfs x))
            else Ok (fmul (opt_default fone (r_cf r)) (fold_left py_min cfs x)))
    as [new|e]; simpl; [|reflexivity].
  destruct (fltb feps6 _); simpl; now rewrite ?app_nil_r.
Qed.

Lemma fire_rules_trace (rules : list (rule F)) (f m : dict F)
      (t : list (trace_item F)) (c : bool) :
  fire_rules rules (State f m t c) =
  match fire_rules rules (State f m [] c) with
  | Ok st' => Ok (prefix_trace t st')
  | Raise e => Raise e
  end.
Proof.
  revert f m t c. induction rules as [|r rest IH]; intros f m t c; simpl.
  - unfold prefix_trace. simpl. now rewrite app_nil_r.
  - rewrite fire_rule_trace.
    destruct (fire_rule (State f m [] c) r) as [[f1 m1 t1 c1]|e]; simpl;
      [|reflexivity].
    unfold prefix_trace at 1. simpl.
    rewrite (IH f1 m1 (t ++ t1) c1), (IH f1 m1 t1 c1).
    destruct (fire_rules rest (State f1 m1 [] c1)) as [st'|e]; [|reflexivity].
    unfold prefix_trace. simpl. now rewrite app_assoc.
Qed.

(** More fuel does not change the outcome of a loop that ended. *)
Lemma passes_more_fuel (rules : list (rule F)) (fuel fuel' : nat) (st : state F)
      (out : result (state F)) :
  passes fuel rules st = Some out -> fuel <= fuel' ->
  passes fuel' rules st = Some out.
Proof.
  revert fuel' st. induction fuel as [|fuel IH]; intros fuel' st; simpl;
    [discriminate|].
  intros Hp Hle. destruct fuel' as [|fuel']; [lia|]. simpl.
  destruct (fire_rules rules (reset_changed st)) as [st1|e]; [|assumption].
  destruct (changed st1); [|assumption].
  apply IH; [assumption | lia].
Qed.

(** [k] committing passes use up [k] units of fuel. *)
Lemma spin_passes (rules : list (rule F)) (k : nat) (f m f' m' : dict F) :
  spin k rules f m = Some (f', m') ->
  forall fuel t c, exists t' c',
    passes (k + fuel) rules (State f m t c) = passes fuel rules (State f' m' t' c').
Proof.
  revert f m. induction k as [|k IH]; intros f m; simpl.
  - intros [= <- <-] fuel t c. now exists t, c.
  - intros Hs fuel t c. unfold reset_changed. simpl.
    rewrite fire_rules_trace.
    destruct (fire_rules rules (State f m [] false)) as [[f1 m1 t1 c1]|e];
      [|discriminate].
    simpl in *. destruct c1; [|discriminate].
    apply (IH _ _ Hs).
Qed.

(** A fact store and memo that come back after [k >= 1] committing passes
    keep the loop going for ever. *)
Lemma spin_cycle (rules : list (rule F)) (k : nat) (f m : dict F) :
  spin (S k) rules f m = Some (f, m) ->
  forall fuel t c, passes fuel rules (State f m t c) = None.
Proof.
  intros Hs.
  assert (Hmul : forall j t c, passes (j * S k) rules (State f m t c) = None).
  { induction j as [|j IH]; intros t c; [reflexivity|].
    replace (S j * S k) with (S k + j * S k) by lia.
    destruct (spin_passes _ _ _ _ Hs (j * S k) t c) as (t' & c' & ->).
    apply IH. }
  intros fuel t c.
  destruct (passes fuel rules (State f m t c)) as [out|] eqn:E; [|reflexivity].
  specialize (Hmul fuel t c).
  rewrite (passes_more_fuel _ (fuel' := fuel * S k) _ E) in Hmul by nia.
  discriminate.
Qed.

(** The same after a transient of [a] committing passes. *)
Lemma spin_diverges (rules : list (rule F)) (a k : nat) (f m f1 m1 : dict F) :
  spin a rules f m = Some (f1, m1) ->
  spin (S k) rules f1 m1 = Some (f1, m1) ->
  forall fuel t c, passes fuel rules (State f m t c) = None.
Proof.
  intros Ha Hk fuel t c.
  destruct (passes fuel rules (State f m t c)) as [out|] eqn:E; [|reflexivity].
  destruct (spin_passes _ _ _ _ Ha fuel t c) as (t' & c' & Heq).
  rewrite (@spin_cycle rules k f1 m1 Hk fuel t' c') in Heq.
  rewrite (passes_more_fuel _ (fuel' := a + fuel) _ E) in Heq by lia.
  discriminate.
Qed.

(** A pass does not shorten the trace, and sets [changed] only when it
    appends a record. *)
Lemma fire_rules_grows (rules : list (rule F)) (st st' : state F) :
  fire_rules rules st = Ok st' ->
  List.length (fired_trace st) <= List.length (fired_trace st') /\
  (changed st' = true ->
   changed st = true \/ List.length (fired_trace st) < List.length (fired_trace st')).
Proof.
  revert st. induction rules as [|r rest IH]; intros st; simpl.
  - intros [= <-]. split; [lia|tauto].
  - destruct (fire_rule st r) as [st1|] eqn:E; simpl; [|discriminate].
    intros Hrest. destruct (IH _ Hrest) as [Hle Hch].
    destruct (fire_rule_cases _ _ E)
      as [->|(cfs & c & new & _ & _ & _ & _ & _ & ->)]; [tauto|].
    simpl in *. rewrite length_app in *. simpl in *.
    split; [lia|]. intros _. right. lia.
Qed.

(** Each pass either commits at least one change, and the loop goes on, or
    commits none, and the loop ends with the state of that pass. *)
Lemma pass_commits_or_ends (rules : list (rule F)) (fuel : nat) (st st1 : state F) :
  fire_rules rules (reset_changed st) = Ok st1 ->
  (changed st1 = false /\ passes (S fuel) rules st = Some (Ok st1)) \/
  (changed st1 = true /\
   List.length (fired_trace st) < List.length (fired_trace st1) /\
   passes (S fuel) rules st = passes fuel rules st1).
Proof.
  intros Hpass. simpl. rewrite Hpass.
  destruct (changed st1) eqn:Hc; [right|left; split; reflexivity].
  destruct (fire_rules_grows _ _ Hpass) as [_ Hgrow].
  destruct (Hgrow Hc) as [Habs|Hlt]; [discriminate|].
  repeat split. exact Hlt.
Qed.
End Spinning.

(** ** binary64: what rounding and comparison keep *)

Section SpecFloatFacts.
Local Open Scope Z_scope.

Lemma digits2_pos_lower (p : positive) : 2 ^ (Zpos (digits2_pos p) - 1) <= Zpos p.
Proof.
  induction p as [p IH|p IH|]; simpl digits2_pos.
  - rewrite Pos2Z.inj_succ, (Pos2Z.inj_xI p).
    replace (Z.succ (Zpos (digits2_pos p)) - 1) with (Z.succ (Zpos (digits2_pos p) - 1)) by lia.
    rewrite Z.pow_succ_r by lia. lia.
  - rewrite Pos2Z.inj_succ, (Pos2Z.inj_xO p).
    replace (Z.succ (Zpos (digits2_pos p)) - 1) with (Z.succ (Zpos (digits2_pos p) - 1)) by lia.
    rewrite Z.pow_succ_r by lia. lia.
  - simpl. lia.
Qed.

Lemma digits2_pos_upper (p : positive) : Zpos p < 2 ^ Zpos (digits2_pos p).
Proof.
  induction p as [p IH|p IH|]; simpl digits2_pos.
  - rewrite Pos2Z.inj_succ, (Pos2Z.inj_xI p), Z.pow_succ_r by lia. lia.
  - rewrite Pos2Z.inj_succ, (Pos2Z.inj_xO p), Z.pow_succ_r by lia. lia.
  - simpl. lia.
Qed.

Lemma shr_1_div2 (mrs : shr_record) :
  0 <= shr_m mrs -> shr_m (shr_1 mrs) = Z.div2 (shr_m mrs).
Proof.
  destruct mrs as [m r s]. simpl. intros Hm.
  destruct m as [|p|p]; [reflexivity| |lia].
  destruct p; reflexivity.
Qed.

Lemma shr_1_lower (mrs : shr_record) (k : Z) :
  0 <= k -> 2 ^ (k + 1) <= shr_m mrs -> 2 ^ k <= shr_m (shr_1 mrs).
Proof.
  intros Hk Hm.
  assert (Hpos : 0 < 2 ^ (k + 1)) by (apply Z.pow_pos_nonneg; lia).
  rewrite shr_1_div2 by lia. rewrite Z.div2_div.
  apply Z.div_le_lower_bound; [lia|].
  rewrite Z.pow_add_r in Hm by lia. simpl in Hm. lia.
Qed.

Lemma iter_shr_1_lower (p : positive) :
  forall (mrs : shr_record) (k : Z),
    0 <= k -> 2 ^ (k + Zpos p) <= shr_m mrs ->
    2 ^ k <= shr_m (iter_pos shr_1 p mrs).
Proof.
  induction p as [p IH|p IH|]; intros mrs k Hk Hm; simpl.
  - apply IH; [lia|]. apply IH; [lia|]. apply shr_1_lower; [lia|].
    rewrite (Pos2Z.inj_xI p) in Hm.
    replace (k + Zpos p + Zpos p + 1) with (k + (2 * Zpos p + 1)) by lia.
    exact Hm.
  - apply IH; [lia|]. apply IH; [lia|].
    rewrite (Pos2Z.inj_xO p) in Hm.
    replace (k + Zpos p + Zpos p) with (k + 2 * Zpos p) by lia.
    exact Hm.
  - now apply shr_1_lower.
Qed.

(** A right shift by fewer places than the mantissa has digits leaves a
    positive mantissa and does not lower the exponent. *)
Lemma shr_positive (mrs : shr_record) (e n d : Z) :
  1 <= d -> 2 ^ (d - 1) <= shr_m mrs -> n < d ->
  1 <= shr_m (fst (shr mrs e n)) /\ e <= snd (shr mrs e n).
Proof.
  intros Hd Hm Hn.
  assert (H1 : 1 <= 2 ^ (d - 1)).
  { change 1 with (2 ^ 0). apply Z.pow_le_mono_r; lia. }
  destruct n as [|p|p]; simpl; try (split; lia).
  split; [|lia].
  change 1 with (2 ^ 0). apply iter_shr_1_lower; [lia|].
  etransitivity; [|exact Hm]. apply Z.pow_le_mono_r; lia.
Qed.

Lemma shr_record_of_loc_m (m : Z) (l : location) :
  shr_m (shr_record_of_loc m l) = m.
Proof. destruct l as [|[]]; reflexivity. Qed.

Lemma shr_fexp_positive (m e : Z) (l : location) :
  0 < m -> emin B64.prec B64.emax <= e ->
  1 <= shr_m (fst (shr_fexp B64.prec B64.emax m e l)) /\
  e <= snd (shr_fexp B64.prec B64.emax m e l).
Proof.
  intros Hm He. unfold shr_fexp.
  destruct m as [|p|p]; try lia.
  apply shr_positive with (d := Zpos (digits2_pos p)).
  - lia.
  - rewrite shr_record_of_loc_m. apply digits2_pos_lower.
  - unfold fexp, emin, B64.prec, B64.emax, Zdigits2 in *. lia.
Qed.

Lemma round_nearest_even_ge (m : Z) (l : location) : m <= round_nearest_even m l.
Proof.
  destruct l as [|[]]; simpl; try lia. destruct (Z.even m); lia.
Qed.

(** Rounding a positive mantissa at an exponent that is not below the least
    one gives a finite number with an exponent that is not lower, or an
    infinity: never a zero. *)
Lemma binary_round_aux_positive (sx : bool) (mx ex : Z) (lx : location) :
  0 < mx -> emin B64.prec B64.emax <= ex ->
  (exists m e, binary_round_aux B64.prec B64.emax sx mx ex lx = S754_finite sx m e
               /\ ex <= e) \/
  binary_round_aux B64.prec B64.emax sx mx ex lx = S754_infinity sx.
Proof.
  intros Hm He. unfold binary_round_aux.
  pose proof (shr_fexp_positive lx Hm He) as [Hm1 He1].
  destruct (shr_fexp B64.prec B64.emax mx ex lx) as [mrs' e'].
  simpl in Hm1, He1.
  pose proof (round_nearest_even_ge (shr_m mrs') (loc_of_shr_record mrs')) as Hr.
  assert (Hm2 : 0 < round_nearest_even (shr_m mrs') (loc_of_shr_record mrs')) by lia.
  assert (He2 : emin B64.prec B64.emax <= e') by lia.
  pose proof (shr_fexp_positive loc_Exact Hm2 He2) as [Hm3 He3].
  destruct (shr_fexp B64.prec B64.emax _ e' loc_Exact) as [mrs'' e''].
  simpl in Hm3, He3.
  destruct (shr_m mrs'') as [|m|m]; try lia.
  destruct (e'' <=? B64.emax - B64.prec).
  - left. exists m, e''. split; [reflexivity|lia].
  - now right.
Qed.
End SpecFloatFacts.

(** ** app.py: each rule fires once *)

Section AppFacts.
Context {F : Type} `{PyFloat F}.
Import App.

(** The two outcomes of the loop body when it does not raise. *)
Lemma app_fire_rule_cases (st st' : state F) (r : rule F) :
  fire_rule st r = Ok st' ->
  st' = st \/
  (dict_mem (r_then r) (cf_facts st) && in_trace (r_id r) (trace st) = false /\
   exists t new,
     trace_key t = rule_key r /\
     st' = {| cf_facts := dict_set (r_then r) new (cf_facts st);
              trace := trace st ++ [t];
              rules_fired := true |}).
Proof.
  unfold fire_rule.
  destruct (dict_mem (r_then r) (cf_facts st) && in_trace (r_id r) (trace st)) eqn:Hskip;
    [intros [= <-]; now left|].
  destruct (negb (forallb _ (r_if r))); [intros [= <-]; now left|].
  destruct (antecedent_values (cf_facts st) (r_if r)) as [cfs|e]; simpl; [|discriminate].
  destruct (py_min_list cfs) as [c|e]; simpl; [|discriminate].
  destruct (if dict_mem (r_then r) (cf_facts st) then _ else _) as [new|e]; simpl;
    [|discriminate].
  destruct (fltb feps6 _); intros [= <-]; [right|now left].
  split; [reflexivity|]. eexists. exists new. split; [|reflexivity]. reflexivity.
Qed.

(** The skip: a rule that is in the trace and whose conclusion is in the fact
    store is passed over, whatever its antecedents are worth now. *)
Lemma app_fire_rule_skip (st : state F) (r : rule F) :
  dict_mem (r_then r) (cf_facts st) = true ->
  in_trace (r_id r) (trace st) = true ->
  fire_rule st r = Ok st.
Proof. intros Hm Ht. unfold fire_rule. now rewrite Hm, Ht. Qed.

Lemma in_trace_In (rid : string) (tr : list (trace_item F)) :
  in_trace rid tr = true <-> exists t, In t tr /\ t_rule_id t = rid.
Proof.
  unfold in_trace. rewrite existsb_exists. split.
  - intros (t & Hin & He). apply String.eqb_eq in He. eauto.
  - intros (t & Hin & He). exists t. split; [assumption|]. now apply String.eqb_eq.
Qed.

Lemma app_invariant_reachable (rules : list (rule F)) (st0 st : state F) :
  reachable rules st0 st -> app_invariant rules st0 -> app_invariant rules st.
Proof.
  intros Hr H0. induction Hr as [|st st' r Hr IH Hin Hf|st Hr IH]; auto.
  destruct IH as (Hmem & Hincl & Hnd).
  destruct (app_fire_rule_cases _ _ Hf) as [->|(Hskip & t & new & Hkey & ->)];
    [now repeat split|].
  unfold app_invariant. simpl. repeat split.
  - intros t0 Hin0. apply in_app_or in Hin0. destruct Hin0 as [Hin0|[<-|[]]].
    + apply dict_mem_set_mono. auto.
    + injection Hkey as _ Hthen. rewrite Hthen, dict_mem_set, String.eqb_refl.
      reflexivity.
  - rewrite map_app. apply incl_app; [assumption|].
    intros k [<-|[]]. rewrite Hkey. now apply in_map.
  - rewrite map_app. apply NoDup_app; [assumption | repeat constructor; simpl; tauto |].
    intros k Hk [<-|[]].
    apply in_map_iff in Hk. destruct Hk as (t0 & Hk0 & Hin0).
    rewrite Hkey in Hk0. injection Hk0 as Hid Hthen.
    assert (Hm : dict_mem (r_then r) (cf_facts st) = true)
      by (rewrite <- Hthen; auto).
    assert (Ht : in_trace (r_id r) (trace st) = true)
      by (apply in_trace_In; eauto).
    rewrite Hm, Ht in Hskip. discriminate.
Qed.

Lemma app_invariant_fire_rules (all rules : list (rule F)) (st st' : state F) :
  incl rules all -> app_invariant all st -> fire_rules rules st = Ok st' ->
  app_invariant all st'.
Proof.
  revert st. induction rules as [|r rest IH]; intros st Hincl Hinv; simpl.
  - now intros [= <-].
  - destruct (fire_rule st r) as [st1|] eqn:E; simpl; [|discriminate].
    apply IH; [intros x Hx; apply Hincl; now right|].
    apply (app_invariant_reachable (st0 := st)); [|assumption].
    eapply reach_fire; [apply reach_start | apply Hincl; now left | exact E].
Qed.

(** A pass does not shorten the trace, and sets the flag only when it
    lengthens it. *)
Lemma app_fire_rules_grows (rules : list (rule F)) (st st' : state F) :
  fire_rules rules st = Ok st' ->
  List.length (trace st) <= List.length (trace st') /\
  (rules_fired st' = true ->
   rules_fired st = true \/ List.length (trace st) < List.length (trace st')).
Proof.
  revert st. induction rules as [|r rest IH]; intros st; simpl.
  - intros [= <-]. split; [lia|tauto].
  - destruct (fire_rule st r) as [st1|] eqn:E; simpl; [|discriminate].
    intros Hrest. destruct (IH _ Hrest) as [Hle Hfired].
    destruct (app_fire_rule_cases _ _ E) as [->|(_ & t & new & _ & ->)];
      [tauto|].
    simpl in *. rewrite length_app in *. simpl in *.
    split; [lia|]. intros _. right. lia.
Qed.

Lemma app_trace_bounded (rules : list (rule F)) (st : state F) :
  app_invariant rules st -> List.length (trace st) <= List.length rules.
Proof.
  intros (_ & Hincl & Hnd).
  rewrite <- (length_map trace_key), <- (length_map rule_key).
  now apply NoDup_incl_length.
Qed.

(** The loop of [app.py] ends: it needs at most one pass more than there are
    rules left to fire. *)
Lemma app_passes_end (rules : list (rule F)) (fuel : nat) :
  forall st : state F,
    app_invariant rules st ->
    List.length rules - List.length (trace st) < fuel ->
    passes fuel rules st <> None.
Proof.
  induction fuel as [|fuel IH]; intros st Hinv Hlt; [lia|]. simpl.
  destruct (fire_rules rules (reset_fired st)) as [st1|e] eqn:E; [|discriminate].
  destruct (rules_fired st1) eqn:Hf; [|discriminate].
  assert (Hinv1 : app_invariant rules st1).
  { apply (app_invariant_fire_rules (all := rules) (rules := rules) (st := reset_fired st));
      [apply incl_refl | exact Hinv | exact E]. }
  destruct (app_fire_rules_grows _ _ E) as [_ Hgrow].
  destruct (Hgrow Hf) as [Habs|Hlen]; [discriminate|]. simpl in Hlen.
  pose proof (app_trace_bounded Hinv1).
  apply IH; [assumption | lia].
Qed.

Lemma fst_unique {A B : Type} (L : list (A * B)) (a b : A * B) :
  NoDup (map fst L) -> In a L -> In b L -> fst a = fst b -> a = b.
Proof.
  induction L as [|x L IH]; simpl; [tauto|].
  intros Hnd [->|Ha] [->|Hb] Heq; inversion Hnd as [|? ? Hnin Hnd']; subst.
  - reflexivity.
  - exfalso. apply Hnin. rewrite Heq. now apply in_map.
  - exfalso. apply Hnin. rewrite <- Heq. now apply in_map.
  - auto.
Qed.

Lemma NoDup_fst_incl {A B : Type} (l L : list (A * B)) :
  NoDup l -> incl l L -> NoDup (map fst L) -> NoDup (map fst l).
Proof.
  intros Hnd Hincl HL. induction Hnd as [|a l Hnin Hnd IH]; simpl; [constructor|].
  constructor.
  - intros Hin. apply in_map_iff in Hin. destruct Hin as (b & Hfst & Hb).
    assert (b = a).
    { apply (fst_unique L); auto; apply Hincl; [now right | now left]. }
    subst b. contradiction.
  - apply IH. intros x Hx. apply Hincl. now right.
Qed.

(** With rule ids that are unique, no rule id has two trace records. *)
Lemma app_trace_ids_NoDup (rules : list (rule F)) (st : state F) :
  NoDup (map (@r_id F) rules) -> app_invariant rules st ->
  NoDup (map (@t_rule_id F) (trace st)).
Proof.
  intros Hids (_ & Hincl & Hnd).
  replace (map (@t_rule_id F) (trace st)) with (map fst (map trace_key (trace st)))
    by (rewrite map_map; reflexivity).
  apply NoDup_fst_incl with (L := map rule_key rules); try assumption.
  rewrite map_map. exact Hids.
Qed.

Lemma app_initial_invariant (kb : knowledge_base F) (facts : list (string * F)) :
  app_invariant (kb_rules kb) (initial_state kb facts).
Proof.
  unfold app_invariant. simpl. repeat split.
  - intros t [].
  - intros k [].
  - constructor.
Qed.

Lemma app_passes_invariant (rules : list (rule F)) (fuel : nat) :
  forall st st' : state F,
    app_invariant rules st -> passes fuel rules st = Some (Ok st') ->
    app_invariant rules st'.
Proof.
  induction fuel as [|fuel IH]; intros st st' Hinv; simpl; [discriminate|].
  destruct (fire_rules rules (reset_fired st)) as [st1|e] eqn:E; [|discriminate].
  assert (Hinv1 : app_invariant rules st1).
  { apply (app_invariant_fire_rules (all := rules) (rules := rules) (st := reset_fired st));
      [apply incl_refl | exact Hinv | exact E]. }
  destruct (rules_fired st1); [now apply IH | now intros [= <-]].
Qed.

(** C9 (as amended). In [ExpertSystem.forward_chaining], a rule whose id is
    in the trace and whose conclusion is in the fact store is passed over,
    whatever its antecedents are worth now; every state the loop reaches
    keeps the conclusions of the fired rules in the fact store and has no two
    trace records with the same rule id and conclusion, so that each rule
    fires at most once; and, when the rule ids of the knowledge base are
    pairwise distinct, a returned trace has at most one record per rule
    id. *)
Theorem app_each_rule_fires_once (kb : knowledge_base F)
        (facts : list (string * F)) :
  (forall st r,
      reachable (kb_rules kb) (initial_state kb facts) st ->
      dict_mem (r_then r) (cf_facts st) = true ->
      in_trace (r_id r) (trace st) = true ->
      fire_rule st r = Ok st) /\
  (forall st,
      reachable (kb_rules kb) (initial_state kb facts) st ->
      (forall t, In t (trace st) -> dict_mem (t_then t) (cf_facts st) = true) /\
      NoDup (map trace_key (trace st)) /\
      List.length (trace st) <= List.length (kb_rules kb)) /\
  (NoDup (map (@r_id F) (kb_rules kb)) ->
   forall fuel cf tr,
     forward_chaining fuel kb facts = Some (Ok (cf, tr)) ->
     NoDup (map (@t_rule_id F) tr)).
Proof.
  split; [|split].
  - intros st r _. apply app_fire_rule_skip.
  - intros st Hr.
    pose proof (app_invariant_reachable Hr (app_initial_invariant kb facts)) as Hinv.
    split; [apply Hinv|]. split; [apply Hinv | now apply app_trace_bounded].
  - intros Hids fuel cf tr. unfold forward_chaining.
    destruct (passes fuel (kb_rules kb) (initial_state kb facts)) as [[st|e]|] eqn:E;
      try discriminate.
    intros [= <- <-].
    pose proof (@app_passes_invariant (kb_rules kb) fuel _ _
                  (app_initial_invariant kb facts) E) as Hinv.
    now apply app_trace_ids_NoDup with (rules := kb_rules kb).
Qed.

(** The loop of [app.py] always ends, by returning or by raising, within one
    pass more than the knowledge base has rules. *)
Lemma app_forward_chaining_ends (kb : knowledge_base F) (facts : list (string * F)) :
  forward_chaining (S (List.length (kb_rules kb))) kb facts <> None.
Proof.
  unfold forward_chaining.
  destruct (passes (S (List.length (kb_rules kb))) (kb_rules kb) (initial_state kb facts))
    as [[st|e]|] eqn:E; try discriminate.
  exfalso. revert E. apply app_passes_end.
  - apply app_initial_invariant.
  - simpl. lia.
Qed.

(** Where [app.py] differs from [engine.py]: a rule without antecedents that
    is not passed over makes [min] raise on the empty list. *)
Lemma app_empty_antecedents_raise (st : state F) (r : rule F) :
  r_if r = [] ->
  dict_mem (r_then r) (cf_facts st) && in_trace (r_id r) (trace st) = false ->
  fire_rule st r = Raise ValueError.
Proof. intros Hnil Hskip. unfold fire_rule. rewrite Hskip, Hnil. reflexivity. Qed.
End AppFacts.

(** ** [combine_cf]: branches, guard, symmetry *)

Section CombineGeneric.
Context {F : Type} `{PyFloat F}.
Import Engine.

(** The three branches and the guard, on any floats. *)
Lemma combine_cf_nonneg (a b : F) :
  fleb fzero a = true -> fleb fzero b = true ->
  combine_cf a b = Ok (fadd a (fmul b (fsub fone a))).
Proof. intros Ha Hb. unfold combine_cf. now rewrite Ha, Hb. Qed.

Lemma combine_cf_nonpos (a b : F) :
  fleb fzero a && fleb fzero b = false ->
  fleb a fzero = true -> fleb b fzero = true ->
  combine_cf a b = Ok (fadd a (fmul b (fadd fone a))).
Proof. intros Hn Ha Hb. unfold combine_cf. now rewrite Hn, Ha, Hb. Qed.

Lemma combine_cf_mixed (a b : F) :
  fleb fzero a && fleb fzero b = false ->
  fleb a fzero && fleb b fzero = false ->
  feqb (fsub fone (py_min (fabs a) (fabs b))) fzero = false ->
  combine_cf a b = py_div (fadd a b) (fsub fone (py_min (fabs a) (fabs b))) /\
  combine_cf a b = Ok (fquot (fadd a b) (fsub fone (py_min (fabs a) (fabs b)))).
Proof.
  intros Hn Hp Hd. unfold combine_cf, py_div. now rewrite Hn, Hp, Hd.
Qed.

Lemma combine_cf_guard (a b : F) :
  fleb fzero a && fleb fzero b = false ->
  fleb a fzero && fleb b fzero = false ->
  feqb (fsub fone (py_min (fabs a) (fabs b))) fzero = true ->
  combine_cf a b = Ok fzero.
Proof. intros Hn Hp Hd. unfold combine_cf. now rewrite Hn, Hp, Hd. Qed.
End CombineGeneric.

Section CombineExact.
Import Engine.
Local Open Scope Q_scope.

Lemma exact_min_abs_comm (a b : Exact.t) :
  py_min (fabs a) (fabs b) = py_min (fabs b) (fabs a).
Proof.
  unfold py_min. cbn [fltb fabs exact].
  destruct (Qle_bool (Qred (Qabs a)) (Qred (Qabs b))) eqn:E1,
           (Qle_bool (Qred (Qabs b)) (Qred (Qabs a))) eqn:E2; simpl; try reflexivity.
  - apply Qle_bool_iff in E1, E2. rewrite !Qred_correct in E1, E2.
    apply Qred_complete. now apply Qle_antisym.
  - exfalso.
    assert (H1 : ~ Qred (Qabs a) <= Qred (Qabs b))
      by (rewrite <- Qle_bool_iff; congruence).
    assert (H2 : ~ Qred (Qabs b) <= Qred (Qabs a))
      by (rewrite <- Qle_bool_iff; congruence).
    apply Qnot_le_lt in H1. apply H2. now apply Qlt_le_weak.
Qed.

(** On exact rationals the combination does not depend on the order of its
    arguments. *)
Lemma exact_combine_cf_comm (a b : Exact.t) :
  combine_cf a b = combine_cf b a.
Proof.
  unfold combine_cf, py_div. rewrite (exact_min_abs_comm a b).
  assert (Hadd : fadd a b = fadd b a).
  { cbn [fadd exact]. apply Qred_complete. ring. }
  rewrite Hadd.
  rewrite (andb_comm (fleb fzero a)), (andb_comm (fleb a fzero)).
  destruct (fleb fzero b && fleb fzero a).
  - f_equal. cbn [fadd fmul fsub fone exact]. apply Qred_complete.
    rewrite !Qred_correct. ring.
  - destruct (fleb b fzero && fleb a fzero); [|reflexivity].
    f_equal. cbn [fadd fmul fsub fone exact]. apply Qred_complete.
    rewrite !Qred_correct. ring.
Qed.
End CombineExact.

(** ** binary64: order, and when [1 - x] is zero *)

Section B64Order.
Local Open Scope Z_scope.

Lemma one_repr : B64.one = S754_finite false 4503599627370496 (-52).
Proof. vm_compute. reflexivity. Qed.

Lemma SFcompare_antisym (x y : B64.t) :
  SFcompare y x = option_map CompOpp (SFcompare x y).
Proof.
  destruct x as [sx|sx| |sx mx ex], y as [sy|sy| |sy my ey]; simpl;
    try reflexivity; try (destruct sx; reflexivity); try (destruct sy; reflexivity);
    try (destruct sx, sy; reflexivity).
  pose proof (Pos.compare_cont_antisym mx my Eq) as Hm. simpl in Hm.
  destruct sx, sy; simpl; try reflexivity.
  - rewrite (Z.compare_antisym ex ey).
    destruct (ex ?= ey); simpl; try reflexivity.
    now rewrite <- Hm, CompOpp_involutive.
  - rewrite (Z.compare_antisym ex ey).
    destruct (ex ?= ey); simpl; try reflexivity.
    now rewrite <- Hm.
Qed.

Lemma SFltb_false_SFleb (x y : B64.t) :
  B64.is_nan x = false -> B64.is_nan y = false ->
  SFltb x y = false -> SFleb y x = true.
Proof.
  unfold SFltb, SFleb. rewrite (SFcompare_antisym x y). intros Hx Hy.
  destruct (SFcompare x y) as [[]|] eqn:E; simpl;
    try reflexivity; try discriminate.
  intros _. exfalso.
  destruct x as [sx|sx| |sx mx ex], y as [sy|sy| |sy my ey];
    simpl in *; discriminate.
Qed.

Lemma SFleb_SFltb_false (x y : B64.t) :
  SFleb x y = true -> SFltb y x = false.
Proof.
  unfold SFltb, SFleb. rewrite (SFcompare_antisym x y).
  destruct (SFcompare x y) as [[]|]; simpl; congruence.
Qed.

(** Equal non-negative representations compare equal only when they are the
    same. *)
Lemma SFeqb_abs_eq (x : B64.t) (m : positive) (e : Z) :
  SFeqb (SFabs x) (S754_finite false m e) = true ->
  SFabs x = S754_finite false m e.
Proof.
  unfold SFeqb. destruct x as [s|s| |s mx ex]; simpl; try discriminate.
  destruct (ex ?= e) eqn:Ee; try discriminate.
  destruct (Pos.compare_cont Eq mx m) eqn:Em; try discriminate.
  intros _. apply Z.compare_eq in Ee. apply Pos.compare_eq in Em. now subst.
Qed.

Lemma iter_xO_pow (m d : positive) :
  Zpos (Pos.iter xO m d) = Zpos m * 2 ^ Zpos d.
Proof.
  induction d as [|d IH] using Pos.peano_ind.
  - simpl. rewrite (Pos2Z.inj_xO m). lia.
  - rewrite Pos.iter_succ, (Pos2Z.inj_xO (Pos.iter xO m d)), IH, Pos2Z.inj_succ.
    rewrite Z.pow_succ_r by lia. lia.
Qed.

Lemma shl_align_value (mx : positive) (ex ez : Z) :
  ez <= ex -> Zpos (fst (shl_align mx ex ez)) = Zpos mx * 2 ^ (ex - ez).
Proof.
  intros Hle. unfold shl_align.
  destruct (ez - ex) as [|d|d] eqn:Ed; simpl.
  - replace (ex - ez) with 0 by lia. simpl. lia.
  - lia.
  - rewrite <- Pos2Z.opp_pos in Ed.
    replace (ex - ez) with (Zpos d) by lia. apply iter_xO_pow.
Qed.

(** A sum of aligned mantissas that is not zero does not round to zero. *)
Lemma binary_normalize_nonzero (z ez : Z) :
  z <> 0 -> emin B64.prec B64.emax <= ez ->
  SFeqb (binary_normalize B64.prec B64.emax z ez false) B64.zero = false.
Proof.
  intros Hz Hez.
  assert (Hround : forall s p,
             SFeqb (binary_round B64.prec B64.emax s p ez) B64.zero = false).
  { intros s p. unfold binary_round.
    destruct (shl_align p ez (fexp B64.prec B64.emax (Zpos (digits2_pos p) + ez)))
      as [mz ez'] eqn:Es.
    assert (Hez' : emin B64.prec B64.emax <= ez').
    { unfold shl_align in Es.
      destruct (fexp B64.prec B64.emax (Zpos (digits2_pos p) + ez) - ez);
        injection Es as <- <-; try assumption.
      unfold fexp. lia. }
    destruct (binary_round_aux_positive s loc_Exact (Pos2Z.is_pos mz) Hez')
      as [(m & e & -> & _)| ->]; now destruct s. }
  destruct z as [|p|p]; [congruence| |]; simpl; apply Hround.
Qed.

(** For a valid binary64 [x], [1 - x] is a zero only when [x] is 1.0. *)
Lemma sub_one_zero (x : B64.t) :
  valid_binary B64.prec B64.emax x = true ->
  SFeqb (SFsub B64.prec B64.emax B64.one x) B64.zero = true ->
  x = B64.one.
Proof.
  rewrite one_repr. destruct x as [s|s| |s m e].
  - destruct s; vm_compute; discriminate.
  - destruct s; vm_compute; discriminate.
  - vm_compute; discriminate.
  - intros Hvalid. unfold SFsub.
    set (ez := Z.min (-52) e).
    set (z := cond_Zopp false (Zpos (fst (shl_align 4503599627370496 (-52) ez))) -
              cond_Zopp s (Zpos (fst (shl_align m e ez)))).
    simpl in Hvalid. unfold bounded, canonical_mantissa in Hvalid.
    apply andb_true_iff in Hvalid. destruct Hvalid as [Hcan Hmax].
    apply Z.eqb_eq in Hcan. apply Z.leb_le in Hmax.
    unfold fexp, emin, B64.prec, B64.emax in Hcan, Hmax.
    assert (Hemin : emin B64.prec B64.emax <= ez).
    { unfold ez, emin, B64.prec, B64.emax. lia. }
    destruct (Z.eq_dec z 0) as [Hz|Hz].
    + intros _. unfold z in Hz.
      rewrite (shl_align_value 4503599627370496 (ex := -52) (ez := ez)) in Hz by (unfold ez; lia).
      rewrite (shl_align_value m (ex := e) (ez := ez)) in Hz by (unfold ez; lia).
      pose proof (digits2_pos_lower m) as Hlo.
      pose proof (digits2_pos_upper m) as Hup.
      destruct s; cbv [cond_Zopp] in Hz.
      * exfalso.
        assert (0 < 4503599627370496 * 2 ^ (-52 - ez)) by (apply Z.mul_pos_pos; [lia | apply Z.pow_pos_nonneg; unfold ez; lia]).
        assert (0 < Zpos m * 2 ^ (e - ez)) by (apply Z.mul_pos_pos; [lia | apply Z.pow_pos_nonneg; unfold ez; lia]).
        lia.
      * destruct (Z_le_gt_dec e (-52)) as [Hle|Hgt].
        -- replace ez with e in Hz by (unfold ez; lia).
           rewrite Z.sub_diag in Hz. simpl (2 ^ 0) in Hz.
           assert (Hm : Zpos m = 2 ^ 52 * 2 ^ (-52 - e)) by (change (2 ^ 52) with 4503599627370496; lia).
           rewrite <- Z.pow_add_r in Hm by lia.
           assert (Hd : Zpos (digits2_pos m) <= 53) by lia.
           assert (Hlt : 2 ^ (52 + (-52 - e)) < 2 ^ 53).
           { rewrite <- Hm. eapply Z.lt_le_trans; [exact Hup|].
             apply Z.pow_le_mono_r; lia. }
           apply Z.pow_lt_mono_r_iff in Hlt; try lia.
           assert (e = -52) by lia. subst e.
           simpl in Hm. injection Hm as ->. reflexivity.
        -- exfalso. replace ez with (-52) in Hz by (unfold ez; lia).
           rewrite Z.sub_diag in Hz. simpl (2 ^ 0) in Hz.
           assert (Hd : Zpos (digits2_pos m) = 53) by lia.
           rewrite Hd in Hlo. change (2 ^ (53 - 1)) with 4503599627370496 in Hlo.
           assert (2 <= 2 ^ (e - -52)).
           { change 2 with (2 ^ 1) at 1. apply Z.pow_le_mono_r; lia. }
           nia.
    + intros Hzero. exfalso.
      pose proof (binary_normalize_nonzero Hz Hemin) as Hnz.
      fold z in Hzero. congruence.
Qed.
End B64Order.

(** ** binary64: [combine_cf] on concrete and on unit-range arguments *)

Section B64Combine.
Import Engine Examples.

Lemma SFadd_comm (x y : B64.t) :
  SFadd B64.prec B64.emax x y = SFadd B64.prec B64.emax y x.
Proof.
  destruct x as [sx|sx| |sx mx ex], y as [sy|sy| |sy my ey];
    try reflexivity; try (destruct sx, sy; reflexivity).
  unfold SFadd. rewrite (Z.min_comm ey ex). f_equal. apply Z.add_comm.
Qed.

Lemma SFcompare_abs_eq (a b : B64.t) :
  SFcompare (SFabs a) (SFabs b) = Some Eq -> SFabs a = SFabs b.
Proof.
  destruct a as [sa|sa| |sa ma ea], b as [sb|sb| |sb mb eb]; simpl;
    try discriminate; try reflexivity.
  destruct (Z.compare_spec ea eb); try discriminate.
  destruct (Pos.compare_cont Eq ma mb) eqn:Em; try discriminate.
  intros _. apply Pos.compare_eq in Em. now subst.
Qed.

Lemma b64_min_abs_comm (a b : B64.t) :
  B64.is_nan a = false -> B64.is_nan b = false ->
  py_min (F := B64.t) (fabs a) (fabs b) = py_min (F := B64.t) (fabs b) (fabs a).
Proof.
  intros Ha Hb. unfold py_min. cbn [fltb fabs binary64]. unfold SFltb.
  rewrite (SFcompare_antisym (SFabs a) (SFabs b)).
  destruct (SFcompare (SFabs a) (SFabs b)) as [[]|] eqn:E; simpl; try reflexivity.
  - now apply SFcompare_abs_eq.
  - destruct a, b; simpl in *; discriminate.
Qed.

(** In the third branch, zero guard included, binary64 arguments that are not
    NaN can be swapped. *)
Lemma b64_combine_cf_mixed_comm (a b : B64.t) :
  B64.is_nan a = false -> B64.is_nan b = false ->
  fleb fzero a && fleb fzero b = false ->
  fleb a fzero && fleb b fzero = false ->
  combine_cf a b = combine_cf b a.
Proof.
  intros Ha Hb Hn Hp. unfold combine_cf, py_div.
  rewrite (andb_comm (fleb fzero b)), (andb_comm (fleb b fzero)), Hn, Hp.
  rewrite (b64_min_abs_comm a b Ha Hb).
  cbn [fadd binary64]. now rewrite (SFadd_comm a b).
Qed.

(** Within the unit range, the denominator of the third branch is zero only
    at [|a| = |b| = 1]. *)
Lemma b64_zero_denominator_unit (a b : B64.t) :
  valid_binary B64.prec B64.emax a = true ->
  valid_binary B64.prec B64.emax b = true ->
  fleb (fabs a) fone = true -> fleb (fabs b) fone = true ->
  feqb (fsub fone (py_min (fabs a) (fabs b))) fzero = true ->
  SFabs a = B64.one /\ SFabs b = B64.one.
Proof.
  cbn [fleb fabs fone feqb fsub fzero binary64].
  intros Hva Hvb Hra Hrb Hden.
  assert (Hvalid : forall x, valid_binary B64.prec B64.emax x = true ->
                             valid_binary B64.prec B64.emax (SFabs x) = true)
    by (intros [| | |]; auto).
  assert (Hmin : py_min (F := B64.t) (SFabs a) (SFabs b) = B64.one).
  { apply sub_one_zero; [|exact Hden].
    unfold py_min. cbn [fltb binary64].
    destruct (SFltb (SFabs b) (SFabs a)); auto. }
  assert (Heq : forall x, SFleb (SFabs x) B64.one = true ->
                          SFltb (SFabs x) B64.one = false -> SFabs x = B64.one).
  { intros x Hle Hlt. rewrite one_repr in *. apply SFeqb_abs_eq.
    unfold SFeqb, SFleb, SFltb in *.
    destruct (SFcompare (SFabs x) _) as [[]|]; congruence. }
  unfold py_min in Hmin. cbn [fltb binary64] in Hmin.
  destruct (SFltb (SFabs b) (SFabs a)) eqn:Elt.
  - rewrite Hmin in Elt. apply SFleb_SFltb_false in Hra. congruence.
  - rewrite Hmin in Elt. split; [exact Hmin|]. now apply Heq.
Qed.

(** C1 (counterexample). [combine_cf(0.6, -0.4)] is not the float
    [0.2 / 0.6], because the sum [0.6 + -0.4] is not the float [0.2]; and at
    [(1.0, -1.0)] the third formula divides by zero, where [combine_cf] gives
    0.0. *)
Lemma combine_cf_mixed_example_differs :
  combine_cf (lit 6 10) (neg 4 10) <> Ok (fquot (lit 2 10) (lit 6 10)) /\
  fadd (lit 6 10) (neg 4 10) <> lit 2 10 /\
  py_div (fadd (lit 1 1) (neg 1 1))
         (fsub fone (py_min (fabs (lit 1 1)) (fabs (neg 1 1))))
    = Raise ZeroDivisionError /\
  combine_cf (lit 1 1) (neg 1 1) = Ok B64.zero.
Proof. vm_compute. repeat split; discriminate. Qed.

(** Where [app.py] differs from [engine.py]: [ExpertSystem.combine_cf] has no
    guard and raises at [(1.0, -1.0)]. *)
Lemma app_combine_cf_unguarded :
  App.combine_cf (lit 1 1) (neg 1 1) = Raise ZeroDivisionError.
Proof. vm_compute. reflexivity. Qed.

(** C1 (as amended). [combine_cf] has three branches split by sign, zero
    counting as non-negative: both arguments [>= 0] give [a + b*(1-a)];
    otherwise both [<= 0] give [a + b*(1+a)]; otherwise, when the
    denominator [1 - min(|a|,|b|)] is not zero, the result is
    [(a+b) / (1 - min(|a|,|b|))].  On binary64, [combine_cf(0.6, 0.4)] is
    [0.76], [combine_cf(-0.6, -0.4)] is [-0.76], and [combine_cf(0.6, -0.4)]
    is [(0.6 + -0.4) / (1 - 0.4)], which rounds to [0.3333] at four decimals;
    on exact rationals it is [0.2 / 0.6]. *)
Theorem combine_cf_three_branches :
  (forall (F : Type) (inst : PyFloat F) (a b : F),
      (fleb fzero a = true -> fleb fzero b = true ->
       combine_cf a b = Ok (fadd a (fmul b (fsub fone a)))) /\
      (fleb fzero a && fleb fzero b = false ->
       fleb a fzero = true -> fleb b fzero = true ->
       combine_cf a b = Ok (fadd a (fmul b (fadd fone a)))) /\
      (fleb fzero a && fleb fzero b = false ->
       fleb a fzero && fleb b fzero = false ->
       feqb (fsub fone (py_min (fabs a) (fabs b))) fzero = false ->
       combine_cf a b = py_div (fadd a b) (fsub fone (py_min (fabs a) (fabs b))) /\
       combine_cf a b = Ok (fquot (fadd a b) (fsub fone (py_min (fabs a) (fabs b)))))) /\
  combine_cf (lit 6 10) (lit 4 10) = Ok (lit 76 100) /\
  combine_cf (neg 6 10) (neg 4 10) = Ok (neg 76 100) /\
  combine_cf (lit 6 10) (neg 4 10) =
    Ok (fquot (fadd (lit 6 10) (neg 4 10)) (fsub fone (lit 4 10))) /\
  B64.round4 (fquot (fadd (lit 6 10) (neg 4 10)) (fsub fone (lit 4 10))) = lit 3333 10000 /\
  combine_cf (F := Exact.t) (6 # 10)%Q (- (4 # 10))%Q =
    Ok (fquot (F := Exact.t) (2 # 10)%Q (6 # 10)%Q).
Proof.
  split; [|repeat split; vm_compute; reflexivity].
  intros F inst a b. split; [|split].
  - apply combine_cf_nonneg.
  - apply combine_cf_nonpos.
  - apply combine_cf_mixed.
Qed.

(** Outside the unit range the denominator of the third branch is zero at
    other arguments too: at [a = 1.0], [b = -2.0] it is, and [|b|] is not 1. *)
Lemma zero_denominator_beyond_unit :
  ~ (forall a b : B64.t,
        fleb fzero a && fleb fzero b = false ->
        fleb a fzero && fleb b fzero = false ->
        feqb (fsub fone (py_min (fabs a) (fabs b))) fzero = true ->
        feqb (fabs a) fone = true /\ feqb (fabs b) fone = true).
Proof.
  intros Hall.
  destruct (Hall (lit 1 1) (neg 2 1)) as [_ Hb]; try (vm_compute; reflexivity).
  vm_compute in Hb. discriminate.
Qed.

(** The third branch of [ExpertSystem.combine_cf] with a denominator that is
    zero. *)
Lemma app_combine_cf_zero_denominator {F : Type} `{PyFloat F} (a b : F) :
  fleb fzero a && fleb fzero b = false ->
  fltb a fzero && fltb b fzero = false ->
  feqb (fsub fone (py_min (fabs a) (fabs b))) fzero = true ->
  App.combine_cf a b = Raise ZeroDivisionError.
Proof.
  intros Hn Hp Hden. unfold App.combine_cf, py_div. now rewrite Hn, Hp, Hden.
Qed.

(** C2. In the third branch of [combine_cf] of [engine.py], a denominator
    [1 - min(|a|,|b|)] that is exactly zero gives 0.0; that [combine_cf]
    raises on no arguments; [combine_cf(1.0, -1.0)] is 0.0; and for binary64
    arguments in [[-1, 1]] the denominator is zero only at [|a| = |b| = 1],
    which in the third branch means opposite signs.
    [ExpertSystem.combine_cf] of [app.py] has no such test: in its third
    branch a zero denominator raises ZeroDivisionError.  It does at
    [(1.0, -1.0)], and with the rules R: A -> D (1.0) and R2: B -> D (-1.0)
    and A and B asserted at 1.0 the exception comes out of
    [ExpertSystem.forward_chaining], where [forward_chaining] of [engine.py]
    returns D at 0.0. *)
Theorem combine_cf_zero_denominator :
  (forall (F : Type) (inst : PyFloat F) (a b : F),
      fleb fzero a && fleb fzero b = false ->
      fleb a fzero && fleb b fzero = false ->
      feqb (fsub fone (py_min (fabs a) (fabs b))) fzero = true ->
      combine_cf a b = Ok fzero) /\
  (forall (F : Type) (inst : PyFloat F) (a b : F), exists v, combine_cf a b = Ok v) /\
  combine_cf (lit 1 1) (neg 1 1) = Ok B64.zero /\
  (forall a b : B64.t,
      valid_binary B64.prec B64.emax a = true ->
      valid_binary B64.prec B64.emax b = true ->
      fleb (fabs a) fone = true -> fleb (fabs b) fone = true ->
      fleb fzero a && fleb fzero b = false ->
      fleb a fzero && fleb b fzero = false ->
      feqb (fsub fone (py_min (fabs a) (fabs b))) fzero = true ->
      (a = B64.one /\ b = SFopp B64.one) \/ (a = SFopp B64.one /\ b = B64.one)) /\
  (forall (F : Type) (inst : PyFloat F) (a b : F),
      fleb fzero a && fleb fzero b = false ->
      fltb a fzero && fltb b fzero = false ->
      feqb (fsub fone (py_min (fabs a) (fabs b))) fzero = true ->
      App.combine_cf a b = Raise ZeroDivisionError) /\
  App.combine_cf (lit 1 1) (neg 1 1) = Raise ZeroDivisionError /\
  App.combine_cf (neg 1 1) (lit 1 1) = Raise ZeroDivisionError /\
  App.forward_chaining 1 kb_inf facts_unit_app = Some (Raise ZeroDivisionError) /\
  (exists tr,
      forward_chaining 3 kb_inf facts_unit =
      Some (Ok ([("A"%string, lit 1 1); ("B"%string, lit 1 1);
                 ("D"%string, B64.zero)], tr))).
Proof.
  split; [|split; [|split; [|split; [|split]]]].
  - intros F inst a b. apply combine_cf_guard.
  - intros F inst a b. apply combine_cf_total.
  - vm_compute. reflexivity.
  - intros a b Hva Hvb Hra Hrb Hn Hp Hden.
    destruct (b64_zero_denominator_unit a b Hva Hvb Hra Hrb Hden) as [Ha Hb].
    rewrite one_repr in *.
    destruct a as [sa|sa| |sa ma ea]; try discriminate.
    destruct b as [sb|sb| |sb mb eb]; try discriminate.
    simpl in Ha, Hb. injection Ha as -> ->. injection Hb as -> ->.
    destruct sa, sb; try (vm_compute in Hn; discriminate);
      try (vm_compute in Hp; discriminate); [right|left]; split; reflexivity.
  - intros F inst a b. apply app_combine_cf_zero_denominator.
  - repeat split; try (vm_compute; reflexivity).
    eexists. vm_compute. reflexivity.
Qed.

(** C10 (counterexample). [combine_cf(0.5, 0.3)] is [0.65] and
    [combine_cf(0.3, 0.5)] is [0.6499999999999999]. *)
Lemma combine_cf_not_commutative :
  combine_cf (lit 5 10) (lit 3 10) <> combine_cf (lit 3 10) (lit 5 10).
Proof. vm_compute. discriminate. Qed.

(** C10 (as amended). On exact rationals [combine_cf(a, b)] is
    [combine_cf(b, a)] for all [a] and [b]; on binary64 the third branch,
    zero guard included, is symmetric for arguments that are not NaN, and
    the two same-sign branches are symmetric up to rounding only. *)
Theorem combine_cf_commutative_exact :
  (forall a b : Exact.t, combine_cf a b = combine_cf b a) /\
  (forall a b : B64.t,
      B64.is_nan a = false -> B64.is_nan b = false ->
      fleb fzero a && fleb fzero b = false ->
      fleb a fzero && fleb b fzero = false ->
      combine_cf a b = combine_cf b a).
Proof.
  split.
  - apply exact_combine_cf_comm.
  - apply b64_combine_cf_mixed_comm.
Qed.
End B64Combine.

(** ** binary64: the loop on concrete knowledge bases *)

Section B64Engine.
Import Engine Examples.

(** The end-to-end example: G02 is 1.0, D1 is 0.8, and the trace has one
    record, for R1, from 0.0 to 0.8. *)
Lemma forward_chaining_g02 :
  exists t,
    forward_chaining 2 kb_g02 facts_g02 =
      Some (Ok ([("G02"%string, lit 1 1); ("D1"%string, lit 8 10)], [t])) /\
    t_rule_id t = "R1"%string /\ t_old_cf t = B64.zero /\ t_new_cf t = lit 8 10.
Proof. eexists. vm_compute. repeat split. Qed.

(** A finite binary64 is less than [1e-9] away from itself. *)
Lemma finite_unchanged (c : B64.t) :
  B64.is_finite c = true -> fltb (fabs (fsub c c)) feps9 = true.
Proof.
  destruct c as [s|s| |s m e]; try discriminate; intros _.
  - destruct s; vm_compute; reflexivity.
  - cbn [fltb fabs fsub feps9 binary64]. unfold SFsub.
    rewrite Z.sub_diag. vm_compute. reflexivity.
Qed.

(** A rule of [app.py] that has a record in the trace is passed over. *)
Lemma app_fired_rule_skipped (kb : knowledge_base B64.t) (facts : list (string * B64.t))
      (st : App.state B64.t) (r : rule B64.t) (t : App.trace_item B64.t) :
  App.reachable (kb_rules kb) (App.initial_state kb facts) st ->
  In t (App.trace st) -> App.trace_key t = App.rule_key r ->
  App.fire_rule st r = Ok st.
Proof.
  intros Hr Hin Hkey.
  pose proof (app_invariant_reachable Hr (app_initial_invariant kb facts)) as Hinv.
  destruct Hinv as (Hmem & _ & _).
  unfold App.trace_key, App.rule_key in Hkey. injection Hkey as Hid Hthen.
  apply app_fire_rule_skip.
  - rewrite <- Hthen. now apply Hmem.
  - apply in_trace_In. now exists t.
Qed.

(** C4. What the guard of [engine.py] against firing a rule again does, and
    the two inputs on which it does not keep a rule with an unchanged
    antecedent CF to one record.
    In every state the loop reaches, a rule whose antecedents are all
    present and whose antecedent CF is less than [1e-9] away from the one
    recorded when its id last fired is skipped: the state is left as it is.
    In every returned trace, no record is less than [1e-9] away from the
    previous record of the same rule id; hence a rule id whose records all
    carry one finite antecedent CF has one record at most.
    With A asserted at infinity and the rules R: A -> D (1.0) and
    R2: B -> D (-1.0), the trace is R, R2, R: the rule R commits twice with
    the antecedent CF infinity both times, because infinity is not less
    than [1e-9] away from itself.
    With two rules under the id R, A -> D and B -> D, and A at 0.5 and B at
    0.25, the memo of R holds in turn the antecedent CF of the one and of the
    other: the rule A -> D commits 13 times with the antecedent CF 0.5 each
    time, the trace has 25 records, and D ends at 1.0.
    In [app.py] a rule that has a record in the trace is passed over in every
    state, and on the two rules under the id R the trace of
    [ExpertSystem.forward_chaining] has one record. *)
Theorem anti_oscillation_guard :
  (forall (kb : knowledge_base B64.t) input_facts st r cfs c,
      reachable (kb_rules kb) (initial_state kb input_facts) st ->
      antecedent_lookup (cf_facts st) (r_if r) [] = (cfs, false) ->
      py_min_list cfs = Ok c ->
      unchanged_since_applied (memo_of (fired_trace st)) (r_id r) c = true ->
      fire_rule st r = Ok st) /\
  (forall fuel (kb : knowledge_base B64.t) input_facts facts tr,
      forward_chaining fuel kb input_facts = Some (Ok (facts, tr)) ->
      spaced tr /\
      forall rid c,
        B64.is_finite c = true ->
        (forall t, In t tr -> t_rule_id t = rid -> t_cf_antecedent t = c) ->
        List.length (fired_by rid tr) <= 1) /\
  (exists facts tr,
      forward_chaining 5 kb_inf facts_inf = Some (Ok (facts, tr)) /\
      map (fun t => (t_rule_id t, t_if t, t_cf_antecedent t)) tr =
        [("R"%string, ["A"%string], S754_infinity false);
         ("R2"%string, ["B"%string], lit 1 1);
         ("R"%string, ["A"%string], S754_infinity false)] /\
      List.length (fired_by "R" tr) = 2) /\
  unchanged_since_applied [("R"%string, S754_infinity false)] "R"
                          (S754_infinity false) = false /\
  (forward_chaining 26 kb_shared_id facts_shared_id = Some (Ok result_shared_id) /\
   map (fun t => (t_rule_id t, t_if t, t_cf_antecedent t)) (snd result_shared_id) =
     ("R"%string, ["A"%string], lit 5 10) ::
     List.concat (List.repeat [("R"%string, ["B"%string], lit 25 100);
                                  ("R"%string, ["A"%string], lit 5 10)] 12) /\
   List.length (snd result_shared_id) = 25 /\
   dict_get "D" (fst result_shared_id) = Some (lit 1 1)) /\
  (forall (kb : knowledge_base B64.t) facts st r t,
      App.reachable (kb_rules kb) (App.initial_state kb facts) st ->
      In t (App.trace st) -> App.trace_key t = App.rule_key r ->
      App.fire_rule st r = Ok st) /\
  (exists cf t,
      App.forward_chaining 2 kb_shared_id facts_shared_id_app = Some (Ok (cf, [t])) /\
      App.t_rule_id t = "R"%string /\ App.t_if t = ["A"%string]).
Proof.
  split; [|split; [|split; [|split; [|split; [|split]]]]].
  - intros kb input_facts st r cfs c Hr Hl Hm Hu.
    destruct (memo_invariant Hr) as [Hmemo _]; [reflexivity | constructor |].
    apply fire_rule_guard with (cfs := cfs) (c := c); try assumption.
    now rewrite Hmemo.
  - intros fuel kb input_facts facts tr Hrun.
    destruct (forward_chaining_final _ _ _ Hrun) as (st & Hr & _ & ->).
    destruct (memo_invariant Hr) as [_ Hsp]; [reflexivity | constructor |].
    split; [exact Hsp|].
    intros rid c Hfin Hall.
    apply spaced_once with (c := c); try assumption.
    now apply finite_unchanged.
  - do 2 eexists. vm_compute. repeat split.
  - vm_compute. reflexivity.
  - repeat split; vm_compute; reflexivity.
  - apply app_fired_rule_skipped.
  - do 2 eexists. vm_compute. repeat split.
Qed.

(** The fact store over the first seven passes on [kb_feedback]: each pass
    commits, and the store of the first pass is back at the seventh. *)
Lemma feedback_orbit :
  orbit 7 (kb_rules kb_feedback)
        (seed_facts (base_cf kb_feedback) facts_feedback) [] =
  [ [("X"%string, neg 75 100);   ("Y"%string, lit 875 1000)];
    [("X"%string, neg 875 1000); ("Y"%string, lit 5 10)];
    [("X"%string, neg 5 10);     ("Y"%string, neg 75 100)];
    [("X"%string, lit 75 100);   ("Y"%string, neg 875 1000)];
    [("X"%string, lit 875 1000); ("Y"%string, neg 5 10)];
    [("X"%string, lit 5 10);     ("Y"%string, lit 75 100)];
    [("X"%string, neg 75 100);   ("Y"%string, lit 875 1000)] ].
Proof. vm_compute. reflexivity. Qed.

(** C5. On the two rules R1: X -> Y (1.0) and R2: Y -> X (-1.0), with X
    asserted at 0.5 and Y at 0.75, every pass commits a change and the fact
    store and the memo of the first pass come back after six more:
    [forward_chaining] returns with no number of passes. *)
Theorem feedback_never_returns :
  forall fuel, forward_chaining fuel kb_feedback facts_feedback = None.
Proof.
  intros fuel. unfold forward_chaining, initial_state.
  rewrite (@spin_diverges _ _ _ 1 5 _ _ feedback_facts1 feedback_memo1);
    [reflexivity | vm_compute; reflexivity | vm_compute; reflexivity].
Qed.

(** The same with one rule that concludes its own antecedent, asserted at
    3.0: the fact alternates between 3.0 and -3.0. *)
Lemma selfloop_never_returns :
  forall fuel, forward_chaining fuel kb_selfloop facts_selfloop = None.
Proof.
  intros fuel. unfold forward_chaining, initial_state.
  rewrite (@spin_diverges _ _ _ 1 1 _ _
             [("A"%string, neg 3 1)] [("R1"%string, lit 3 1)]);
    [reflexivity | vm_compute; reflexivity | vm_compute; reflexivity].
Qed.

(** On the same knowledge base and facts the loop of [app.py] returns. *)
Lemma app_feedback_returns :
  exists out,
    App.forward_chaining 3 kb_feedback [("X"%string, lit 5 10); ("Y"%string, lit 75 100)]
    = Some (Ok out).
Proof. eexists. vm_compute. reflexivity. Qed.

(** C9 (counterexample). With two rules under the id R, A -> D1 and
    A -> D2, and A asserted, both rules fire in the first pass of
    [ExpertSystem.forward_chaining]: the returned trace has two records of
    the rule id R. *)
Lemma app_shared_id_fires_twice :
  exists cf t1 t2,
    App.forward_chaining 2 kb_same_id_app facts_a_app = Some (Ok (cf, [t1; t2])) /\
    App.t_rule_id t1 = "R"%string /\ App.t_then t1 = "D1"%string /\
    App.t_rule_id t2 = "R"%string /\ App.t_then t2 = "D2"%string /\
    ~ NoDup (map (@App.t_rule_id B64.t) [t1; t2]).
Proof.
  do 3 eexists. split; [vm_compute; reflexivity|].
  repeat split. simpl. intros Hnd. inversion Hnd as [|? ? Hnin _]; subst.
  apply Hnin. now left.
Qed.

(** C8 (counterexample). A fact asserted under the internal code
    [Anemia_due_to_malaria] comes back from [forward_chaining] under the
    label of the table: the returned mapping has no entry for the code. *)
Lemma labels_inside_engine :
  exists facts,
    forward_chaining 1 kb_empty facts_anemia = Some (Ok (facts, [])) /\
    dict_get "Anemia_due_to_malaria" facts = None /\
    dict_get "Anemia akibat malaria" facts = Some (lit 1 1).
Proof. eexists. vm_compute. repeat split. Qed.

(** Where [app.py] differs from [engine.py]: [ExpertSystem.forward_chaining]
    returns the CFs as the loop leaves them, neither rounded nor clamped. *)
Lemma app_returns_unclamped :
  exists cf tr,
    App.forward_chaining 2 kb_g02 [("G02"%string, lit 3 1)] = Some (Ok (cf, tr)) /\
    dict_get "G02" cf = Some (lit 3 1) /\
    dict_get "D1" cf = Some (fmul (lit 8 10) (lit 3 1)).
Proof. do 2 eexists. vm_compute. repeat split. Qed.
(** The same on a value that needs rounding: with the symptom G02 of MB 0.7
    asserted at 0.1, [ExpertSystem.forward_chaining] returns the product
    [0.1 * 0.7] as it is, 0.06999999999999999, which [round(., 4)] would have
    made 0.07. *)
Lemma app_returns_unrounded :
  App.forward_chaining 1 (KB [Symptom "G02" (Some (lit 7 10)) (Some B64.zero)] [])
                       [("G02"%string, lit 1 10)] =
    Some (Ok ([("G02"%string, fmul (lit 1 10) (lit 7 10))], [])) /\
  fmul (lit 1 10) (lit 7 10) = B64.of_ratio false 6999999999999999 100000000000000000 /\
  B64.round4 (fmul (lit 1 10) (lit 7 10)) = lit 7 100 /\
  fmul (lit 1 10) (lit 7 10) <> lit 7 100.
Proof. vm_compute. repeat split. discriminate. Qed.

End B64Engine.

(** ** binary64: the clamp and the rounding of the final values *)

Section Finalization.
Import Checks.
Local Open Scope Z_scope.

Lemma sf_eqb_eq (x y : B64.t) : sf_eqb x y = true -> x = y.
Proof.
  destruct x as [a|a| |a m e], y as [b|b| |b m' e']; simpl; try discriminate;
    try reflexivity.
  - intros Hb. apply Bool.eqb_prop in Hb. now subst.
  - intros Hb. apply Bool.eqb_prop in Hb. now subst.
  - rewrite !andb_true_iff. intros [[Hs Hm] He].
    apply Bool.eqb_prop in Hs. apply Pos.eqb_eq in Hm. apply Z.eqb_eq in He.
    now subst.
Qed.

Lemma forall_from_spec (P : Z -> bool) (n : nat) :
  forall q, forall_from n q P = true ->
  forall z, q <= z < q + Z.of_nat n -> P z = true.
Proof.
  induction n as [|n IH]; intros q Hall z Hz; [lia|].
  simpl in Hall. apply andb_true_iff in Hall. destruct Hall as [Hq Hrest].
  destruct (Z.eq_dec z q) as [->|Hne]; [assumption|].
  apply (IH (q + 1)); [assumption | lia].
Qed.

(** The 10001 four-decimal values of [[0, 1]], with either sign, are fixed
    points of the rounding once clamped. *)
Lemma rounded_ok_range :
  forall_from (Z.to_nat 10001) 0
    (fun q => rounded_ok false q && rounded_ok true q) = true.
Proof. vm_compute. reflexivity. Qed.

(** From 1.0001 to 3.2767 the nearest binary64 is beyond the clamp. *)
Lemma beyond_range :
  forall_from (Z.to_nat 22767) 10001
    (fun q => beyond false (B64.dec4 false q) && beyond true (B64.dec4 true q)) = true.
Proof. vm_compute. reflexivity. Qed.

Lemma beyond_finite (s : bool) (m : positive) (e : Z) :
  -51 <= e -> beyond s (S754_finite s m e) = true.
Proof.
  intros He. unfold beyond. rewrite one_repr.
  destruct s; unfold SFltb, SFopp, SFcompare.
  - destruct (Z.compare_spec e (-52)); solve [lia | reflexivity].
  - destruct (Z.compare_spec (-52) e); solve [lia | reflexivity].
Qed.

Lemma beyond_infinity (s : bool) : beyond s (S754_infinity s) = true.
Proof. destruct s; vm_compute; reflexivity. Qed.

(** The nearest binary64 to [q / 10^4], [q >= 1], is a finite number of the
    same sign, with an exponent bounded below, or an infinity. *)
Lemma of_ratio_shape (s : bool) (q : positive) :
  (exists m e, B64.of_ratio s q 10000 = S754_finite s m e /\
               Z.min (Zpos (digits2_pos q) - 67) 0 <= e) \/
  B64.of_ratio s q 10000 = S754_infinity s.
Proof.
  unfold B64.of_ratio, SFdiv, SFdiv_core_binary.
  rewrite xorb_false_r.
  change (Zdigits2 (Zpos q)) with (Zpos (digits2_pos q)).
  change (Zdigits2 10000) with 14.
  pose proof (digits2_pos_lower q) as Hlo.
  set (d := Zpos (digits2_pos q)) in *.
  assert (Hd : 1 <= d) by (unfold d; lia).
  set (e' := Z.min (fexp B64.prec B64.emax (d + 0 - (14 + 0))) (0 - 0)).
  assert (He' : e' = Z.min (d - 67) 0).
  { unfold e', fexp, emin, B64.prec, B64.emax. lia. }
  set (m' := match 0 - 0 - e' with
             | Z0 => Zpos q
             | Zpos _ => Z.shiftl (Zpos q) (0 - 0 - e')
             | Zneg _ => 0
             end).
  assert (Hm' : 2 ^ 66 <= m').
  { unfold m'. destruct (0 - 0 - e') as [|p|p] eqn:Ee; try lia.
    - etransitivity; [|exact Hlo]. apply Z.pow_le_mono_r; lia.
    - rewrite Z.shiftl_mul_pow2 by lia.
      replace 66 with ((d - 1) + Zpos p) by lia.
      rewrite Z.pow_add_r by lia.
      apply Z.mul_le_mono_nonneg_r; [apply Z.pow_nonneg; lia | exact Hlo]. }
  destruct (Z.div_eucl m' 10000) as [Q r] eqn:Ediv.
  assert (HQ : Q = m' / 10000) by (unfold Z.div; now rewrite Ediv).
  assert (HQpos : 0 < Q).
  { rewrite HQ. apply Z.div_str_pos. change (2 ^ 66) with 73786976294838206464 in Hm'. lia. }
  assert (Hemin : emin B64.prec B64.emax <= e').
  { unfold emin, B64.prec, B64.emax. lia. }
  destruct (binary_round_aux_positive s (new_location 10000 r) HQpos Hemin)
    as [(m & e & Hfin & Hle)|Hinf].
  - left. exists m, e. split; [exact Hfin|lia].
  - right. exact Hinf.
Qed.

(** From 3.2768 on, the quotient by [10^4] has an exponent above that of
    1.0, or is an infinity. *)
Lemma of_ratio_large (s : bool) (q : positive) :
  32768 <= Zpos q ->
  (exists m e, B64.of_ratio s q 10000 = S754_finite s m e /\ -51 <= e) \/
  B64.of_ratio s q 10000 = S754_infinity s.
Proof.
  intros Hq.
  assert (Hd : 16 <= Zpos (digits2_pos q)).
  { pose proof (digits2_pos_upper q) as Hu.
    destruct (Z_lt_le_dec (Zpos (digits2_pos q)) 16) as [Hlt|]; [|assumption].
    assert (2 ^ Zpos (digits2_pos q) <= 2 ^ 15) by (apply Z.pow_le_mono_r; lia).
    change (2 ^ 15) with 32768 in *. lia. }
  destruct (of_ratio_shape s q) as [(m & e & Hfin & Hle)|Hinf].
  - left. exists m, e. split; [exact Hfin|lia].
  - right. exact Hinf.
Qed.

Lemma dec4_beyond (s : bool) (q : Z) :
  10000 < q -> beyond s (B64.dec4 s q) = true.
Proof.
  intros Hq. destruct (Z_lt_le_dec q 32768) as [Hsmall|Hlarge].
  - pose proof (@forall_from_spec _ _ _ beyond_range q) as Hr.
    rewrite Z2Nat.id in Hr by lia. specialize (Hr ltac:(lia)).
    apply andb_true_iff in Hr. destruct s; tauto.
  - destruct q as [|p|p]; try lia. unfold B64.dec4.
    destruct (@of_ratio_large s p Hlarge) as [(m & e & -> & He)| ->].
    + now apply beyond_finite.
    + apply beyond_infinity.
Qed.

Lemma one_not_below_minus_one : SFltb B64.one (SFopp B64.one) = false.
Proof. vm_compute. reflexivity. Qed.

Lemma clamp_beyond (s : bool) (r : B64.t) :
  beyond s r = true ->
  Engine.clamp r = if s then SFopp B64.one else B64.one.
Proof.
  unfold beyond, Engine.clamp, py_max, py_min. cbn [fltb fone fopp binary64].
  destruct s.
  - rewrite andb_true_iff, negb_true_iff. intros [Hlo Hhi].
    rewrite Hhi. now rewrite Hlo.
  - intros Hhi. rewrite Hhi. now rewrite one_not_below_minus_one.
Qed.

(** Every finalized value is left as it is by a second rounding to four
    decimals. *)
Lemma final_value_rounded (x : B64.t) :
  B64.round4 (Engine.final_value x) = Engine.final_value x.
Proof.
  destruct x as [s|s| |s m e].
  - destruct s; vm_compute; reflexivity.
  - destruct s; vm_compute; reflexivity.
  - vm_compute; reflexivity.
  - unfold Engine.final_value. cbn [fround4 binary64 B64.round4].
    set (q := B64.scaled4 m e).
    destruct (Z_le_gt_dec q 10000) as [Hle|Hgt].
    + destruct (Z_lt_le_dec q 0) as [Hneg|Hpos].
      * destruct q; try lia. destruct s; vm_compute; reflexivity.
      * pose proof (@forall_from_spec _ _ _ rounded_ok_range q) as Hr.
        rewrite Z2Nat.id in Hr by lia. specialize (Hr ltac:(lia)).
        apply andb_true_iff in Hr. unfold rounded_ok in Hr.
        destruct s; apply sf_eqb_eq; tauto.
    + rewrite (clamp_beyond s (B64.dec4 s q)) by (apply dec4_beyond; lia).
      destruct s; vm_compute; reflexivity.
Qed.

(** Rounding and clamping make no NaN and remove none. *)
Lemma round4_nan (x : B64.t) : B64.is_nan (B64.round4 x) = B64.is_nan x.
Proof.
  destruct x as [s|s| |s m e]; try reflexivity.
  unfold B64.round4, B64.dec4. destruct (B64.scaled4 m e) as [|p|p]; try reflexivity.
  destruct (of_ratio_shape s p) as [(m' & e' & -> & _)| ->]; reflexivity.
Qed.

Lemma clamp_nan (r : B64.t) : B64.is_nan (Engine.clamp r) = B64.is_nan r.
Proof.
  unfold Engine.clamp, py_max, py_min. cbn [fltb fone fopp binary64].
  destruct (SFltb B64.one r) eqn:E1.
  - rewrite one_not_below_minus_one.
    destruct r; try reflexivity. vm_compute in E1. discriminate.
  - destruct (SFltb r (SFopp B64.one)) eqn:E2; [|reflexivity].
    destruct r; try reflexivity. vm_compute in E2. discriminate.
Qed.

(** A clamped value is NaN or lies in [[-1, 1]]. *)
Lemma clamp_range (r : B64.t) :
  B64.is_nan (Engine.clamp r) = true \/
  (SFleb (SFopp B64.one) (Engine.clamp r) = true /\
   SFleb (Engine.clamp r) B64.one = true).
Proof.
  unfold Engine.clamp, py_max, py_min. cbn [fltb fone fopp binary64].
  destruct (SFltb B64.one r) eqn:E1.
  - rewrite one_not_below_minus_one. right. split; vm_compute; reflexivity.
  - destruct (SFltb r (SFopp B64.one)) eqn:E2.
    + right. split; vm_compute; reflexivity.
    + destruct (B64.is_nan r) eqn:En; [now left|right].
      split; apply SFltb_false_SFleb; try assumption; vm_compute; reflexivity.
Qed.
End Finalization.

(** ** binary64: the returned CFs *)

Section B64Final.
Import Engine Examples.

Lemma SFcompare_nan_r (x : B64.t) : SFcompare x S754_nan = None.
Proof. destruct x; reflexivity. Qed.

(** A rule never commits NaN: the change it commits is greater than [1e-6]. *)
Lemma committed_value_not_nan (new old : B64.t) :
  fltb feps6 (fabs (fsub new old)) = true -> B64.is_nan new = false.
Proof.
  destruct new as [s|s| |s m e]; try reflexivity.
  cbn [fltb fabs fsub feps6 binary64]. unfold SFltb. simpl SFsub. simpl SFabs.
  rewrite SFcompare_nan_r. discriminate.
Qed.

(** A NaN in the fact store is a seed that no rule has replaced. *)
Lemma nan_facts_are_seeds (kb : knowledge_base B64.t)
      (input_facts : list (string * pyobj B64.t)) (st : state B64.t) :
  reachable (kb_rules kb) (initial_state kb input_facts) st ->
  forall k v, In (k, v) (cf_facts st) -> B64.is_nan v = true ->
              In (k, v) (seed_facts (base_cf kb) input_facts).
Proof.
  intros Hr. induction Hr as [|st st' r Hr IH Hin Hf|st Hr IH]; auto.
  destruct (fire_rule_cases _ _ Hf)
    as [->|(cfs & c & new & _ & _ & _ & _ & Hc & ->)]; [assumption|].
  simpl. intros k v Hkv Hnan.
  destruct (dict_set_In _ _ _ _ Hkv) as [[= -> ->]|Hold]; [|now apply IH].
  apply committed_value_not_nan in Hc. congruence.
Qed.



End B64Final.

(** ** The theorems at concrete inputs *)

Section Witnesses.
Import Examples.

Lemma combine_cf_three_branches_witness :
  fleb fzero (lit 6 10) = true /\ fleb fzero (lit 4 10) = true /\
  Engine.combine_cf (lit 6 10) (lit 4 10) =
    Ok (fadd (lit 6 10) (fmul (lit 4 10) (fsub fone (lit 6 10)))).
Proof.
  assert (Ha : fleb fzero (lit 6 10) = true) by (vm_compute; reflexivity).
  assert (Hb : fleb fzero (lit 4 10) = true) by (vm_compute; reflexivity).
  split; [exact Ha|]. split; [exact Hb|].
  exact (proj1 (proj1 combine_cf_three_branches B64.t binary64 (lit 6 10) (lit 4 10)) Ha Hb).
Defined.

Lemma combine_cf_zero_denominator_witness :
  Engine.combine_cf (lit 1 1) (neg 1 1) = Ok B64.zero /\
  ((lit 1 1 = B64.one /\ neg 1 1 = SFopp B64.one) \/
   (lit 1 1 = SFopp B64.one /\ neg 1 1 = B64.one)) /\
  App.combine_cf (lit 1 1) (neg 1 1) = Raise ZeroDivisionError.
Proof.
  split; [|split].
  - exact (proj1 (proj2 (proj2 combine_cf_zero_denominator))).
  - apply (proj1 (proj2 (proj2 (proj2 combine_cf_zero_denominator)))
             (lit 1 1) (neg 1 1));
      vm_compute; reflexivity.
  - apply (proj1 (proj2 (proj2 (proj2 (proj2 combine_cf_zero_denominator))))
             B64.t binary64 (lit 1 1) (neg 1 1));
      vm_compute; reflexivity.
Defined.


Lemma anti_oscillation_guard_witness :
  Engine.forward_chaining 2 kb_g02 facts_g02 =
    Some (Ok (fst result_g02, snd result_g02)) /\
  List.length (Engine.fired_by "R1" (snd result_g02)) <= 1.
Proof.
  assert (Hrun : Engine.forward_chaining 2 kb_g02 facts_g02 =
                 Some (Ok (fst result_g02, snd result_g02)))
    by (vm_compute; reflexivity).
  split; [exact Hrun|].
  apply (proj2 (proj1 (proj2 anti_oscillation_guard) 2 kb_g02 facts_g02 _ _ Hrun)
               "R1"%string (lit 1 1)).
  - vm_compute. reflexivity.
  - intros t [<-|[]] _. vm_compute. reflexivity.
Defined.

Lemma labels_applied_after_finalization_witness :
  Engine.forward_chaining 1 kb_empty facts_anemia =
    Some (Ok ([("Anemia akibat malaria"%string, lit 1 1)], [])) /\
  forall label v,
    In (label, v) [("Anemia akibat malaria"%string, lit 1 1)] ->
    exists code, label = Engine.translate_key code.
Proof.
  assert (Hrun : Engine.forward_chaining 1 kb_empty facts_anemia =
                 Some (Ok ([("Anemia akibat malaria"%string, lit 1 1)], [])))
    by (vm_compute; reflexivity).
  split; [exact Hrun|].
  destruct (@labels_applied_after_finalization B64.t binary64 1 kb_empty
              facts_anemia _ _ Hrun)
    as (st & fin & _ & _ & _ & _ & Hval & _).
  intros label v Hin. destruct (Hval label v Hin) as (code & _ & Hl).
  exists code. exact Hl.
Defined.

Lemma app_each_rule_fires_once_witness :
  NoDup (map (@r_id B64.t) (kb_rules kb_g02)) /\
  App.forward_chaining 2 kb_g02 facts_g02_app =
    Some (Ok (fst app_result_g02, snd app_result_g02)) /\
  NoDup (map (@App.t_rule_id B64.t) (snd app_result_g02)).
Proof.
  assert (Hids : NoDup (map (@r_id B64.t) (kb_rules kb_g02)))
    by (repeat constructor; simpl; tauto).
  assert (Hrun : App.forward_chaining 2 kb_g02 facts_g02_app =
                 Some (Ok (fst app_result_g02, snd app_result_g02)))
    by (vm_compute; reflexivity).
  split; [exact Hids|]. split; [exact Hrun|].
  exact (proj2 (proj2 (@app_each_rule_fires_once B64.t binary64 kb_g02 facts_g02_app))
               Hids 2 _ _ Hrun).
Defined.

Lemma combine_cf_commutative_exact_witness :
  B64.is_nan (lit 6 10) = false /\ B64.is_nan (neg 4 10) = false /\
  Engine.combine_cf (lit 6 10) (neg 4 10) = Engine.combine_cf (neg 4 10) (lit 6 10).
Proof.
  assert (Ha : B64.is_nan (lit 6 10) = false) by (vm_compute; reflexivity).
  assert (Hb : B64.is_nan (neg 4 10) = false) by (vm_compute; reflexivity).
  split; [exact Ha|]. split; [exact Hb|].
  apply (proj2 combine_cf_commutative_exact (lit 6 10) (neg 4 10) Ha Hb);
    vm_compute; reflexivity.
Defined.
End Witnesses.

(** ** The engine: what a run keeps *)

Section EngineRun.
Context {F : Type} `{PyFloat F}.
Import Engine.

(** The loop body in full: the state is left as it was, or the rule commits
    the combination of the old CF of its conclusion with its contribution. *)
Lemma fire_rule_inv (st st' : state F) (r : rule F) :
  fire_rule st r = Ok st' ->
  st' = st \/
  exists cfs c new,
    antecedent_lookup (cf_facts st) (r_if r) [] = (cfs, false) /\
    cfs <> [] /\
    py_min_list cfs = Ok c /\
    unchanged_since_applied (applied_rules st) (r_id r) c = false /\
    (if dict_mem (r_then r) (cf_facts st)
     then combine_cf (dict_get_default (r_then r) fzero (cf_facts st))
                     (fmul (opt_default fone (r_cf r)) c) = Ok new
     else new = fmul (opt_default fone (r_cf r)) c) /\
    fltb feps6 (fabs (fsub new (dict_get_default (r_then r) fzero (cf_facts st)))) = true /\
    st' = committed st r cfs c new.
Proof.
  unfold fire_rule.
  destruct (antecedent_lookup (cf_facts st) (r_if r) []) as [cfs missing] eqn:Hl.
  destruct missing; simpl; [intros [= <-]; now left|].
  destruct cfs as [|x cfs]; simpl; [intros [= <-]; now left|].
  destruct (unchanged_since_applied _ _ _) eqn:Hu; [intros [= <-]; now left|].
  destruct (dict_mem (r_then r) (cf_facts st)) eqn:Hm.
  - destruct (combine_cf_total
                (dict_get_default (r_then r) fzero (cf_facts st))
                (fmul (opt_default fone (r_cf r)) (fold_left py_min cfs x)))
      as [new Hnew].
    rewrite Hnew. simpl.
    destruct (fltb feps6 _) eqn:Hc; intros [= <-]; [right|now left].
    exists (x :: cfs), (fold_left py_min cfs x), new.
    repeat split; try assumption; try discriminate.
  - simpl. destruct (fltb feps6 _) eqn:Hc; intros [= <-]; [right|now left].
    exists (x :: cfs), (fold_left py_min cfs x),
      (fmul (opt_default fone (r_cf r)) (fold_left py_min cfs x)).
    repeat split; try assumption; try discriminate.
Qed.

(** The antecedent loop, when no antecedent is missing, collects the CF of
    each antecedent in order. *)
Lemma antecedent_lookup_found (facts : dict F) (ants : list string) :
  forall acc cfs,
    antecedent_lookup facts ants acc = (cfs, false) ->
    exists vs, cfs = acc ++ vs /\
               Forall2 (fun a v => dict_get a facts = Some v) ants vs.
Proof.
  induction ants as [|a ants IH]; intros acc cfs; simpl.
  - intros [= <-]. exists []. split; [now rewrite app_nil_r | constructor].
  - destruct (dict_get a facts) as [v|] eqn:E; [|discriminate].
    intros Hl. destruct (IH _ _ Hl) as (vs & -> & Hall).
    exists (v :: vs). split; [now rewrite <- app_assoc | now constructor].
Qed.

(** The antecedent loop reads the fact store at the antecedents only. *)
Lemma antecedent_lookup_ext (f1 f2 : dict F) (ants : list string) :
  (forall a, In a ants -> dict_get a f1 = dict_get a f2) ->
  forall acc, antecedent_lookup f1 ants acc = antecedent_lookup f2 ants acc.
Proof.
  induction ants as [|a ants IH]; intros Hext acc; simpl; [reflexivity|].
  rewrite <- (Hext a (or_introl eq_refl)).
  destruct (dict_get a f1); [|reflexivity].
  apply IH. intros b Hb. apply Hext. now right.
Qed.

(** [min] of a list is one of its elements. *)
Lemma py_min_list_In (xs : list F) (c : F) : py_min_list xs = Ok c -> In c xs.
Proof.
  destruct xs as [|x xs]; simpl; [discriminate|]. intros [= <-].
  revert x. induction xs as [|y xs IH]; intros x; simpl; [now left|].
  destruct (IH (py_min x y)) as [Heq|Hin].
  - rewrite <- Heq. unfold py_min. destruct (fltb y x); auto.
  - right. now right.
Qed.

Lemma snoc_split {A : Type} (l pre post : list A) (x t : A) :
  l ++ [x] = pre ++ t :: post ->
  (post = [] /\ pre = l /\ t = x) \/
  (exists post', post = post' ++ [x] /\ l = pre ++ t :: post').
Proof.
  destruct (@exists_last _ (t :: post)) as (post0 & y & Heq); [discriminate|].
  intros Hl. rewrite Heq, app_assoc in Hl. apply app_inj_tail in Hl.
  destruct Hl as [-> <-].
  destruct post as [|p post].
  - left. destruct post0 as [|z post0].
    + simpl in Heq. injection Heq as ->. now rewrite app_nil_r.
    + exfalso. simpl in Heq. injection Heq as _ Heq.
      destruct post0; discriminate.
  - right. destruct post0 as [|z post0]; [discriminate|].
    simpl in Heq. injection Heq as <- Heq.
    exists post0. split; [assumption|reflexivity].
Qed.

Lemma replay_snoc (facts : dict F) (tr : list (trace_item F)) (t : trace_item F) :
  replay facts (tr ++ [t]) = dict_set (t_conclusion t) (t_new_cf t) (replay facts tr).
Proof. unfold replay. now rewrite fold_left_app. Qed.

Lemma replay_app (facts : dict F) (tr1 tr2 : list (trace_item F)) :
  replay facts (tr1 ++ tr2) = replay (replay facts tr1) tr2.
Proof. unfold replay. now rewrite fold_left_app. Qed.

Lemma replay_keys (facts : dict F) (tr : list (trace_item F)) (k : string) :
  In k (dict_keys (replay facts tr)) <->
  In k (dict_keys facts) \/ In k (map (@t_conclusion F) tr).
Proof.
  induction tr as [|t tr IH] using rev_ind; simpl; [tauto|].
  rewrite replay_snoc, map_app, in_app_iff. simpl.
  rewrite <- (dict_mem_keys k (dict_set _ _ _)), dict_mem_set.
  rewrite orb_true_iff, String.eqb_eq, dict_mem_keys, IH. tauto.
Qed.

(** The run from a state: what was appended to its trace, replayed on its
    fact store, gives the fact store reached. *)
Lemma reachable_replay (rules : list (rule F)) (st0 st : state F) :
  reachable rules st0 st ->
  exists tr, fired_trace st = fired_trace st0 ++ tr /\
             cf_facts st = replay (cf_facts st0) tr.
Proof.
  intros Hr. induction Hr as [|st st' r Hr IH Hin Hf|st Hr IH].
  - exists []. split; [now rewrite app_nil_r | reflexivity].
  - destruct IH as (tr & Htr & Hcf).
    destruct (fire_rule_cases _ _ Hf) as [->|(cfs & c & new & _ & _ & _ & _ & _ & ->)];
      [now exists tr|].
    eexists (tr ++ [_]). simpl. split.
    + rewrite Htr, <- app_assoc. reflexivity.
    + rewrite replay_snoc, <- Hcf. reflexivity.
  - exact IH.
Qed.

Lemma seed_facts_keys_iff (base : dict F) (input_facts : list (string * pyobj F))
      (k : string) :
  In k (dict_keys (seed_facts base input_facts)) <-> In k (map fst input_facts).
Proof.
  split; [apply seed_facts_keys|].
  unfold seed_facts.
  assert (G : forall acc,
             In k (dict_keys acc) \/ In k (map fst input_facts) ->
             In k (dict_keys (fold_left (seed_fact base) input_facts acc))).
  { induction input_facts as [|[code o] rest IH]; intros acc; simpl; [tauto|].
    intros Hk. apply IH.
    destruct Hk as [Hk|[<-|Hk]]; [left|left|now right].
    - apply dict_mem_keys. apply dict_mem_keys in Hk.
      destruct (dict_get code base); now apply dict_mem_set_mono.
    - apply dict_mem_keys.
      destruct (dict_get code base); rewrite dict_mem_set, String.eqb_refl; reflexivity. }
  intros Hk. apply G. now right.
Qed.
End EngineRun.

(** ** The engine: seeding, the fact store and the trace *)

Section EngineExtra.
Context {F : Type} `{PyFloat F}.
Import Engine.

Lemma seed_fact_other (base acc : dict F) (entry : string * pyobj F) (code : string) :
  fst entry <> code ->
  dict_get code (seed_fact base acc entry) = dict_get code acc.
Proof.
  destruct entry as [c o]. simpl. intros Hne.
  destruct (dict_get c base); now apply dict_get_set_neq.
Qed.

Lemma seed_facts_other (base : dict F) (input_facts : list (string * pyobj F))
      (code : string) :
  ~ In code (map fst input_facts) ->
  forall acc, dict_get code (fold_left (seed_fact base) input_facts acc) =
              dict_get code acc.
Proof.
  induction input_facts as [|e rest IH]; intros Hnin acc; simpl; [reflexivity|].
  rewrite IH by (intros Hin; apply Hnin; now right).
  apply seed_fact_other. intros Heq. apply Hnin. now left.
Qed.

(** X1. Seeding: for an input mapping (its codes are distinct), the fact
    store the loop starts from holds, for every asserted code, the
    confidence times the base CF of the symptom of that code, and the
    confidence itself when the code is that of no symptom. *)
Theorem seeded_facts_scaled (kb : knowledge_base F)
        (input_facts : list (string * pyobj F)) (code : string) (o : pyobj F) :
  NoDup (map fst input_facts) ->
  In (code, o) input_facts ->
  dict_get code (cf_facts (initial_state kb input_facts)) =
  Some (match dict_get code (base_cf kb) with
        | Some b => fmul (confidence o) b
        | None => confidence o
        end).
Proof.
  simpl. unfold seed_facts. generalize (@nil (string * F)).
  induction input_facts as [|[c o'] rest IH]; intros acc Hnd Hin; [destruct Hin|].
  inversion Hnd as [|? ? Hnin Hnd']; subst. simpl in Hnin.
  destruct Hin as [[= -> ->]|Hin].
  - cbn [fold_left]. rewrite seed_facts_other by assumption.
    unfold seed_fact, confidence.
    destruct (dict_get code (base_cf kb)); apply dict_get_set_eq.
  - cbn [fold_left]. now apply IH.
Qed.

Lemma dict_get_map {V W : Type} (g : V -> W) (d : dict V) (k : string) :
  dict_get k (map (fun '(c, v) => (c, g v)) d) = option_map g (dict_get k d).
Proof.
  induction d as [|[c v] d IH]; simpl; [reflexivity|].
  destruct (String.eqb k c); [reflexivity | exact IH].
Qed.

Lemma symptom_map_last (symptoms : list (symptom F)) (code : string) :
  forall acc,
    dict_get code (fold_left (fun d s => dict_set (s_code s) s d) symptoms acc) =
    match find (fun s => String.eqb (s_code s) code) (rev symptoms) with
    | Some s => Some s
    | None => dict_get code acc
    end.
Proof.
  induction symptoms as [|s symptoms IH] using rev_ind; intros acc; [reflexivity|].
  rewrite fold_left_app, rev_app_distr. simpl.
  destruct (String.eqb (s_code s) code) eqn:E.
  - apply String.eqb_eq in E. subst code. apply dict_get_set_eq.
  - apply String.eqb_neq in E. rewrite dict_get_set_neq by assumption. apply IH.
Qed.

(** X2. Two symptoms with one code: [engine.py] takes the base CF of the
    last one ([symptom_map] is a dict keyed by code), [app.py] the MB and MD
    of the first one ([get_mb_md] returns at the first match); for a code of
    no symptom the engine has no base CF and [app.py] takes MB 1.0 and
    MD 0.0. *)
Theorem duplicate_symptom_codes (kb : knowledge_base F) (code : string) :
  dict_get code (base_cf kb) =
    option_map cf_symptom_from_mbmd
      (find (fun s => String.eqb (s_code s) code) (rev (kb_symptoms kb))) /\
  App.get_mb_md (kb_symptoms kb) code =
    match find (fun s => String.eqb (s_code s) code) (kb_symptoms kb) with
    | Some s => (opt_default fone (s_mb s), opt_default fzero (s_md s))
    | None => (fone, fzero)
    end.
Proof.
  split.
  - unfold base_cf, symptom_map.
    rewrite (dict_get_map cf_symptom_from_mbmd), symptom_map_last.
    now destruct (find _ (rev (kb_symptoms kb))).
  - induction (kb_symptoms kb) as [|s rest IH]; simpl; [reflexivity|].
    destruct (String.eqb (s_code s) code); [reflexivity | exact IH].
Qed.

(** X3. In a run, the fact store only grows and keeps its order, the trace
    is only appended to, and the memo keeps its rule ids: from any state of
    the loop to any later one, the codes of the fact store and the records
    of the trace of the first are a prefix of those of the second. *)
Theorem fact_store_and_trace_grow (rules : list (rule F)) (st0 st : state F) :
  reachable rules st0 st ->
  (exists codes, dict_keys (cf_facts st) = dict_keys (cf_facts st0) ++ codes) /\
  (exists records, fired_trace st = fired_trace st0 ++ records) /\
  (forall rid, dict_mem rid (applied_rules st0) = true ->
               dict_mem rid (applied_rules st) = true).
Proof.
  intros Hr. induction Hr as [|st st' r Hr IH Hin Hf|st Hr IH].
  - split; [|split]; [exists []| exists [] |auto]; now rewrite app_nil_r.
  - destruct IH as ((codes & Hk) & (records & Ht) & Hm).
    destruct (fire_rule_cases _ _ Hf) as [->|(cfs & c & new & _ & _ & _ & _ & _ & ->)];
      [repeat split; eauto|].
    simpl. split; [|split].
    + rewrite dict_keys_set. destruct (dict_mem (r_then r) (cf_facts st)).
      * now exists codes.
      * exists (codes ++ [r_then r]). now rewrite Hk, app_assoc.
    + eexists (records ++ [_]). rewrite Ht, <- app_assoc. reflexivity.
    + intros rid Hrid. apply dict_mem_set_mono. auto.
  - exact IH.
Qed.

(** X4. The keys of the returned mapping are the labels of the asserted
    codes and of the conclusions of the trace records, and nothing else:
    every fact that was not asserted has a record that explains it. *)
Theorem result_keys_explained (fuel : nat) (kb : knowledge_base F)
        (input_facts : list (string * pyobj F)) (facts : dict F)
        (tr : list (trace_item F)) (label : string) :
  forward_chaining fuel kb input_facts = Some (Ok (facts, tr)) ->
  (In label (dict_keys facts) <->
   exists code, label = translate_key code /\
                (In code (map fst input_facts) \/
                 In code (map (@t_conclusion F) tr))).
Proof.
  intros Hrun.
  destruct (forward_chaining_finalized _ _ _ Hrun) as (st & Hr & -> & ->).
  destruct (reachable_replay Hr) as (tr & Htr & Hcf). simpl in Htr, Hcf.
  rewrite Htr. clear Htr.
  assert (Hkeys : forall code,
             In code (dict_keys (cf_facts st)) <->
             In code (map fst input_facts) \/ In code (map (@t_conclusion F) tr)).
  { intros code. rewrite Hcf, replay_keys, seed_facts_keys_iff. tauto. }
  set (fin := map (fun '(k, v) => (k, final_value v)) (cf_facts st)).
  assert (Hfin : dict_keys fin = dict_keys (cf_facts st)).
  { unfold fin, dict_keys. rewrite map_map. apply map_ext. now intros [k v]. }
  split.
  - intros Hin. unfold dict_keys in Hin. apply in_map_iff in Hin.
    destruct Hin as ([l v] & Hl & Hin). simpl in Hl. subst l.
    apply translate_In in Hin. destruct Hin as (code & Hin & ->).
    exists code. split; [reflexivity|]. apply Hkeys. rewrite <- Hfin.
    unfold dict_keys. apply in_map_iff. now exists (code, v).
  - intros (code & -> & Hcode). apply dict_mem_keys. apply translate_mem.
    rewrite Hfin. now apply Hkeys.
Qed.

Lemma explained_split (inputs : list string) (tr : list (trace_item F)) :
  explained inputs tr ->
  forall pre t post, tr = pre ++ t :: post ->
    forall a, In a (t_if t) -> In a inputs \/ In a (map (@t_conclusion F) pre).
Proof.
  induction 1 as [|tr t0 Hex IH Ht0]; intros pre t post Heq.
  - destruct pre; discriminate.
  - destruct (snoc_split _ _ _ _ _ Heq) as [(-> & -> & ->)|(post' & -> & ->)].
    + exact Ht0.
    + eapply IH. reflexivity.
Qed.

Lemma reachable_explained (kb : knowledge_base F)
      (input_facts : list (string * pyobj F)) (st : state F) :
  reachable (kb_rules kb) (initial_state kb input_facts) st ->
  explained (map fst input_facts) (fired_trace st).
Proof.
  intros Hr. induction Hr as [|st st' r Hr IH Hin Hf|st Hr IH].
  - constructor.
  - destruct (fire_rule_cases _ _ Hf) as [->|(cfs & c & new & Hl & _ & _ & _ & _ & ->)];
      [assumption|].
    simpl. constructor; [assumption|]. simpl. intros a Ha.
    destruct (antecedent_lookup_found _ _ _ Hl) as (vs & _ & Hall).
    assert (Hmem : In a (dict_keys (cf_facts st))).
    { apply dict_mem_keys. unfold dict_mem.
      clear - Hall Ha. induction Hall as [|a0 v0 ants vs H0 Hall IH]; [destruct Ha|].
      destruct Ha as [<-|Ha]; [now rewrite H0 | auto]. }
    destruct (reachable_replay Hr) as (tr & Htr & Hcf). simpl in Htr, Hcf.
    rewrite Hcf, replay_keys, seed_facts_keys_iff in Hmem. now rewrite Htr.
  - exact IH.
Qed.

(** X5. Every antecedent of every trace record was asserted by the caller
    or concluded by an earlier record of the trace: a rule with an
    antecedent that nothing provides never fires. *)
Theorem antecedents_asserted_or_derived (fuel : nat) (kb : knowledge_base F)
        (input_facts : list (string * pyobj F)) (facts : dict F)
        (tr pre post : list (trace_item F)) (t : trace_item F) (a : string) :
  forward_chaining fuel kb input_facts = Some (Ok (facts, tr)) ->
  tr = pre ++ t :: post ->
  In a (t_if t) ->
  In a (map fst input_facts) \/ In a (map (@t_conclusion F) pre).
Proof.
  intros Hrun Heq Ha.
  destruct (forward_chaining_final _ _ _ Hrun) as (st & Hr & _ & ->).
  exact (explained_split (reachable_explained Hr) _ _ _ Heq a Ha).
Qed.

(** What a trace record says of itself. *)
Lemma reachable_records (rules : list (rule F)) (st0 st : state F)
      (P : trace_item F -> Prop) :
  (forall s r cfs c new,
      antecedent_lookup (cf_facts s) (r_if r) [] = (cfs, false) ->
      cfs <> [] ->
      py_min_list cfs = Ok c ->
      (if dict_mem (r_then r) (cf_facts s)
       then combine_cf (dict_get_default (r_then r) fzero (cf_facts s))
                       (fmul (opt_default fone (r_cf r)) c) = Ok new
       else new = fmul (opt_default fone (r_cf r)) c) ->
      fltb feps6 (fabs (fsub new (dict_get_default (r_then r) fzero (cf_facts s)))) = true ->
      In r rules ->
      forall t, fired_trace (committed s r cfs c new) = fired_trace s ++ [t] -> P t) ->
  reachable rules st0 st ->
  Forall P (fired_trace st0) -> Forall P (fired_trace st).
Proof.
  intros HP Hr H0. induction Hr as [|st st' r Hr IH Hin Hf|st Hr IH]; auto.
  destruct (fire_rule_inv _ _ Hf)
    as [->|(cfs & c & new & Hl & Hne & Hmin & _ & Hnew & Hc & ->)]; [assumption|].
  simpl. apply Forall_app. split; [assumption|].
  constructor; [|constructor].
  eapply HP; eauto.
Qed.

(** X6. Every trace record is consistent with itself and with its rule: it
    has one antecedent CF per antecedent, its antecedent CF is the [min] of
    these, its contribution is the strength of the rule (1.0 by default)
    times the antecedent CF, its new CF is the contribution when the old CF
    is the default 0.0 of a fact not yet in the store or else the
    combination of the old CF and the contribution, and the two CFs differ
    by more than [1e-6]. *)
Theorem trace_records_consistent (fuel : nat) (kb : knowledge_base F)
        (input_facts : list (string * pyobj F)) (facts : dict F)
        (tr : list (trace_item F)) (t : trace_item F) :
  forward_chaining fuel kb input_facts = Some (Ok (facts, tr)) ->
  In t tr ->
  List.length (t_antecedent_cfs t) = List.length (t_if t) /\
  py_min_list (t_antecedent_cfs t) = Ok (t_cf_antecedent t) /\
  t_rule_contribution t = fmul (t_rule_cf t) (t_cf_antecedent t) /\
  (exists r, In r (kb_rules kb) /\ t_rule_id t = r_id r /\
             t_rule_cf t = opt_default fone (r_cf r) /\
             t_note t = opt_default EmptyString (r_note r)) /\
  ((t_old_cf t = fzero /\ t_new_cf t = t_rule_contribution t) \/
   combine_cf (t_old_cf t) (t_rule_contribution t) = Ok (t_new_cf t)) /\
  fltb feps6 (fabs (fsub (t_new_cf t) (t_old_cf t))) = true.
Proof.
  intros Hrun Hin.
  destruct (forward_chaining_final _ _ _ Hrun) as (st & Hr & _ & ->).
  revert t Hin. apply Forall_forall.
  refine (reachable_records _ Hr (Forall_nil _)).
  intros s r cfs c new Hl Hne Hmin Hnew Hc Hr_in t Ht.
  simpl in Ht. apply app_inv_head in Ht. injection Ht as <-. simpl.
  destruct (antecedent_lookup_found _ _ _ Hl) as (vs & -> & Hall). simpl.
  repeat split; try assumption.
  - symmetry. exact (Forall2_length Hall).
  - exists r. now repeat split.
  - unfold dict_mem, dict_get_default in *.
    destruct (dict_get (r_then r) (cf_facts s)); [now right | left; now split].
Qed.

Lemma reachable_chain (kb : knowledge_base F)
      (input_facts : list (string * pyobj F)) (st : state F) :
  reachable (kb_rules kb) (initial_state kb input_facts) st ->
  cf_facts st = replay (seed_facts (base_cf kb) input_facts) (fired_trace st) /\
  forall pre t post,
    fired_trace st = pre ++ t :: post ->
    let before := replay (seed_facts (base_cf kb) input_facts) pre in
    t_old_cf t = dict_get_default (t_conclusion t) fzero before /\
    (if dict_mem (t_conclusion t) before
     then combine_cf (t_old_cf t) (t_rule_contribution t) = Ok (t_new_cf t)
     else t_new_cf t = t_rule_contribution t).
Proof.
  intros Hr. induction Hr as [|st st' r Hr IH Hin Hf|st Hr IH].
  - split; [reflexivity|]. intros pre t post Heq. destruct pre; discriminate.
  - destruct IH as [Hcf Hchain].
    destruct (fire_rule_inv _ _ Hf)
      as [->|(cfs & c & new & _ & _ & _ & _ & Hnew & _ & ->)]; [now split|].
    simpl. split.
    + now rewrite replay_snoc, <- Hcf.
    + intros pre t post Heq.
      destruct (snoc_split _ _ _ _ _ Heq) as [(-> & -> & ->)|(post' & -> & Heq')].
      * simpl. rewrite <- Hcf. split; [reflexivity | exact Hnew].
      * now apply (Hchain pre t post').
  - exact IH.
Qed.

(** X7. The trace accounts for the result: replaying the records in order
    on the seeded facts (each sets its conclusion to its new CF), then
    rounding, clamping and translating, gives the returned mapping; and the
    old CF of every record is the CF its conclusion has after the records
    before it (0.0 when it has none), with which its contribution is
    combined, not overwritten. *)
Theorem trace_replays_to_result (fuel : nat) (kb : knowledge_base F)
        (input_facts : list (string * pyobj F)) (facts : dict F)
        (tr : list (trace_item F)) :
  forward_chaining fuel kb input_facts = Some (Ok (facts, tr)) ->
  facts = translate (finalize (replay (seed_facts (base_cf kb) input_facts) tr)) /\
  forall pre t post,
    tr = pre ++ t :: post ->
    let before := replay (seed_facts (base_cf kb) input_facts) pre in
    t_old_cf t = dict_get_default (t_conclusion t) fzero before /\
    (if dict_mem (t_conclusion t) before
     then combine_cf (t_old_cf t) (t_rule_contribution t) = Ok (t_new_cf t)
     else t_new_cf t = t_rule_contribution t).
Proof.
  intros Hrun.
  destruct (forward_chaining_final _ _ _ Hrun) as (st & Hr & -> & ->).
  destruct (reachable_chain Hr) as [Hcf Hchain].
  split; [now rewrite <- Hcf | exact Hchain].
Qed.

Lemma fire_rules_changed (rules : list (rule F)) (st st' : state F) :
  fire_rules rules st = Ok st' -> changed st = true -> changed st' = true.
Proof.
  revert st. induction rules as [|r rest IH]; intros st; simpl.
  - now intros [= <-].
  - destruct (fire_rule st r) as [st1|] eqn:E; simpl; [|discriminate].
    intros Hrest Hc. apply (IH _ Hrest).
    destruct (fire_rule_cases _ _ E) as [->|(cfs & c & new & _ & _ & _ & _ & _ & ->)];
      [assumption | reflexivity].
Qed.

(** A pass that ends with the flag down has changed nothing, and none of
    its rules changes the state it ends in. *)
Lemma quiet_pass (rules : list (rule F)) (st st' : state F) :
  fire_rules rules st = Ok st' -> changed st' = false ->
  st' = st /\ forall r, In r rules -> fire_rule st r = Ok st.
Proof.
  revert st. induction rules as [|r rest IH]; intros st; simpl.
  - intros [= <-] _. split; [reflexivity | intros r []].
  - destruct (fire_rule st r) as [st1|] eqn:E; simpl; [|discriminate].
    intros Hrest Hc.
    destruct (fire_rule_cases _ _ E) as [->|(cfs & c & new & _ & _ & _ & _ & _ & ->)].
    + destruct (IH _ Hrest Hc) as [-> Hall]. split; [reflexivity|].
      intros r0 [<-|Hin]; auto.
    + exfalso. pose proof (fire_rules_changed _ _ Hrest eq_refl). congruence.
Qed.

Lemma passes_fixed_point (rules : list (rule F)) (fuel : nat) :
  forall st st' : state F,
    passes fuel rules st = Some (Ok st') ->
    changed st' = false /\ forall r, In r rules -> fire_rule st' r = Ok st'.
Proof.
  induction fuel as [|fuel IH]; intros st st'; simpl; [discriminate|].
  destruct (fire_rules rules (reset_changed st)) as [st1|] eqn:E; [|discriminate].
  destruct (changed st1) eqn:Hc; [apply IH|].
  intros [= <-]. split; [assumption|].
  destruct (quiet_pass _ _ E Hc) as [Heq Hall]. rewrite Heq. exact Hall.
Qed.

(** X8. What [forward_chaining] returns is a fixed point of the rules: in
    the state the loop ends in, which the returned trace determines (the
    fact store is the replay of the trace on the seeded facts, the memo is
    that of the trace), firing any rule of the knowledge base changes
    nothing. *)
Theorem returned_state_is_fixed_point (fuel : nat) (kb : knowledge_base F)
        (input_facts : list (string * pyobj F)) (facts : dict F)
        (tr : list (trace_item F)) (r : rule F) :
  forward_chaining fuel kb input_facts = Some (Ok (facts, tr)) ->
  In r (kb_rules kb) ->
  let st := {| cf_facts := replay (seed_facts (base_cf kb) input_facts) tr;
               applied_rules := memo_of tr;
               fired_trace := tr;
               changed := false |} in
  fire_rule st r = Ok st.
Proof.
  unfold forward_chaining.
  destruct (passes fuel (kb_rules kb) (initial_state kb input_facts))
    as [[st|e]|] eqn:E; try discriminate.
  intros [= <- <-] Hin.
  assert (Hr : reachable (kb_rules kb) (initial_state kb input_facts) st)
    by (eapply passes_reachable; [apply reach_start | exact E]).
  destruct (passes_fixed_point _ _ _ E) as [Hc Hall].
  destruct (reachable_chain Hr) as [Hcf _].
  destruct (memo_invariant Hr eq_refl spaced_nil) as [Hmemo _].
  cbv zeta. rewrite <- Hcf, <- Hmemo, <- Hc.
  destruct st. exact (Hall r Hin).
Qed.
End EngineExtra.

(** ** The engine: knowledge bases without chains *)

Section Unchained.
Context {F : Type} `{PyFloat F}.
Import Engine.

Lemma is_antecedent_In (rules : list (rule F)) (r : rule F) (a : string) :
  In r rules -> In a (r_if r) -> is_antecedent a rules = true.
Proof.
  intros Hr Ha. unfold is_antecedent. apply existsb_exists.
  exists r. split; [assumption|]. apply existsb_exists.
  exists a. split; [assumption | apply String.eqb_refl].
Qed.

Lemma unchained_conclusion (rules : list (rule F)) (r : rule F) :
  unchained rules = true -> In r rules -> is_antecedent (r_then r) rules = false.
Proof.
  unfold unchained. rewrite forallb_forall. intros Hall Hr.
  apply negb_true_iff. now apply Hall.
Qed.

Lemma NoDup_map_eq {A B : Type} (f : A -> B) (l : list A) (x y : A) :
  NoDup (map f l) -> In x l -> In y l -> f x = f y -> x = y.
Proof.
  induction l as [|a l IH]; simpl; [tauto|].
  intros Hnd [->|Hx] [->|Hy] Heq; inversion Hnd as [|? ? Hnin Hnd']; subst.
  - reflexivity.
  - exfalso. apply Hnin. rewrite Heq. now apply in_map.
  - exfalso. apply Hnin. rewrite <- Heq. now apply in_map.
  - auto.
Qed.

Lemma dict_get_In {V : Type} (k : string) (v : V) (d : dict V) :
  dict_get k d = Some v -> In (k, v) d.
Proof.
  induction d as [|[k' v'] d IH]; simpl; [discriminate|].
  destruct (String.eqb k k') eqn:E.
  - apply String.eqb_eq in E. intros [= ->]. left. now subst.
  - intros Hg. right. auto.
Qed.

Lemma unchained_reachable (rules : list (rule F)) (st0 st : state F) :
  unchained rules = true ->
  NoDup (map (@r_id F) rules) ->
  (forall k v, In (k, v) (cf_facts st0) -> stable v = true) ->
  applied_rules st0 = [] -> fired_trace st0 = [] ->
  reachable rules st0 st ->
  unchained_invariant rules st0 st.
Proof.
  intros Hun Hids Hstable Hm0 Ht0 Hr.
  induction Hr as [|st st' r Hr IH Hin Hf|st Hr IH].
  - unfold unchained_invariant. rewrite Hm0, Ht0. repeat split.
    + discriminate.
    + constructor.
    + destruct H0.
    + destruct H0.
  - destruct (fire_rule_cases _ _ Hf)
      as [->|(cfs & c & new & Hl & _ & Hmin & Hu & _ & ->)];
      [exact IH|].
    destruct IH as (Hants & Hmemo & Hnd & Htr).
    assert (Hl0 : antecedent_lookup (cf_facts st0) (r_if r) [] = (cfs, false)).
    { rewrite <- Hl. symmetry. apply antecedent_lookup_ext.
      intros a Ha. apply Hants. now apply is_antecedent_In with (r := r). }
    assert (Hc : stable c = true).
    { destruct (antecedent_lookup_found _ _ _ Hl0) as (vs & -> & Hall).
      apply py_min_list_In in Hmin. simpl in Hmin.
      clear - Hall Hmin Hstable.
      induction Hall as [|a v ants vs Hg Hall IH]; [destruct Hmin|].
      destruct Hmin as [<-|Hmin]; [|auto].
      apply (Hstable a). now apply dict_get_In. }
    assert (Hfresh : dict_mem (r_id r) (applied_rules st) = false).
    { unfold dict_mem. destruct (dict_get (r_id r) (applied_rules st)) as [c'|] eqn:Hg;
        [|reflexivity].
      exfalso. destruct (Hmemo _ _ Hg) as (r' & cfs' & Hin' & Hid & Hl' & Hmin').
      assert (r' = r) by (apply (NoDup_map_eq (@r_id F) rules); assumption).
      subst r'. rewrite Hl0 in Hl'. injection Hl' as <-.
      rewrite Hmin in Hmin'. injection Hmin' as <-.
      unfold unchanged_since_applied in Hu. rewrite Hg in Hu.
      unfold stable in Hc. congruence. }
    unfold unchained_invariant. simpl. repeat split.
    + intros a Ha. rewrite <- (Hants a Ha). apply dict_get_set_neq.
      intros Heq. rewrite <- Heq, (unchained_conclusion _ _ Hun Hin) in Ha.
      discriminate.
    + intros rid c0. destruct (String.eqb (r_id r) rid) eqn:E.
      * apply String.eqb_eq in E. subst rid. rewrite dict_get_set_eq.
        intros [= <-]. now exists r, cfs.
      * apply String.eqb_neq in E. rewrite dict_get_set_neq by assumption.
        apply Hmemo.
    + rewrite map_app. apply NoDup_app; [assumption | repeat constructor; simpl; tauto |].
      simpl. intros rid Hrid [<-|[]].
      apply in_map_iff in Hrid. destruct Hrid as (t & Hid & Ht).
      destruct (Htr t Ht) as [_ Hmem]. rewrite Hid in Hmem. congruence.
    + apply in_app_or in H0. destruct H0 as [Ht|[<-|[]]].
      * now apply Htr.
      * simpl. now apply in_map.
    + apply in_app_or in H0. destruct H0 as [Ht|[<-|[]]].
      * apply dict_mem_set_mono. now apply Htr.
      * simpl. rewrite dict_mem_set, String.eqb_refl. reflexivity.
  - exact IH.
Qed.

Lemma unchained_trace_bounded (rules : list (rule F)) (st0 st : state F) :
  unchained_invariant rules st0 st ->
  List.length (fired_trace st) <= List.length rules.
Proof.
  intros (_ & _ & Hnd & Htr).
  rewrite <- (length_map (@t_rule_id F)), <- (length_map (@r_id F)).
  apply NoDup_incl_length; [assumption|].
  intros rid Hrid. apply in_map_iff in Hrid. destruct Hrid as (t & <- & Ht).
  now apply Htr.
Qed.

(** The loop ends on such a knowledge base: it needs at most one pass more
    than there are rules left to fire. *)
Lemma unchained_passes_end (rules : list (rule F)) (st0 : state F) :
  unchained rules = true ->
  NoDup (map (@r_id F) rules) ->
  (forall k v, In (k, v) (cf_facts st0) -> stable v = true) ->
  applied_rules st0 = [] -> fired_trace st0 = [] ->
  forall fuel st,
    reachable rules st0 st ->
    List.length rules - List.length (fired_trace st) < fuel ->
    exists st', passes fuel rules st = Some (Ok st').
Proof.
  intros Hun Hids Hstable Hm0 Ht0.
  induction fuel as [|fuel IH]; intros st Hr Hlt; [lia|]. simpl.
  destruct (fire_rules_total rules (reset_changed st)) as [st1 E]. rewrite E.
  destruct (changed st1) eqn:Hc; [|eauto].
  assert (Hr1 : reachable rules st0 st1).
  { eapply fire_rules_reachable; [apply incl_refl | apply reach_pass; exact Hr | exact E]. }
  destruct (fire_rules_grows _ _ E) as [_ Hgrow].
  destruct (Hgrow Hc) as [Habs|Hlen]; [discriminate|]. simpl in Hlen.
  pose proof (unchained_trace_bounded
                (unchained_reachable Hun Hids Hstable Hm0 Ht0 Hr1)).
  apply IH; [assumption | lia].
Qed.

Lemma unchained_forward_chaining (kb : knowledge_base F)
      (input_facts : list (string * pyobj F)) :
  unchained (kb_rules kb) = true ->
  NoDup (map (@r_id F) (kb_rules kb)) ->
  (forall k v, In (k, v) (seed_facts (base_cf kb) input_facts) -> stable v = true) ->
  exists facts tr,
    (forall fuel, List.length (kb_rules kb) < fuel ->
                  forward_chaining fuel kb input_facts = Some (Ok (facts, tr))) /\
    NoDup (map (@t_rule_id F) tr).
Proof.
  intros Hun Hids Hstable.
  destruct (@unchained_passes_end (kb_rules kb) (initial_state kb input_facts)
              Hun Hids Hstable eq_refl eq_refl
              (S (List.length (kb_rules kb))) _ (reach_start _ _))
    as [st Hst]; [simpl; lia|].
  exists (translate (finalize (cf_facts st))), (fired_trace st). split.
  - intros fuel Hfuel. unfold forward_chaining.
    rewrite (@passes_more_fuel _ _ _ _ fuel _ _ Hst) by lia. reflexivity.
  - assert (Hr : reachable (kb_rules kb) (initial_state kb input_facts) st)
      by (eapply passes_reachable; [apply reach_start | exact Hst]).
    apply (@unchained_reachable (kb_rules kb) (initial_state kb input_facts) st
             Hun Hids Hstable eq_refl eq_refl Hr).
Qed.
End Unchained.

Section UnchainedB64.
Import Engine.

(** X9. Termination without chains: when no rule concludes a fact that some
    rule has as an antecedent, the rule ids are unique and every seeded CF
    is finite, [forward_chaining] returns, after at most one pass more than
    there are rules, and every rule has at most one record in the trace. *)
Theorem unchained_rules_terminate (kb : knowledge_base B64.t)
        (input_facts : list (string * pyobj B64.t)) :
  unchained (kb_rules kb) = true ->
  NoDup (map (@r_id B64.t) (kb_rules kb)) ->
  (forall k v, In (k, v) (seed_facts (base_cf kb) input_facts) ->
               B64.is_finite v = true) ->
  exists facts tr,
    (forall fuel, List.length (kb_rules kb) < fuel ->
                  forward_chaining fuel kb input_facts = Some (Ok (facts, tr))) /\
    NoDup (map (@t_rule_id B64.t) tr) /\
    List.length tr <= List.length (kb_rules kb).
Proof.
  intros Hun Hids Hfin.
  destruct (@unchained_forward_chaining _ _ kb input_facts Hun Hids)
    as (facts & tr & Hrun & Hnd).
  { intros k v Hin. unfold stable. apply finite_unchanged. eauto. }
  exists facts, tr. split; [exact Hrun|]. split; [exact Hnd|].
  specialize (Hrun (S (List.length (kb_rules kb))) (Nat.lt_succ_diag_r _)).
  destruct (forward_chaining_final _ _ _ Hrun) as (st & Hr & _ & ->).
  rewrite <- (length_map (@t_rule_id B64.t)), <- (length_map (@r_id B64.t)).
  apply NoDup_incl_length; [assumption|].
  intros rid Hrid. apply in_map_iff in Hrid. destruct Hrid as (t & <- & Ht).
  pose proof (trace_from_rules Hr (Forall_nil _)) as Hall.
  rewrite Forall_forall in Hall. destruct (Hall t Ht) as (r & Hin & _ & -> & _).
  now apply in_map.
Qed.
End UnchainedB64.

From Stdlib Require Import Qminmax Lqa.

(** ** [combine_cf] on exact rationals *)

Section CombineExactRange.
Import Engine.
Local Open Scope Q_scope.

Lemma exact_fleb (x y : Exact.t) : fleb x y = true <-> x <= y.
Proof. cbn [fleb exact]. apply Qle_bool_iff. Qed.

Lemma exact_fleb_false (x y : Exact.t) : fleb x y = false <-> y < x.
Proof.
  cbn [fleb exact]. split.
  - intros Hf. apply Qnot_le_lt. rewrite <- Qle_bool_iff. congruence.
  - intros Hlt. destruct (Qle_bool x y) eqn:E; [|reflexivity].
    apply Qle_bool_iff in E. exfalso. apply (Qlt_not_le _ _ Hlt E).
Qed.

Lemma exact_fltb (x y : Exact.t) : fltb x y = true <-> x < y.
Proof.
  cbn [fltb exact]. rewrite negb_true_iff. apply (exact_fleb_false y x).
Qed.

Lemma exact_fltb_false (x y : Exact.t) : fltb x y = false <-> y <= x.
Proof.
  cbn [fltb exact]. rewrite negb_false_iff. apply (exact_fleb y x).
Qed.

Lemma exact_feqb (x y : Exact.t) : feqb x y = true <-> x == y.
Proof. cbn [feqb exact]. apply Qeq_bool_iff. Qed.

Lemma exact_feqb_false (x y : Exact.t) : feqb x y = false <-> ~ x == y.
Proof.
  rewrite <- exact_feqb. destruct (feqb x y); split; congruence.
Qed.

(** The smaller magnitude, up to the equality of rationals. *)
Lemma exact_min_abs (a b : Exact.t) :
  py_min (fabs a) (fabs b) == Qmin (Qabs a) (Qabs b).
Proof.
  unfold py_min. destruct (fltb (fabs b) (fabs a)) eqn:E.
  - apply exact_fltb in E. cbn [fabs exact] in *. rewrite !Qred_correct in *.
    symmetry. apply Q.min_r. now apply Qlt_le_weak.
  - apply exact_fltb_false in E. cbn [fabs exact] in *. rewrite !Qred_correct in *.
    symmetry. now apply Q.min_l.
Qed.

Lemma div_in_unit (n d : Q) : 0 < d -> - d <= n <= d -> -1 <= n / d <= 1.
Proof.
  intros Hd [Hl Hu]. split.
  - apply Qle_shift_div_l; [assumption | lra].
  - apply Qle_shift_div_r; [assumption | lra].
Qed.

(** The signs in the third branch: one argument is positive and the other
    negative. *)
Lemma exact_mixed_signs (a b : Exact.t) :
  fleb fzero a && fleb fzero b = false ->
  fleb a fzero && fleb b fzero = false ->
  (a < 0 /\ 0 < b) \/ (0 < a /\ b < 0).
Proof.
  intros Hp Hn. apply andb_false_iff in Hp, Hn.
  rewrite !exact_fleb_false in Hp, Hn. cbn [fzero exact] in *.
  destruct Hp as [Hp|Hp], Hn as [Hn|Hn]; try lra.
Qed.

(** X10. On exact rationals the combination stays in the range of CFs:
    for [a] and [b] in [[-1, 1]], [combine_cf(a, b)] has a value and it lies
    in [[-1, 1]], so that the clamp of the finalization has nothing to do
    but for rounding. *)
Theorem exact_combine_cf_in_range (a b : Exact.t) :
  -1 <= a <= 1 -> -1 <= b <= 1 ->
  exists v, combine_cf a b = Ok v /\ -1 <= v <= 1.
Proof.
  intros Ha Hb. unfold combine_cf.
  destruct (fleb fzero a && fleb fzero b) eqn:Hpos.
  - apply andb_true_iff in Hpos. rewrite !exact_fleb in Hpos. cbn [fzero exact] in Hpos.
    eexists. split; [reflexivity|].
    cbn [fadd fmul fsub fone exact]. rewrite !Qred_correct. nra.
  - destruct (fleb a fzero && fleb b fzero) eqn:Hneg.
    + apply andb_true_iff in Hneg. rewrite !exact_fleb in Hneg. cbn [fzero exact] in Hneg.
      eexists. split; [reflexivity|].
      cbn [fadd fmul fsub fone exact]. rewrite !Qred_correct. nra.
    + cbv zeta. unfold py_div.
      destruct (feqb (fsub fone (py_min (fabs a) (fabs b))) fzero) eqn:Hd.
      * exists 0. split; [reflexivity | lra].
      * eexists. split; [reflexivity|].
        apply exact_feqb_false in Hd.
        cbn [fquot fadd fsub fone fzero exact] in *. rewrite !Qred_correct in *.
        rewrite exact_min_abs in *.
        destruct (exact_mixed_signs _ _ Hpos Hneg) as [[Hs1 Hs2]|[Hs1 Hs2]].
        -- rewrite (Qabs_neg a) in * by lra. rewrite (Qabs_pos b) in * by lra.
           destruct (Q.min_spec (- a) b) as [[Hlt Hm]|[Hle Hm]];
             rewrite Hm in *; apply div_in_unit; lra.
        -- rewrite (Qabs_pos a) in * by lra. rewrite (Qabs_neg b) in * by lra.
           destruct (Q.min_spec a (- b)) as [[Hlt Hm]|[Hle Hm]];
             rewrite Hm in *; apply div_in_unit; lra.
Qed.

Lemma exact_variants_cases (a b : Exact.t) :
  App.combine_cf a b = combine_cf a b \/
  (App.combine_cf a b = Raise ZeroDivisionError /\
   combine_cf a b = Ok 0 /\
   ((a < 0 /\ 0 < b) \/ (0 < a /\ b < 0)) /\
   Qmin (Qabs a) (Qabs b) == 1).
Proof.
  unfold App.combine_cf, combine_cf.
  destruct (fleb fzero a && fleb fzero b) eqn:Hpos; [now left|].
  destruct (fltb a fzero && fltb b fzero) eqn:Hstrict.
  - left. apply andb_true_iff in Hstrict. rewrite !exact_fltb in Hstrict.
    destruct Hstrict as [H1 H2].
    assert (Hn : fleb a fzero && fleb b fzero = true).
    { apply andb_true_iff. rewrite !exact_fleb. split; now apply Qlt_le_weak. }
    now rewrite Hn.
  - destruct (fleb a fzero && fleb b fzero) eqn:Hneg.
    + left. apply andb_true_iff in Hneg. rewrite !exact_fleb in Hneg.
      apply andb_false_iff in Hpos, Hstrict.
      rewrite !exact_fleb_false in Hpos. rewrite !exact_fltb_false in Hstrict.
      cbn [fzero exact] in *.
      assert (Hm : py_min (fabs a) (fabs b) == 0).
      { rewrite exact_min_abs.
        destruct Hstrict as [H0|H0].
        - assert (Ha : a == 0) by lra. rewrite Ha. simpl (Qabs 0).
          apply Q.min_l. apply Qabs_nonneg.
        - assert (Hb : b == 0) by lra. rewrite Hb. simpl (Qabs 0).
          apply Q.min_r. apply Qabs_nonneg. }
      unfold py_div.
      assert (Hd : feqb (fsub fone (py_min (fabs a) (fabs b))) fzero = false).
      { apply exact_feqb_false. cbn [fsub fone fzero exact].
        rewrite Qred_correct, Hm. lra. }
      rewrite Hd. f_equal.
      cbn [fquot fadd fmul fsub fone exact]. apply Qred_complete.
      rewrite !Qred_correct, Hm.
      destruct Hstrict as [H0|H0].
      * assert (Ha : a == 0) by lra. rewrite Ha. field.
      * assert (Hb : b == 0) by lra. rewrite Hb. field.
    + cbv zeta. unfold py_div.
      destruct (feqb (fsub fone (py_min (fabs a) (fabs b))) fzero) eqn:Hd; [|now left].
      right. repeat split.
      * exact (exact_mixed_signs _ _ Hpos Hneg).
      * apply exact_feqb in Hd. cbn [fsub fone fzero exact] in Hd.
        rewrite Qred_correct, exact_min_abs in Hd. lra.
Qed.
(** X11. The two variants of the combination, [combine_cf] of [engine.py]
    (negative branch on [<= 0], guarded division) and
    [ExpertSystem.combine_cf] of [app.py] (negative branch on [< 0],
    unguarded division), agree on exact rationals wherever the second does
    not raise, the boundary at zero included; it raises ZeroDivisionError
    exactly when the signs are opposite and the smaller magnitude is 1,
    where the first returns 0. *)
Theorem combine_cf_variants_agree (a b : Exact.t) :
  (App.combine_cf a b = combine_cf a b \/
   (App.combine_cf a b = Raise ZeroDivisionError /\ combine_cf a b = Ok 0)) /\
  (App.combine_cf a b = Raise ZeroDivisionError <->
   ((a < 0 /\ 0 < b) \/ (0 < a /\ b < 0)) /\ Qmin (Qabs a) (Qabs b) == 1).
Proof.
  destruct (exact_variants_cases a b) as [Heq|(Hr & H0 & Hs & Hm)].
  - split; [now left|]. split.
    + intros Hr. rewrite Heq in Hr.
      destruct (combine_cf_total a b) as [v Hv]. congruence.
    + intros [Hs Hm]. exfalso.
      assert (Hd : feqb (fsub fone (py_min (fabs a) (fabs b))) fzero = true).
      { apply exact_feqb. cbn [fsub fone fzero exact].
        rewrite Qred_correct, exact_min_abs, Hm. reflexivity. }
      assert (Hp : fleb fzero a && fleb fzero b = false).
      { apply andb_false_iff. rewrite !exact_fleb_false. cbn [fzero exact].
        destruct Hs as [[? ?]|[? ?]]; [now left | now right]. }
      assert (Hn : fltb a fzero && fltb b fzero = false).
      { apply andb_false_iff. rewrite !exact_fltb_false. cbn [fzero exact].
        destruct Hs as [[? ?]|[? ?]]; [right | left]; now apply Qlt_le_weak. }
      revert Heq. unfold App.combine_cf. rewrite Hp, Hn. unfold py_div. rewrite Hd.
      destruct (combine_cf_total a b) as [v ->]. discriminate.
  - split; [right; now split|]. split; [now intros _ | now intros _].
Qed.

(** X12. On exact rationals, 0 is neutral for the combination and
    certainty absorbs: [combine_cf(a, 0)] and [combine_cf(0, a)] are [a],
    [combine_cf(1, a)] is 1 for every [a > -1] and [combine_cf(-1, a)] is
    -1 for every [a < 1]. *)
Theorem exact_combine_cf_neutral_absorbing (a : Exact.t) :
  (exists v, combine_cf a 0 = Ok v /\ v == a) /\
  (exists v, combine_cf 0 a = Ok v /\ v == a) /\
  (-1 < a -> exists v, combine_cf 1 a = Ok v /\ v == 1) /\
  (a < 1 -> exists v, combine_cf (-1) a = Ok v /\ v == -1).
Proof.
  assert (Hmix1 : forall x : Q, -1 < x -> x < 0 ->
             exists v, combine_cf 1 x = Ok v /\ v == 1).
  { intros x Hl Hu. unfold combine_cf, py_div.
    assert (Hp : fleb fzero 1 && fleb fzero x = false).
    { apply andb_false_iff. right. now apply exact_fleb_false. }
    assert (Hn : fleb 1 fzero && fleb x fzero = false).
    { apply andb_false_iff. left. apply exact_fleb_false. reflexivity. }
    assert (Hm : py_min (fabs 1) (fabs x) == - x).
    { rewrite exact_min_abs, (Qabs_neg x) by lra. simpl (Qabs 1).
      apply Q.min_r. lra. }
    assert (Hd : feqb (fsub fone (py_min (fabs 1) (fabs x))) fzero = false).
    { apply exact_feqb_false. cbn [fsub fone fzero exact].
      rewrite Qred_correct, Hm. lra. }
    rewrite Hp, Hn. cbv zeta. rewrite Hd. eexists. split; [reflexivity|].
    cbn [fquot fadd fsub fone exact]. rewrite !Qred_correct, Hm. field. lra. }
  assert (Hmix2 : forall x : Q, 0 < x -> x < 1 ->
             exists v, combine_cf (-1) x = Ok v /\ v == -1).
  { intros x Hl Hu. unfold combine_cf, py_div.
    assert (Hp : fleb fzero (-1) && fleb fzero x = false).
    { apply andb_false_iff. left. apply exact_fleb_false. reflexivity. }
    assert (Hn : fleb (-1) fzero && fleb x fzero = false).
    { apply andb_false_iff. right. now apply exact_fleb_false. }
    assert (Hm : py_min (fabs (-1)) (fabs x) == x).
    { rewrite exact_min_abs, (Qabs_pos x) by lra. simpl (Qabs (-1)).
      apply Q.min_r. lra. }
    assert (Hd : feqb (fsub fone (py_min (fabs (-1)) (fabs x))) fzero = false).
    { apply exact_feqb_false. cbn [fsub fone fzero exact].
      rewrite Qred_correct, Hm. lra. }
    rewrite Hp, Hn. cbv zeta. rewrite Hd. eexists. split; [reflexivity|].
    cbn [fquot fadd fsub fone exact]. rewrite !Qred_correct, Hm. field. lra. }
  assert (Hsame : forall x y : Q,
             exists v, combine_cf x y = Ok v /\
               ((0 <= x /\ 0 <= y -> v == x + y * (1 - x)) /\
                (~ (0 <= x /\ 0 <= y) -> x <= 0 /\ y <= 0 -> v == x + y * (1 + x)))).
  { intros x y. unfold combine_cf.
    destruct (fleb fzero x && fleb fzero y) eqn:Hp.
    - eexists. split; [reflexivity|]. split.
      + intros _. cbn [fadd fmul fsub fone exact]. rewrite !Qred_correct. reflexivity.
      + intros Hnot. exfalso. apply Hnot.
        apply andb_true_iff in Hp. now rewrite !exact_fleb in Hp.
    - destruct (fleb x fzero && fleb y fzero) eqn:Hn.
      + eexists. split; [reflexivity|]. split.
        * intros Hyes. exfalso. apply andb_false_iff in Hp.
          rewrite !exact_fleb_false in Hp. cbn [fzero exact] in Hp.
          destruct Hyes, Hp; lra.
        * intros _ _. cbn [fadd fmul fsub fone exact]. rewrite !Qred_correct.
          reflexivity.
      + destruct (combine_cf_total x y) as [v Hv]. unfold combine_cf in Hv.
        rewrite Hp, Hn in Hv. exists v. split; [exact Hv|]. split.
        * intros Hyes. exfalso. apply andb_false_iff in Hp.
          rewrite !exact_fleb_false in Hp. cbn [fzero exact] in Hp.
          destruct Hyes, Hp; lra.
        * intros _ Hyes. exfalso. apply andb_false_iff in Hn.
          rewrite !exact_fleb_false in Hn. cbn [fzero exact] in Hn.
          destruct Hyes, Hn; lra. }
  repeat split.
  - destruct (Hsame a 0) as (v & Hv & H1 & H2). exists v. split; [exact Hv|].
    destruct (Qlt_le_dec a 0) as [Hlt|Hge].
    + rewrite H2; [ring | lra | lra].
    + rewrite H1; [ring | lra].
  - destruct (Hsame 0 a) as (v & Hv & H1 & H2). exists v. split; [exact Hv|].
    destruct (Qlt_le_dec a 0) as [Hlt|Hge].
    + rewrite H2; [ring | lra | lra].
    + rewrite H1; [ring | lra].
  - intros Ha. destruct (Qlt_le_dec a 0) as [Hlt|Hge]; [now apply Hmix1|].
    destruct (Hsame 1 a) as (v & Hv & H1 & _). exists v. split; [exact Hv|].
    rewrite H1; [ring | lra].
  - intros Ha. destruct (Qlt_le_dec 0 a) as [Hlt|Hge]; [now apply Hmix2|].
    destruct (Hsame (-1) a) as (v & Hv & _ & H2). exists v. split; [exact Hv|].
    rewrite H2; [ring | lra | lra].
Qed.
End CombineExactRange.

(** ** app.py: the loop and the request handler *)

Section AppExtra.
Context {F : Type} `{PyFloat F}.
Import App.

Lemma app_passes_more_fuel (rules : list (rule F)) (fuel fuel' : nat) (st : state F)
      (out : result (state F)) :
  passes fuel rules st = Some out -> fuel <= fuel' ->
  passes fuel' rules st = Some out.
Proof.
  revert fuel' st. induction fuel as [|fuel IH]; intros fuel' st; simpl;
    [discriminate|].
  intros Hp Hle. destruct fuel' as [|fuel']; [lia|]. simpl.
  destruct (fire_rules rules (reset_fired st)) as [st1|e]; [|assumption].
  destruct (rules_fired st1); [|assumption].
  apply IH; [assumption | lia].
Qed.

(** X13. The loop of [ExpertSystem.forward_chaining] ends on every knowledge
    base and every input, by returning or by raising, after at most one pass
    more than there are rules. *)
Theorem app_loop_ends (kb : knowledge_base F) (facts : list (string * F)) :
  exists out,
    forall fuel, List.length (kb_rules kb) < fuel ->
                 forward_chaining fuel kb facts = Some out.
Proof.
  destruct (passes (S (List.length (kb_rules kb))) (kb_rules kb) (initial_state kb facts))
    as [out|] eqn:E.
  - exists (match out with
            | Ok st => Ok (cf_facts st, trace st)
            | Raise e => Raise e
            end).
    intros fuel Hfuel. unfold forward_chaining.
    rewrite (@app_passes_more_fuel _ _ fuel _ _ E) by lia.
    now destruct out.
  - exfalso. revert E. apply app_passes_end.
    + apply app_initial_invariant.
    + simpl. lia.
Qed.

Lemma app_fire_rules_raise (r : rule F) :
  r_if r = [] ->
  forall rules (st : state F),
    NoDup (map (@r_id F) rules) -> In r rules ->
    (forall t, In t (trace st) -> ~ In (t_rule_id t) (map (@r_id F) rules)) ->
    exists e, fire_rules rules st = Raise e.
Proof.
  intros Hnil. induction rules as [|r0 rest IH]; intros st Hnd Hin Htr; [destruct Hin|].
  inversion Hnd as [|? ? Hnin Hnd']; subst. simpl.
  destruct Hin as [->|Hin].
  - assert (Hskip : dict_mem (r_then r) (cf_facts st) && in_trace (r_id r) (trace st)
                    = false).
    { apply andb_false_iff. right.
      destruct (in_trace (r_id r) (trace st)) eqn:E; [|reflexivity].
      apply in_trace_In in E. destruct E as (t & Ht & Hid).
      exfalso. apply (Htr t Ht). rewrite Hid. now left. }
    rewrite (app_empty_antecedents_raise _ _ Hnil Hskip). simpl. eauto.
  - destruct (fire_rule st r0) as [st1|e] eqn:E; simpl; [|eauto].
    apply IH; try assumption.
    destruct (app_fire_rule_cases _ _ E) as [->|(_ & t & new & Hkey & ->)].
    + intros t Ht Hid. apply (Htr t Ht). now right.
    + simpl. intros t0 Ht0 Hid. apply in_app_or in Ht0.
      destruct Ht0 as [Ht0|[<-|[]]].
      * apply (Htr t0 Ht0). now right.
      * injection Hkey as Hk _. rewrite Hk in Hid. contradiction.
Qed.

(** X14. A rule with an empty antecedent list makes
    [ExpertSystem.forward_chaining] raise on every input (the rule ids being
    unique): its first pass reaches [min] of the empty list, unless an
    earlier rule has raised before; [engine.py] passes such a rule over. *)
Theorem app_rule_without_antecedents_raises (kb : knowledge_base F)
        (facts : list (string * F)) (r : rule F) (fuel : nat) :
  NoDup (map (@r_id F) (kb_rules kb)) ->
  In r (kb_rules kb) ->
  r_if r = [] ->
  exists e, forward_chaining (S fuel) kb facts = Some (Raise e).
Proof.
  intros Hnd Hin Hnil. unfold forward_chaining. simpl.
  destruct (@app_fire_rules_raise r Hnil (kb_rules kb)
              (reset_fired (initial_state kb facts)) Hnd Hin) as [e He].
  - intros t [].
  - rewrite He. eauto.
Qed.

Lemma app_fire_rules_reachable (rules all : list (rule F)) (st0 st st' : state F) :
  incl rules all -> reachable all st0 st -> fire_rules rules st = Ok st' ->
  reachable all st0 st'.
Proof.
  revert st. induction rules as [|r rest IH]; intros st Hincl Hr; simpl.
  - now intros [= <-].
  - destruct (fire_rule st r) as [st1|] eqn:E; simpl; [|discriminate].
    apply IH.
    + intros x Hx. apply Hincl. now right.
    + eapply reach_fire; eauto. apply Hincl. now left.
Qed.

Lemma app_passes_reachable (fuel : nat) (rules : list (rule F)) (st0 st st' : state F) :
  reachable rules st0 st -> passes fuel rules st = Some (Ok st') ->
  reachable rules st0 st'.
Proof.
  revert st. induction fuel as [|fuel IH]; intros st Hr; simpl; [discriminate|].
  destruct (fire_rules rules (reset_fired st)) as [st1|] eqn:E; [|discriminate].
  assert (Hr1 : reachable rules st0 st1).
  { eapply app_fire_rules_reachable;
      [apply incl_refl | apply reach_pass; exact Hr | exact E]. }
  destruct (rules_fired st1); [now apply IH | now intros [= <-]].
Qed.

Lemma app_seed_keys (kb : knowledge_base F) (facts : list (string * F)) (k : string) :
  In k (dict_keys (seed_facts kb facts)) <-> In k (map fst facts).
Proof.
  unfold seed_facts.
  assert (G : forall acc,
             In k (dict_keys (fold_left
               (fun d '(code, user_cf) => dict_set code (calculate_cf kb user_cf code) d)
               facts acc)) <->
             In k (dict_keys acc) \/ In k (map fst facts)).
  { induction facts as [|[code cf] rest IH]; intros acc; simpl; [tauto|].
    rewrite IH, <- !dict_mem_keys, dict_mem_set, orb_true_iff, String.eqb_eq. tauto. }
  rewrite G. simpl. tauto.
Qed.

(** The codes of the fact store are those it started with and the
    conclusions of the trace records. *)
Lemma app_store_keys (rules : list (rule F)) (st0 st : state F) (k : string) :
  reachable rules st0 st -> trace st0 = [] ->
  (In k (dict_keys (cf_facts st)) <->
   In k (dict_keys (cf_facts st0)) \/ In k (map (@t_then F) (trace st))).
Proof.
  intros Hr H0. induction Hr as [|st st' r Hr IH Hin Hf|st Hr IH].
  - rewrite H0. simpl. tauto.
  - destruct (app_fire_rule_cases _ _ Hf) as [->|(_ & t & new & Hkey & ->)];
      [exact IH|].
    simpl. rewrite map_app, in_app_iff. simpl.
    rewrite <- (dict_mem_keys k (dict_set _ _ _)), dict_mem_set.
    rewrite orb_true_iff, String.eqb_eq, dict_mem_keys, IH.
    injection Hkey as _ Hthen. rewrite Hthen. tauto.
  - exact IH.
Qed.

Variable float_of_str : string -> option F.
Variable str_of_float : F -> string.

Lemma read_symptom_inv (f : form) (acc out : dict F * dict string) (code : string) :
  read_symptom float_of_str str_of_float f acc code = Ok out ->
  let cf_user := submitted_confidence float_of_str f code in
  exists label,
    first_label float_of_str CONF_LABELS cf_user (str_of_float cf_user) = Ok label /\
    out = (dict_set code cf_user (fst acc), dict_set code label (snd acc)).
Proof.
  unfold read_symptom. fold (submitted_confidence float_of_str f code).
  cbv zeta.
  destruct (first_label float_of_str CONF_LABELS _ _) as [label|e];
    cbn [bind]; [|discriminate].
  intros [= <-]. now exists label.
Qed.

Lemma read_symptoms_other (f : form) (code : string) (sel : list string) :
  forall a fs ls,
    read_symptoms float_of_str str_of_float f sel a = Ok (fs, ls) ->
    ~ In code sel ->
    dict_get code fs = dict_get code (fst a) /\
    dict_get code ls = dict_get code (snd a).
Proof.
  induction sel as [|c sel IHs]; intros a fs ls; cbn [read_symptoms].
  - intros [= ->] _. now split.
  - destruct (read_symptom float_of_str str_of_float f a c) as [a'|e] eqn:E;
      cbn [bind]; [|discriminate].
    destruct (@read_symptom_inv _ _ _ _ E) as (label & _ & ->).
    intros Hr Hn. destruct (@IHs _ _ _ Hr) as [H1 H2]; [intros Hin; apply Hn; now right|].
    cbn [fst snd] in H1, H2. rewrite H1, H2.
    split; apply dict_get_set_neq; intros ->; apply Hn; now left.
Qed.

(** What the loop over the selected symptoms builds. *)
Lemma read_symptoms_spec (f : form) (selected : list string) :
  forall acc facts labels,
    read_symptoms float_of_str str_of_float f selected acc = Ok (facts, labels) ->
    (forall k, In k (dict_keys facts) <-> In k (dict_keys (fst acc)) \/ In k selected) /\
    (forall k, In k (dict_keys labels) <-> In k (dict_keys (snd acc)) \/ In k selected) /\
    (forall code, In code selected ->
       let cf_user := submitted_confidence float_of_str f code in
       dict_get code facts = Some cf_user /\
       exists label,
         first_label float_of_str CONF_LABELS cf_user (str_of_float cf_user) = Ok label /\
         dict_get code labels = Some label).
Proof.
  induction selected as [|code rest IH]; intros acc facts labels; cbn [read_symptoms].
  - intros [= ->]. cbn [fst snd In]. repeat split; tauto.
  - destruct (read_symptom float_of_str str_of_float f acc code) as [acc'|e] eqn:E;
      cbn [bind]; [|discriminate].
    destruct (@read_symptom_inv _ _ _ _ E) as (label & Hlab & ->).
    intros Hrest. destruct (IH _ _ _ Hrest) as (Hk1 & Hk2 & Hval).
    cbn [fst snd] in Hk1, Hk2.
    split; [|split].
    + intros k. rewrite Hk1, <- !dict_mem_keys, dict_mem_set, orb_true_iff,
        String.eqb_eq. cbn [In]. tauto.
    + intros k. rewrite Hk2, <- !dict_mem_keys, dict_mem_set, orb_true_iff,
        String.eqb_eq. cbn [In]. tauto.
    + intros c Hc.
      destruct (in_dec string_dec c rest) as [Hin|Hnin]; [now apply Hval|].
      destruct Hc as [<-|Hc]; [|contradiction].
      destruct (@read_symptoms_other f code rest _ _ _ Hrest Hnin) as [H1 H2].
      cbn [fst snd] in H1, H2. cbv zeta.
      rewrite H1, H2, !dict_get_set_eq. split; [reflexivity|]. now exists label.
Qed.

(** X15. [infer] reads one confidence per selected symptom: for every
    selected code, the input facts hold the value of the field
    [confidence_<code>] (["1.0"] when the form has no such field) as [float]
    reads it, and 1.0 when [float] rejects it; the label of the code is the
    first of [CONF_LABELS] whose value equals that confidence, and
    [str] of the confidence when none does; and the input facts and the
    labels have the selected codes as keys, and no other. *)
Theorem infer_reads_confidences (fuel : nat) (kb : knowledge_base F) (f : form)
        (pg : page F) (code : string) :
  infer float_of_str str_of_float fuel kb f = Some (Ok pg) ->
  p_input_selected pg = form_getlist "symptom" f /\
  (In code (dict_keys (p_input_facts pg)) <-> In code (p_input_selected pg)) /\
  (In code (dict_keys (p_input_labels pg)) <-> In code (p_input_selected pg)) /\
  (In code (p_input_selected pg) ->
   let cf_user := submitted_confidence float_of_str f code in
   dict_get code (p_input_facts pg) = Some cf_user /\
   exists label,
     first_label float_of_str CONF_LABELS cf_user (str_of_float cf_user) = Ok label /\
     dict_get code (p_input_labels pg) = Some label).
Proof.
  unfold infer.
  destruct (read_symptoms float_of_str str_of_float f (form_getlist "symptom" f) ([], []))
    as [[facts labels]|e] eqn:Hread; [|discriminate].
  destruct (forward_chaining fuel kb facts) as [[[out tr]|e]|]; try discriminate.
  intros [= <-]. simpl.
  destruct (@read_symptoms_spec _ _ _ _ _ Hread) as (Hk1 & Hk2 & Hval). simpl in Hk1, Hk2.
  split; [reflexivity|]. split; [rewrite Hk1; tauto|]. split; [rewrite Hk2; tauto|].
  apply Hval.
Qed.

Lemma non_symptoms_keys (facts : dict F) (k : string) :
  In k (dict_keys (non_symptoms facts)) <->
  In k (dict_keys facts) /\ starts_with "G"%char k = false.
Proof.
  unfold non_symptoms, dict_keys. rewrite !in_map_iff. split.
  - intros ([k' v] & <- & Hin). apply filter_In in Hin. destruct Hin as [Hin Hg].
    simpl in *. split; [now exists (k', v) | now apply negb_true_iff].
  - intros [([k' v] & <- & Hin) Hg]. exists (k', v). split; [reflexivity|].
    apply filter_In. split; [assumption|]. simpl in *. now rewrite Hg.
Qed.

(** X16. What [infer] shows as conclusions: the facts of the result whose
    code does not start with [G], each with its CF.  When every selected
    code starts with [G], the conclusions are the conclusions of the trace
    records that do not start with [G]: every conclusion shown has a record
    that explains it, and a derived fact whose code starts with [G] is not
    shown. *)
Theorem infer_conclusions_explained (fuel : nat) (kb : knowledge_base F) (f : form)
        (pg : page F) (k : string) :
  infer float_of_str str_of_float fuel kb f = Some (Ok pg) ->
  (forall code, In code (p_input_selected pg) -> starts_with "G"%char code = true) ->
  (In k (dict_keys (p_conclusions pg)) <->
   In k (map (@t_then F) (p_trace pg)) /\ starts_with "G"%char k = false).
Proof.
  unfold infer.
  destruct (read_symptoms float_of_str str_of_float f (form_getlist "symptom" f) ([], []))
    as [[facts labels]|e] eqn:Hread; [|discriminate].
  unfold forward_chaining.
  destruct (passes fuel (kb_rules kb) (initial_state kb facts)) as [[st|e]|] eqn:E;
    try discriminate.
  intros [= <-]. simpl. intros Hsel.
  destruct (@read_symptoms_spec _ _ _ _ _ Hread) as (Hk1 & _ & _). simpl in Hk1.
  assert (Hr : reachable (kb_rules kb) (initial_state kb facts) st)
    by (eapply app_passes_reachable; [apply reach_start | exact E]).
  rewrite non_symptoms_keys, (app_store_keys k Hr eq_refl). simpl.
  rewrite app_seed_keys.
  split; [|tauto].
  intros [[Hin|Hin] Hg]; [|tauto].
  exfalso.
  assert (Hin' : In k (form_getlist "symptom" f)).
  { change (In k (dict_keys facts)) in Hin. apply Hk1 in Hin.
    destruct Hin as [[]|Hin]. exact Hin. }
  rewrite (Hsel k Hin') in Hg. discriminate.
Qed.
End AppExtra.

(** ** The two loaders of the knowledge base *)

Section Loaders.
Context {J E : Type}.
Implicit Types (fs : filesystem J E).

Lemma path_join_nonempty (a b : string) :
  is_empty b = false -> is_empty (path_join a b) = false.
Proof.
  unfold path_join. intros Hb.
  destruct (starts_with "/" b); [assumption|].
  destruct (is_empty a || ends_with "/" a).
  - destruct a; simpl; [assumption | reflexivity].
  - destruct a; reflexivity.
Qed.

Lemma candidates_nonempty (base_dir : string) (path : option string) :
  Forall (fun p => is_empty p = false) (Engine.candidates base_dir path).
Proof.
  unfold Engine.candidates. apply Forall_app. split.
  - destruct path as [p|]; [|constructor].
    destruct (is_empty p) eqn:Eq0; [constructor|].
    repeat constructor; [assumption | now apply path_join_nonempty].
  - simpl. repeat constructor; now apply path_join_nonempty.
Qed.

Lemma try_candidates_skip fs (pre rest : list string) :
  Forall (fun q => fs q = NotFound) pre ->
  Engine.try_candidates fs (pre ++ rest) = Engine.try_candidates fs rest.
Proof.
  induction 1 as [|q pre Hq Hpre IH]; simpl; [reflexivity|].
  rewrite Hq. now destruct (is_empty q).
Qed.

Lemma try_candidates_none fs (ps : list string) :
  Forall (fun p => is_empty p = false) ps ->
  (Engine.try_candidates fs ps = None <-> Forall (fun q => fs q = NotFound) ps).
Proof.
  induction 1 as [|p ps Hp Hps IH]; simpl.
  - split; [constructor | reflexivity].
  - rewrite Hp. destruct (fs p) eqn:Eq0.
    + rewrite IH. split; [now constructor | now inversion 1].
    + split; [discriminate | inversion 1; congruence].
    + split; [discriminate | inversion 1; congruence].
    + split; [discriminate | inversion 1; congruence].
    + split; [discriminate | inversion 1; congruence].
Qed.

(** X17. [load_kb] stops at the first candidate that is not missing,
    whatever the later candidates hold: it returns the document of that
    file when [json.load] parses it, and otherwise raises what [open] or
    [json.load] raised there, unchanged: the JSONDecodeError of a malformed
    file, which it catches and raises again, and any other exception of
    [json.load] (UnicodeDecodeError on a file that is not UTF-8) or of
    [open] (other than FileNotFoundError), which it does not catch. *)
Theorem load_kb_first_present fs (base_dir : string) (path : option string)
        (pre post : list string) (p : string) :
  Engine.candidates base_dir path = pre ++ p :: post ->
  Forall (fun q => fs q = NotFound) pre ->
  (forall j, fs p = Parsed j -> Engine.load_kb fs base_dir path = Loaded j) /\
  (fs p = Malformed ->
   Engine.load_kb fs base_dir path = LoadRaise JSONDecodeError) /\
  (forall e, fs p = ReadError e ->
   Engine.load_kb fs base_dir path = LoadRaise (Uncaught e)) /\
  (forall e, fs p = OpenError e ->
   Engine.load_kb fs base_dir path = LoadRaise (Uncaught e)).
Proof.
  intros Hc Hpre.
  assert (Hp : is_empty p = false).
  { pose proof (candidates_nonempty base_dir path) as Hall. rewrite Hc in Hall.
    apply Forall_app in Hall. destruct Hall as [_ Hall]. now inversion Hall. }
  unfold Engine.load_kb. rewrite Hc, (try_candidates_skip fs _ Hpre). simpl.
  rewrite Hp. repeat split.
  - now intros j ->.
  - now intros ->.
  - now intros e ->.
  - now intros e ->.
Qed.

(** X18. [load_kb] raises FileNotFoundError exactly when every candidate is
    missing, and the message lists the candidates in the order they were
    tried: the path given and the path under the directory of [engine.py]
    when a path that is not empty is given, then [rules_combined.json] and
    [rules.json], each under that directory first. *)
Theorem load_kb_not_found fs (base_dir : string) (path : option string)
        (msg : string) :
  (Engine.load_kb fs base_dir path = LoadRaise (FileNotFoundError msg) <->
   Forall (fun q => fs q = NotFound) (Engine.candidates base_dir path) /\
   msg = Engine.not_found_message (Engine.candidates base_dir path)) /\
  Engine.candidates base_dir path =
    (match path with
     | None => []
     | Some p => if is_empty p then [] else [p; path_join base_dir p]
     end) ++
    [ path_join base_dir "rules_combined.json"; "rules_combined.json";
      path_join base_dir "rules.json"; "rules.json" ]%string.
Proof.
  split; [|reflexivity].
  unfold Engine.load_kb.
  pose proof (try_candidates_none fs (candidates_nonempty base_dir path)) as Hnone.
  destruct (Engine.try_candidates fs (Engine.candidates base_dir path))
    as [out|] eqn:Eq0.
  - split.
    + intros ->. exfalso. clear Hnone.
      induction (Engine.candidates base_dir path) as [|p ps IH]; simpl in Eq0;
        [discriminate|].
      destruct (is_empty p); [auto|]. destruct (fs p); auto; discriminate.
    + intros [Hall _]. apply Hnone in Hall. discriminate.
  - split.
    + intros [= <-]. split; [now apply Hnone | reflexivity].
    + now intros [_ ->].
Qed.

Lemma try_paths_skip fs (pre rest : list string) :
  Forall (fun q => fs q = NotFound) pre ->
  App.try_paths fs (pre ++ rest) = App.try_paths fs rest.
Proof.
  induction 1 as [|q pre Hq Hpre IH]; simpl; [reflexivity|]. now rewrite Hq.
Qed.

Lemma try_paths_none fs (ps : list string) :
  App.try_paths fs ps = None <-> Forall (fun q => fs q = NotFound) ps.
Proof.
  induction ps as [|p ps IH]; simpl.
  - split; [constructor | reflexivity].
  - destruct (fs p) eqn:Eq0.
    + rewrite IH. split; [now constructor | now inversion 1].
    + split; [discriminate | inversion 1; congruence].
    + split; [discriminate | inversion 1; congruence].
    + split; [discriminate | inversion 1; congruence].
    + split; [discriminate | inversion 1; congruence].
Qed.

(** X19. [ExpertSystem.load_knowledge_base] tries the file name as given,
    then under the directory of [app.py], under its parent and under its
    absolute directory, and stops at the first path that is not missing: it
    prints one line naming that path once the file is open, and then returns
    the document or lets through, unchanged, whatever [json.load] raised
    (JSONDecodeError for a malformed file, UnicodeDecodeError for one that is
    not UTF-8, or any other exception); an exception of [open] other than
    FileNotFoundError is let through with nothing printed; and when the four
    paths are missing it raises a plain [Exception] whose message lists
    them, with nothing printed. *)
Theorem load_knowledge_base_first_present fs (file_dir abs_dir filename : string)
        (pre post : list string) (p : string) :
  let paths := [ filename; path_join file_dir filename;
                 path_join (path_join file_dir "..") filename;
                 path_join abs_dir filename ] in
  (paths = pre ++ p :: post ->
   Forall (fun q => fs q = NotFound) pre ->
   (forall j, fs p = Parsed j ->
      App.load_knowledge_base fs file_dir abs_dir filename =
      ([("Loading knowledge base from: " ++ p)%string], Loaded j)) /\
   (fs p = Malformed ->
      App.load_knowledge_base fs file_dir abs_dir filename =
      ([("Loading knowledge base from: " ++ p)%string], LoadRaise JSONDecodeError)) /\
   (forall e, fs p = ReadError e ->
      App.load_knowledge_base fs file_dir abs_dir filename =
      ([("Loading knowledge base from: " ++ p)%string], LoadRaise (Uncaught e))) /\
   (forall e, fs p = OpenError e ->
      App.load_knowledge_base fs file_dir abs_dir filename =
      ([], LoadRaise (Uncaught e)))) /\
  (Forall (fun q => fs q = NotFound) paths ->
   App.load_knowledge_base fs file_dir abs_dir filename =
   ([], LoadRaise (PlainException (App.not_found_message filename paths)))).
Proof.
  cbv zeta. unfold App.load_knowledge_base, App.possible_paths. split.
  - intros Hc Hpre. rewrite Hc, (try_paths_skip fs _ Hpre). simpl. repeat split.
    + now intros j ->.
    + now intros ->.
    + now intros e ->.
    + now intros e ->.
  - intros Hall. apply try_paths_none in Hall. now rewrite Hall.
Qed.

(** X20. The two loaders do not look in the same place first.  With a
    [rules_combined.json] in the working directory and another one in the
    directory of the module, [load_kb()] of [engine.py] loads the one of the
    module directory and [ExpertSystem()] of [app.py] the one of the working
    directory. *)
Theorem loaders_prefer_different_directories fs (base_dir file_dir abs_dir : string)
        (a b : J) :
  fs "rules_combined.json"%string = Parsed a ->
  fs (path_join base_dir "rules_combined.json") = Parsed b ->
  Engine.load_kb fs base_dir None = Loaded b /\
  App.expert_system fs file_dir abs_dir =
    (["Loading knowledge base from: rules_combined.json"%string], Loaded a).
Proof.
  intros Ha Hb. split.
  - unfold Engine.load_kb. simpl.
    rewrite (path_join_nonempty base_dir "rules_combined.json" eq_refl), Hb.
    reflexivity.
  - unfold App.expert_system, App.load_knowledge_base. simpl. rewrite Ha. reflexivity.
Qed.
End Loaders.

(** ** app.py: what the trace says *)

Section AppTrace.
Context {F : Type} `{PyFloat F}.
Import App.

Lemma antecedent_values_found (facts : dict F) (ants : list string) (vs : list F) :
  antecedent_values facts ants = Ok vs ->
  Forall2 (fun a v => dict_get a facts = Some v) ants vs.
Proof.
  revert vs. induction ants as [|a ants IH]; intros vs; simpl.
  - intros [= <-]. constructor.
  - unfold dict_item. destruct (dict_get a facts) as [v|] eqn:E; simpl; [|discriminate].
    destruct (antecedent_values facts ants) as [vs'|e]; simpl; [|discriminate].
    intros [= <-]. constructor; auto.
Qed.

(** The loop body in full, when it does not raise. *)
Lemma app_fire_rule_inv (st st' : state F) (r : rule F) :
  fire_rule st r = Ok st' ->
  st' = st \/
  exists cfs c new,
    Forall2 (fun a v => dict_get a (cf_facts st) = Some v) (r_if r) cfs /\
    py_min_list cfs = Ok c /\
    (if dict_mem (r_then r) (cf_facts st)
     then combine_cf (dict_get_default (r_then r) fzero (cf_facts st))
                     (fmul (opt_default fone (r_cf r)) c) = Ok new
     else new = fmul (opt_default fone (r_cf r)) c) /\
    fltb feps6 (fabs (fsub new (dict_get_default (r_then r) fzero (cf_facts st)))) = true /\
    st' = {| cf_facts := dict_set (r_then r) new (cf_facts st);
             trace := trace st ++
               [ {| t_rule_id := r_id r;
                    t_if := r_if r;
                    t_then := r_then r;
                    t_antecedent_cfs := cfs;
                    t_rule_cf := opt_default fone (r_cf r);
                    t_old_cf := dict_get_default (r_then r) fzero (cf_facts st);
                    t_new_cf := new;
                    t_note := opt_default EmptyString (r_note r) |} ];
             rules_fired := true |}.
Proof.
  unfold fire_rule.
  destruct (dict_mem (r_then r) (cf_facts st) && in_trace (r_id r) (trace st));
    [intros [= <-]; now left|].
  destruct (negb (forallb _ (r_if r))); [intros [= <-]; now left|].
  destruct (antecedent_values (cf_facts st) (r_if r)) as [cfs|e] eqn:Hv; simpl;
    [|discriminate].
  destruct (py_min_list cfs) as [c|e] eqn:Hmin; simpl; [|discriminate].
  destruct (dict_mem (r_then r) (cf_facts st)) eqn:Hm.
  - destruct (combine_cf _ _) as [new|e] eqn:Hnew; simpl; [|discriminate].
    destruct (fltb feps6 _) eqn:Hc; intros [= <-]; [right|now left].
    exists cfs, c, new. repeat split; try assumption.
    now apply antecedent_values_found.
  - simpl. destruct (fltb feps6 _) eqn:Hc; intros [= <-]; [right|now left].
    exists cfs, c, (fmul (opt_default fone (r_cf r)) c).
    repeat split; try assumption. now apply antecedent_values_found.
Qed.

Lemma app_replay_snoc (facts : dict F) (tr : list (trace_item F)) (t : trace_item F) :
  replay facts (tr ++ [t]) = dict_set (t_then t) (t_new_cf t) (replay facts tr).
Proof. unfold replay. now rewrite fold_left_app. Qed.

Lemma app_reachable_chain (kb : knowledge_base F) (facts : list (string * F))
      (st : state F) :
  reachable (kb_rules kb) (initial_state kb facts) st ->
  cf_facts st = replay (seed_facts kb facts) (trace st) /\
  forall pre t post,
    trace st = pre ++ t :: post ->
    let before := replay (seed_facts kb facts) pre in
    Forall2 (fun a v => dict_get a before = Some v) (t_if t) (t_antecedent_cfs t) /\
    t_old_cf t = dict_get_default (t_then t) fzero before /\
    (exists min_cf,
        py_min_list (t_antecedent_cfs t) = Ok min_cf /\
        if dict_mem (t_then t) before
        then combine_cf (t_old_cf t) (fmul (t_rule_cf t) min_cf) = Ok (t_new_cf t)
        else t_new_cf t = fmul (t_rule_cf t) min_cf) /\
    fltb feps6 (fabs (fsub (t_new_cf t) (t_old_cf t))) = true.
Proof.
  intros Hr. induction Hr as [|st st' r Hr IH Hin Hf|st Hr IH].
  - split; [reflexivity|]. intros pre t post Heq. destruct pre; discriminate.
  - destruct IH as [Hcf Hchain].
    destruct (app_fire_rule_inv _ _ Hf)
      as [->|(cfs & c & new & Hall & Hmin & Hnew & Hc & ->)]; [now split|].
    simpl. split.
    + now rewrite app_replay_snoc, <- Hcf.
    + intros pre t post Heq.
      destruct (snoc_split _ _ _ _ _ Heq) as [(-> & -> & ->)|(post' & -> & Heq')].
      * simpl. rewrite <- Hcf. repeat split; try assumption. now exists c.
      * now apply (Hchain pre t post').
  - exact IH.
Qed.

(** X21. The trace of [ExpertSystem.forward_chaining] accounts for its
    result: the returned facts are the seeded facts with the records applied
    in order (each sets its conclusion to its new CF, neither clamped nor
    rounded); and for every record, the antecedent CFs are those of its
    antecedents after the records before it, its old CF is that of its
    conclusion then (0.0 when it has none), its new CF is the rule strength
    times the [min] of the antecedent CFs, combined with the old CF when the
    conclusion is already in the store, and the two differ by more than
    [1e-6]. *)
Theorem app_trace_replays_to_result (fuel : nat) (kb : knowledge_base F)
        (facts : list (string * F)) (cf : dict F) (tr : list (trace_item F)) :
  forward_chaining fuel kb facts = Some (Ok (cf, tr)) ->
  cf = replay (seed_facts kb facts) tr /\
  forall pre t post,
    tr = pre ++ t :: post ->
    let before := replay (seed_facts kb facts) pre in
    Forall2 (fun a v => dict_get a before = Some v) (t_if t) (t_antecedent_cfs t) /\
    t_old_cf t = dict_get_default (t_then t) fzero before /\
    (exists min_cf,
        py_min_list (t_antecedent_cfs t) = Ok min_cf /\
        if dict_mem (t_then t) before
        then combine_cf (t_old_cf t) (fmul (t_rule_cf t) min_cf) = Ok (t_new_cf t)
        else t_new_cf t = fmul (t_rule_cf t) min_cf) /\
    fltb feps6 (fabs (fsub (t_new_cf t) (t_old_cf t))) = true.
Proof.
  unfold forward_chaining.
  destruct (passes fuel (kb_rules kb) (initial_state kb facts)) as [[st|e]|] eqn:E;
    try discriminate.
  intros [= <- <-].
  apply app_reachable_chain.
  eapply app_passes_reachable; [apply reach_start | exact E].
Qed.
End AppTrace.

(** ** Rules without antecedents and malformed confidences, in the two
    programs *)

Section TwoPrograms.
Context {F : Type} `{PyFloat F}.

(** Seeding in [app.py] stops with TypeError at the first value that is no
    number. *)
Lemma app_seed_facts_obj_raise (kb : knowledge_base F)
      (pre post : list (string * pyobj F)) (code : string) (d : dict F) :
  App.seed_facts_obj kb (pre ++ (code, NonNumeric) :: post) d = Raise TypeError.
Proof.
  revert d. induction pre as [|[c o] pre IH]; intros d.
  - simpl. unfold App.calculate_cf_obj.
    destruct (App.get_mb_md (kb_symptoms kb) code). reflexivity.
  - cbn [app App.seed_facts_obj]. unfold App.calculate_cf_obj.
    destruct (App.get_mb_md (kb_symptoms kb) c) as [mb md].
    destruct o as [x|]; [|reflexivity].
    cbn [App.py_mul_obj bind]. apply IH.
Qed.

(** On floats, seeding in [app.py] is [seed_facts]. *)
Lemma app_seed_facts_obj_num (kb : knowledge_base F) (facts : list (string * F))
      (d : dict F) :
  App.seed_facts_obj kb (map (fun '(code, x) => (code, Num x)) facts) d =
  Ok (fold_left
        (fun d '(code, user_cf) => dict_set code (App.calculate_cf kb user_cf code) d)
        facts d).
Proof.
  revert d. induction facts as [|[c x] facts IH]; intros d; [reflexivity|].
  cbn [map App.seed_facts_obj fold_left].
  unfold App.calculate_cf_obj, App.calculate_cf.
  destruct (App.get_mb_md (kb_symptoms kb) c) as [mb md].
  cbn [App.py_mul_obj bind]. apply IH.
Qed.

(** C6. In [engine.py] a rule whose antecedent list is empty never fires, in
    any pass of any run: the loop body returns the state it was given,
    without raising (no fact is updated, no record is appended), and every
    record of a returned trace comes from a rule of the knowledge base with
    at least one antecedent.  In [app.py] such a rule is not skipped: [all]
    of no antecedent holds and [min] of the empty list raises ValueError, so
    the loop body raises unless the rule is passed over for having fired,
    and [ExpertSystem.forward_chaining] raises ValueError in its first pass
    on every knowledge base whose first rule has no antecedent, whatever is
    asserted. *)
Theorem empty_antecedents_never_fire :
  (forall (st : Engine.state F) (r : rule F),
      r_if r = [] -> Engine.fire_rule st r = Ok st) /\
  (forall fuel kb input_facts facts tr,
      Engine.forward_chaining fuel kb input_facts = Some (Ok (facts, tr)) ->
      forall t, In t tr ->
                Engine.t_if t <> [] /\ Engine.from_rule (kb_rules kb) t) /\
  (forall (st : App.state F) (r : rule F),
      r_if r = [] ->
      dict_mem (r_then r) (App.cf_facts st) && App.in_trace (r_id r) (App.trace st)
        = false ->
      App.fire_rule st r = Raise ValueError) /\
  (forall (kb : knowledge_base F) (facts : list (string * F)) r rest fuel,
      kb_rules kb = r :: rest -> r_if r = [] ->
      App.forward_chaining (S fuel) kb facts = Some (Raise ValueError)).
Proof.
  split; [|split; [|split]].
  - intros st r Hnil. unfold Engine.fire_rule. rewrite Hnil. reflexivity.
  - intros fuel kb input_facts facts tr Hrun t Hin.
    destruct (forward_chaining_final _ _ _ Hrun) as (st & Hr & _ & ->).
    pose proof (trace_from_rules Hr) as Hall. simpl in Hall.
    specialize (Hall (Forall_nil _)).
    rewrite Forall_forall in Hall. specialize (Hall t Hin).
    split; [|exact Hall].
    destruct Hall as (r & _ & Hne & _ & -> & _). exact Hne.
  - intros st r. apply app_empty_antecedents_raise.
  - intros kb facts r rest fuel Hrules Hnil.
    unfold App.forward_chaining. cbn [App.passes]. rewrite Hrules.
    cbn [App.fire_rules].
    rewrite (@app_empty_antecedents_raise _ _
               (App.reset_fired (App.initial_state kb facts)) r Hnil);
      [reflexivity|].
    simpl. apply andb_false_r.
Qed.

End TwoPrograms.

(** ** binary64: operations that do not round *)

Section B64Exact.
Local Open Scope Z_scope.

(** A valid finite binary64: its exponent is the canonical one of its
    mantissa and is at most 971. *)
Lemma bounded_inv (m : positive) (e : Z) :
  bounded B64.prec B64.emax m e = true ->
  fexp B64.prec B64.emax (Zpos (digits2_pos m) + e) = e /\ e <= 971.
Proof.
  unfold bounded, canonical_mantissa. intros Hb.
  apply andb_true_iff in Hb. destruct Hb as [Hc He].
  apply Z.eqb_eq in Hc. apply Z.leb_le in He. split; [exact Hc|].
  unfold B64.emax, B64.prec in He. lia.
Qed.

(** The last step of rounding leaves a canonical mantissa as it is. *)
Lemma round_tail_canonical (s : bool) (m : positive) (e : Z) :
  bounded B64.prec B64.emax m e = true ->
  (let '(mrs, e') := shr_fexp B64.prec B64.emax (Zpos m) e loc_Exact in
   match shr_m mrs with
   | 0 => S754_zero s
   | Zpos m' =>
       if e' <=? B64.emax - B64.prec then S754_finite s m' e' else S754_infinity s
   | Zneg _ => S754_nan
   end) = S754_finite s m e.
Proof.
  intros Hb. destruct (bounded_inv _ _ Hb) as [Hc He].
  unfold shr_fexp. cbn [Zdigits2 shr_record_of_loc].
  rewrite Hc, Z.sub_diag. cbn [shr shr_m].
  assert (Hle : (e <=? B64.emax - B64.prec) = true).
  { apply Z.leb_le. unfold B64.emax, B64.prec. lia. }
  now rewrite Hle.
Qed.

(** Rounding a mantissa that is already canonical changes nothing. *)
Lemma binary_round_aux_canonical (s : bool) (m : positive) (e : Z) :
  bounded B64.prec B64.emax m e = true ->
  binary_round_aux B64.prec B64.emax s (Zpos m) e loc_Exact = S754_finite s m e.
Proof.
  intros Hb. destruct (bounded_inv _ _ Hb) as [Hc He].
  unfold binary_round_aux. unfold shr_fexp at 1. cbn [Zdigits2 shr_record_of_loc].
  rewrite Hc, Z.sub_diag. cbn [shr shr_m loc_of_shr_record round_nearest_even].
  now apply round_tail_canonical.
Qed.

Lemma mul_one_mantissa (m : positive) :
  (m * 4503599627370496)%positive =
  Pos.iter xO m 52.
Proof. rewrite Pos.mul_comm. reflexivity. Qed.

Lemma digits2_pos_shift52 (m : positive) :
  Zpos (digits2_pos (Pos.iter xO m 52)) = Zpos (digits2_pos m) + 52.
Proof. cbn [Pos.iter digits2_pos]. lia. Qed.

Lemma shr_52 (m : positive) :
  iter_pos shr_1 52 (Build_shr_record (Zpos (Pos.iter xO m 52)) false false) =
  Build_shr_record (Zpos m) false false.
Proof. reflexivity. Qed.

(** Multiplying a valid binary64 by 1.0 gives it back. *)
Lemma SFmul_one_r (x : B64.t) :
  valid_binary B64.prec B64.emax x = true ->
  SFmul B64.prec B64.emax x B64.one = x.
Proof.
  rewrite one_repr. destruct x as [s|s| |s m e]; intros Hv.
  - cbn [SFmul]. now rewrite xorb_false_r.
  - cbn [SFmul]. now rewrite xorb_false_r.
  - reflexivity.
  - cbn [valid_binary] in Hv. destruct (bounded_inv _ _ Hv) as [Hc He].
    cbn [SFmul]. rewrite xorb_false_r, mul_one_mantissa.
    unfold binary_round_aux at 1. unfold shr_fexp at 1.
    cbn [Zdigits2 shr_record_of_loc].
    rewrite digits2_pos_shift52.
    replace (Zpos (digits2_pos m) + 52 + (e + -52)) with (Zpos (digits2_pos m) + e) by lia.
    rewrite Hc.
    replace (e - (e + -52)) with 52 by lia.
    cbn [shr]. rewrite shr_52.
    replace (e + -52 + 52) with e by lia.
    cbn [shr_m loc_of_shr_record round_nearest_even].
    exact (round_tail_canonical s m e Hv).
Qed.

Lemma div_eucl_exact (q d : Z) : 0 < d -> Z.div_eucl (q * d) d = (q, 0).
Proof.
  intros Hd. pose proof (Z_div_mod (q * d) d ltac:(lia)) as Hdm.
  destruct (Z.div_eucl (q * d) d) as [q' r]. destruct Hdm as [Heq Hr].
  assert (q' = q) by nia. subst q'. f_equal. lia.
Qed.

(** Dividing a valid binary64 by 1.0 gives it back. *)
Lemma SFdiv_one_r (x : B64.t) :
  valid_binary B64.prec B64.emax x = true ->
  SFdiv B64.prec B64.emax x B64.one = x.
Proof.
  rewrite one_repr. destruct x as [s|s| |s m e]; intros Hv.
  - cbn [SFdiv]. now rewrite xorb_false_r.
  - cbn [SFdiv]. now rewrite xorb_false_r.
  - reflexivity.
  - cbn [valid_binary] in Hv. destruct (bounded_inv _ _ Hv) as [Hc He].
    cbn [SFdiv]. rewrite xorb_false_r.
    unfold SFdiv_core_binary. cbn [Zdigits2].
    change (Zpos (digits2_pos 4503599627370496)) with 53.
    pose proof (digits2_pos_lower m) as Hlo.
    pose proof (digits2_pos_upper m) as Hup.
    unfold fexp, emin, B64.prec, B64.emax in Hc.
    set (d := Zpos (digits2_pos m)) in *.
    destruct (Z.eq_dec e (-1074)) as [Hmin|Hnorm].
    + (* the least exponent: the quotient is the mantissa itself *)
      replace (Z.min (fexp B64.prec B64.emax (d + e - (53 + -52))) (e - -52))
        with e by (unfold fexp, emin, B64.prec, B64.emax; lia).
      replace (e - -52 - e) with 52 by lia.
      rewrite Z.shiftl_mul_pow2 by lia.
      change (2 ^ 52) with 4503599627370496.
      rewrite (div_eucl_exact (Zpos m) (d := 4503599627370496)) by lia.
      change (new_location 4503599627370496 0) with loc_Exact.
      now apply binary_round_aux_canonical.
    + assert (Hd : d = 53) by lia.
      replace (Z.min (fexp B64.prec B64.emax (d + e - (53 + -52))) (e - -52))
        with (e - 1) by (unfold fexp, emin, B64.prec, B64.emax; lia).
      replace (e - -52 - (e - 1)) with 53 by lia.
      rewrite Z.shiftl_mul_pow2 by lia.
      replace (Zpos m * 2 ^ 53) with (Zpos (xO m) * 4503599627370496)
        by (rewrite (Pos2Z.inj_xO m); change (2 ^ 53) with (2 * 4503599627370496); ring).
      rewrite (div_eucl_exact (Zpos (xO m)) (d := 4503599627370496)) by lia.
      change (new_location 4503599627370496 0) with loc_Exact.
      unfold binary_round_aux at 1. unfold shr_fexp at 1.
      cbn [Zdigits2 digits2_pos shr_record_of_loc].
      rewrite Pos2Z.inj_succ. fold d.
      replace (fexp B64.prec B64.emax (Z.succ d + (e - 1))) with e
        by (unfold fexp, emin, B64.prec, B64.emax; lia).
      replace (e - (e - 1)) with 1 by lia.
      cbn [shr iter_pos shr_1 shr_m loc_of_shr_record round_nearest_even].
      replace (e - 1 + 1) with e by lia.
      now apply round_tail_canonical.
Qed.

Lemma iter_shr_1_value (p : positive) :
  forall mrs : shr_record,
    0 <= shr_m mrs ->
    shr_m (iter_pos shr_1 p mrs) = shr_m mrs / 2 ^ Zpos p.
Proof.
  assert (Hpow : forall q : positive, 0 < 2 ^ Zpos q)
    by (intros q; apply Z.pow_pos_nonneg; lia).
  induction p as [p IH|p IH|]; intros mrs Hm; cbn [iter_pos].
  - assert (H1 : 0 <= shr_m (shr_1 mrs)).
    { rewrite shr_1_div2 by assumption. rewrite Z.div2_div. apply Z.div_pos; lia. }
    assert (H2 : 0 <= shr_m (iter_pos shr_1 p (shr_1 mrs))).
    { rewrite IH by assumption. apply Z.div_pos; [assumption | apply Hpow]. }
    rewrite IH, IH by assumption. rewrite shr_1_div2 by assumption.
    rewrite Z.div2_div, !Z.div_div by (try apply Hpow; pose proof (Hpow p); lia).
    f_equal. rewrite (Pos2Z.inj_xI p).
    replace (2 * Zpos p + 1) with (1 + Zpos p + Zpos p) by lia.
    rewrite !Z.pow_add_r by lia. change (2 ^ 1) with 2. ring.
  - assert (H2 : 0 <= shr_m (iter_pos shr_1 p mrs)).
    { rewrite IH by assumption. apply Z.div_pos; [assumption | apply Hpow]. }
    rewrite IH, IH by assumption.
    rewrite Z.div_div by (try apply Hpow; pose proof (Hpow p); lia).
    f_equal. rewrite (Pos2Z.inj_xO p).
    replace (2 * Zpos p) with (Zpos p + Zpos p) by lia.
    rewrite Z.pow_add_r by lia. reflexivity.
  - rewrite shr_1_div2 by assumption. now rewrite Z.div2_div.
Qed.

Lemma Zdigits2_upper (z : Z) : 0 <= z -> z < 2 ^ Zdigits2 z.
Proof.
  destruct z as [|p|p]; intros Hz; [simpl; lia | apply digits2_pos_upper | lia].
Qed.

Lemma Zdigits2_nonneg (z : Z) : 0 <= Zdigits2 z.
Proof. destruct z; simpl; lia. Qed.

Lemma Zdigits2_le (z k : Z) : 0 <= z -> 0 <= k -> z < 2 ^ k -> Zdigits2 z <= k.
Proof.
  intros Hz Hk Hlt. destruct z as [|p|p]; [simpl; lia | | lia].
  simpl. pose proof (digits2_pos_lower p) as Hl.
  assert (Hp : 2 ^ (Zpos (digits2_pos p) - 1) < 2 ^ k) by lia.
  apply Z.pow_lt_mono_r_iff in Hp; lia.
Qed.

Lemma round_nearest_even_le (m : Z) (l : location) : round_nearest_even m l <= m + 1.
Proof.
  destruct l as [|[]]; simpl; try lia. destruct (Z.even m); lia.
Qed.

(** What the shift to the canonical exponent gives. *)
Lemma shr_fexp_value (m e : Z) (l : location) :
  0 <= m ->
  let e' := Z.max e (fexp B64.prec B64.emax (Zdigits2 m + e)) in
  snd (shr_fexp B64.prec B64.emax m e l) = e' /\
  shr_m (fst (shr_fexp B64.prec B64.emax m e l)) = m / 2 ^ (e' - e).
Proof.
  intros Hm. cbv zeta. unfold shr_fexp, shr.
  destruct (fexp B64.prec B64.emax (Zdigits2 m + e) - e) as [|p|p] eqn:En; cbn [fst snd].
  - replace (Z.max e (fexp B64.prec B64.emax (Zdigits2 m + e))) with e by lia.
    rewrite Z.sub_diag, shr_record_of_loc_m. simpl. now rewrite Z.div_1_r.
  - replace (Z.max e (fexp B64.prec B64.emax (Zdigits2 m + e))) with (e + Zpos p) by lia.
    split; [reflexivity|].
    rewrite iter_shr_1_value by (now rewrite shr_record_of_loc_m).
    rewrite shr_record_of_loc_m. f_equal. f_equal. lia.
  - replace (Z.max e (fexp B64.prec B64.emax (Zdigits2 m + e))) with e by lia.
    rewrite Z.sub_diag, shr_record_of_loc_m. simpl. now rewrite Z.div_1_r.
Qed.

(** Rounding does not overflow below [2^1023]. *)
Lemma binary_round_aux_no_overflow (s : bool) (m e : Z) (l : location) :
  0 <= m -> Zdigits2 m + e <= 1023 -> e <= 971 ->
  B64.is_finite (binary_round_aux B64.prec B64.emax s m e l) = true.
Proof.
  intros Hm HD He. unfold binary_round_aux.
  destruct (shr_fexp_value e l Hm) as [He1 Hm1].
  destruct (shr_fexp B64.prec B64.emax m e l) as [mrs1 e1]. cbn [fst snd] in He1, Hm1.
  rewrite <- He1 in Hm1.
  set (m1 := round_nearest_even (shr_m mrs1) (loc_of_shr_record mrs1)).
  assert (Hpow : 0 < 2 ^ (e1 - e)) by (apply Z.pow_pos_nonneg; lia).
  assert (Hq : 0 <= shr_m mrs1) by (rewrite Hm1; apply Z.div_pos; lia).
  assert (Hm1lo : 0 <= m1).
  { pose proof (round_nearest_even_ge (shr_m mrs1) (loc_of_shr_record mrs1)).
    unfold m1. lia. }
  assert (Hm1hi : m1 <= shr_m mrs1 + 1) by apply round_nearest_even_le.
  assert (He1b : e1 <= 971).
  { rewrite He1. unfold fexp, emin, B64.prec, B64.emax. lia. }
  assert (HD1 : Zdigits2 m1 + e1 <= 1024).
  { pose proof (Zdigits2_nonneg m) as Hdm.
    pose proof (Zdigits2_upper Hm) as Hup.
    destruct (Z_le_gt_dec (e1 - e) (Zdigits2 m)) as [Hle|Hgt].
    - assert (Hlt : shr_m mrs1 < 2 ^ (Zdigits2 m - (e1 - e))).
      { rewrite Hm1. apply Z.div_lt_upper_bound; [lia|].
        rewrite <- Z.pow_add_r by lia.
        replace (e1 - e + (Zdigits2 m - (e1 - e))) with (Zdigits2 m) by lia.
        exact Hup. }
      assert (Hd : Zdigits2 m1 <= Zdigits2 m - (e1 - e) + 1).
      { apply Zdigits2_le; [assumption | lia |].
        rewrite Z.pow_add_r by lia. simpl (2 ^ 1). lia. }
      lia.
    - assert (Hz : shr_m mrs1 = 0).
      { rewrite Hm1. apply Z.div_small. split; [assumption|].
        eapply Z.lt_le_trans; [exact Hup|]. apply Z.pow_le_mono_r; lia. }
      assert (Hd : Zdigits2 m1 <= 1).
      { apply Zdigits2_le; [assumption | lia | simpl; lia]. }
      lia. }
  destruct (shr_fexp_value e1 loc_Exact Hm1lo) as [He2 Hm2].
  destruct (shr_fexp B64.prec B64.emax m1 e1 loc_Exact) as [mrs2 e2].
  cbn [fst snd] in He2, Hm2. rewrite <- He2 in Hm2.
  assert (He2b : e2 <= 971).
  { rewrite He2. unfold fexp, emin, B64.prec, B64.emax. lia. }
  assert (Hq2 : 0 <= shr_m mrs2).
  { rewrite Hm2. apply Z.div_pos; [assumption|]. apply Z.pow_pos_nonneg; lia. }
  destruct (shr_m mrs2) as [|p|p]; [reflexivity | | lia].
  assert (Hle : (e2 <=? B64.emax - B64.prec) = true).
  { apply Z.leb_le. unfold B64.emax, B64.prec. lia. }
  now rewrite Hle.
Qed.

Lemma get_mb_md_unknown (symptoms : list (symptom B64.t)) (code : string) :
  (forall s, In s symptoms -> s_code s <> code) ->
  App.get_mb_md symptoms code = (fone, fzero).
Proof.
  induction symptoms as [|s rest IH]; intros Hno; simpl; [reflexivity|].
  destruct (String.eqb (s_code s) code) eqn:E.
  - apply String.eqb_eq in E. exfalso. apply (Hno s); [now left | assumption].
  - apply IH. intros s' Hs'. apply Hno. now right.
Qed.

Lemma base_cf_unknown (kb : knowledge_base B64.t) (code : string) :
  (forall s, In s (kb_symptoms kb) -> s_code s <> code) ->
  dict_get code (Engine.base_cf kb) = None.
Proof.
  intros Hno. unfold Engine.base_cf, Engine.symptom_map.
  rewrite (dict_get_map Engine.cf_symptom_from_mbmd), symptom_map_last.
  destruct (find _ (rev (kb_symptoms kb))) as [s|] eqn:E; [|reflexivity].
  apply find_some in E. destruct E as [Hin He]. apply String.eqb_eq in He.
  exfalso. apply (Hno s); [now apply in_rev | assumption].
Qed.

(** X22. A code that is the code of no symptom is seeded alike by the two
    programs, for every binary64 confidence [c]: [engine.py] stores [c]
    itself, and [app.py] stores [c * (1.0 - 0.0)], which is [c] bit for
    bit. *)
Theorem unknown_code_seeded_alike (kb : knowledge_base B64.t) (code : string)
        (c : B64.t) (facts : dict B64.t) :
  valid_binary B64.prec B64.emax c = true ->
  (forall s, In s (kb_symptoms kb) -> s_code s <> code) ->
  App.calculate_cf kb c code = c /\
  Engine.seed_fact (Engine.base_cf kb) facts (code, Num c) = dict_set code c facts.
Proof.
  intros Hv Hno. split.
  - unfold App.calculate_cf. rewrite (get_mb_md_unknown _ Hno).
    cbn [fmul fsub fone fzero binary64].
    replace (SFsub B64.prec B64.emax B64.one B64.zero) with B64.one
      by (vm_compute; reflexivity).
    now apply SFmul_one_r.
  - unfold Engine.seed_fact. now rewrite (base_cf_unknown _ Hno).
Qed.
Lemma digits2_pos_iter_xO (p d : positive) :
  Zpos (digits2_pos (Pos.iter xO p d)) = Zpos (digits2_pos p) + Zpos d.
Proof.
  induction d as [|d IH] using Pos.peano_ind.
  - simpl. lia.
  - rewrite Pos.iter_succ. cbn [digits2_pos]. lia.
Qed.

Lemma binary_round_no_overflow (s : bool) (p : positive) (e : Z) :
  Zpos (digits2_pos p) + e <= 1023 -> e <= 971 ->
  B64.is_finite (binary_round B64.prec B64.emax s p e) = true.
Proof.
  intros HD He. unfold binary_round, shl_align.
  destruct (fexp B64.prec B64.emax (Zpos (digits2_pos p) + e) - e) as [|d|d] eqn:En.
  - apply binary_round_aux_no_overflow; cbn [Zdigits2]; lia.
  - apply binary_round_aux_no_overflow; cbn [Zdigits2]; lia.
  - apply binary_round_aux_no_overflow; cbn [Zdigits2]; try lia.
    rewrite digits2_pos_iter_xO. lia.
Qed.

Lemma Zdigits2_le_abs (z k : Z) : 0 <= k -> Z.abs z < 2 ^ k -> Zdigits2 z <= k.
Proof.
  intros Hk Hlt. destruct z as [|p|p].
  - simpl. lia.
  - apply Zdigits2_le; lia.
  - change (Zdigits2 (Zneg p)) with (Zdigits2 (Zpos p)). apply Zdigits2_le; lia.
Qed.

Lemma binary_normalize_no_overflow (z e : Z) :
  Zdigits2 z + e <= 1023 -> e <= 971 ->
  B64.is_finite (binary_normalize B64.prec B64.emax z e false) = true.
Proof.
  intros HD He. destruct z as [|p|p]; [reflexivity| |];
    now apply binary_round_no_overflow.
Qed.

(** The sum of two finite binary64 below [2^1022] in magnitude is finite. *)
Lemma SFadd_finite (sx sy : bool) (mx my : positive) (ex ey : Z) :
  Zpos (digits2_pos mx) + ex <= 1022 -> Zpos (digits2_pos my) + ey <= 1022 ->
  ex <= 971 -> ey <= 971 ->
  B64.is_finite
    (SFadd B64.prec B64.emax (S754_finite sx mx ex) (S754_finite sy my ey)) = true.
Proof.
  intros Hx Hy Hex Hey. cbn [SFadd]. cbv zeta.
  set (ez := Z.min ex ey).
  apply binary_normalize_no_overflow; [|lia].
  rewrite (shl_align_value mx (ex := ex) (ez := ez)) by lia.
  rewrite (shl_align_value my (ex := ey) (ez := ez)) by lia.
  assert (Hbx : Zpos mx * 2 ^ (ex - ez) < 2 ^ (1022 - ez)).
  { pose proof (digits2_pos_upper mx) as Hup.
    assert (Hp : 0 < 2 ^ (ex - ez)) by (apply Z.pow_pos_nonneg; lia).
    apply Z.lt_le_trans with (2 ^ Zpos (digits2_pos mx) * 2 ^ (ex - ez)); [nia|].
    rewrite <- Z.pow_add_r by lia. apply Z.pow_le_mono_r; lia. }
  assert (Hby : Zpos my * 2 ^ (ey - ez) < 2 ^ (1022 - ez)).
  { pose proof (digits2_pos_upper my) as Hup.
    assert (Hp : 0 < 2 ^ (ey - ez)) by (apply Z.pow_pos_nonneg; lia).
    apply Z.lt_le_trans with (2 ^ Zpos (digits2_pos my) * 2 ^ (ey - ez)); [nia|].
    rewrite <- Z.pow_add_r by lia. apply Z.pow_le_mono_r; lia. }
  assert (Hpx : 0 < Zpos mx * 2 ^ (ex - ez))
    by (apply Z.mul_pos_pos; [lia | apply Z.pow_pos_nonneg; lia]).
  assert (Hpy : 0 < Zpos my * 2 ^ (ey - ez))
    by (apply Z.mul_pos_pos; [lia | apply Z.pow_pos_nonneg; lia]).
  assert (Hd : Zdigits2 (cond_Zopp sx (Zpos mx * 2 ^ (ex - ez)) +
                         cond_Zopp sy (Zpos my * 2 ^ (ey - ez))) <= 1023 - ez).
  { apply Zdigits2_le_abs; [lia|].
    replace (1023 - ez) with (1 + (1022 - ez)) by lia.
    rewrite Z.pow_add_r by lia. change (2 ^ 1) with 2.
    destruct sx, sy; cbv [cond_Zopp]; lia. }
  lia.
Qed.

(** A negative binary64 that is not below -1.0 has magnitude at most 1. *)
Lemma ge_minus_one_exponent (m : positive) (e : Z) :
  bounded B64.prec B64.emax m e = true ->
  SFleb (SFopp B64.one) (S754_finite true m e) = true ->
  Zpos (digits2_pos m) + e <= 1 /\ e <= -52.
Proof.
  intros Hb. destruct (bounded_inv _ _ Hb) as [Hc He].
  rewrite one_repr. unfold SFleb. cbn [SFopp SFcompare negb].
  unfold fexp, emin, B64.prec, B64.emax in Hc.
  destruct (Z.compare_spec (-52) e) as [Heq|Hlt|Hgt]; try discriminate; intros _; lia.
Qed.

Lemma SFltb_SFleb (x y : B64.t) : SFltb x y = true -> SFleb x y = true.
Proof. unfold SFltb, SFleb. now destruct (SFcompare x y) as [[]|]. Qed.

(** At the boundary, with a zero and a negative CF, the two variants compute
    the negative CF. *)
Lemma boundary_zero_left (z b : B64.t) (s : bool) :
  z = S754_zero s ->
  valid_binary B64.prec B64.emax b = true ->
  SFltb b B64.zero = true ->
  App.combine_cf z b = Ok b /\ Engine.combine_cf z b = Ok b.
Proof.
  intros Hz Hv Hneg.
  assert (Hmin : py_min (fabs z) (fabs b) = B64.zero).
  { rewrite Hz. unfold py_min. cbn [fabs fltb binary64 SFabs].
    destruct b as [sb|sb| |sb mb eb]; try discriminate; destruct sb; try discriminate;
      reflexivity. }
  assert (Hadd : fadd z b = b).
  { rewrite Hz. cbn [fadd binary64].
    destruct b as [sb|sb| |sb mb eb]; try discriminate; destruct sb; try discriminate;
      reflexivity. }
  assert (Hpos : fleb fzero z && fleb fzero b = false).
  { apply andb_false_iff. right. cbn [fleb fzero binary64].
    destruct b as [sb|sb| |sb mb eb]; try discriminate; destruct sb; try discriminate;
      reflexivity. }
  assert (Hstrict : fltb z fzero && fltb b fzero = false)
    by (rewrite Hz; destruct s; reflexivity).
  assert (Hnonpos : fleb z fzero && fleb b fzero = true).
  { apply andb_true_iff. split; [rewrite Hz; destruct s; reflexivity|].
    now apply SFltb_SFleb. }
  assert (Hone : fadd fone z = B64.one).
  { rewrite Hz. cbn [fadd fone binary64]. rewrite one_repr. reflexivity. }
  assert (Hsub : fsub fone B64.zero = B64.one) by (vm_compute; reflexivity).
  assert (Hnz : feqb B64.one fzero = false) by (vm_compute; reflexivity).
  split.
  - unfold App.combine_cf, py_div. rewrite Hpos, Hstrict, Hmin, Hadd, Hsub, Hnz.
    f_equal. now apply SFdiv_one_r.
  - unfold Engine.combine_cf. rewrite Hpos, Hnonpos, Hone. f_equal.
    cbn [fmul binary64]. rewrite (SFmul_one_r _ Hv). exact Hadd.
Qed.

Lemma boundary_zero_right (a z : B64.t) (s : bool) :
  z = S754_zero s ->
  valid_binary B64.prec B64.emax a = true ->
  SFltb a B64.zero = true ->
  SFleb (SFopp B64.one) a = true ->
  App.combine_cf a z = Ok a /\ Engine.combine_cf a z = Ok a.
Proof.
  intros Hz Hv Hneg Hlo.
  assert (Hshape : exists ma ea, a = S754_finite true ma ea).
  { destruct a as [sa|sa| |sa ma ea]; try destruct sa;
      vm_compute in Hneg; try discriminate.
    now exists ma, ea. }
  destruct Hshape as (ma & ea & Ha).
  assert (Hb : bounded B64.prec B64.emax ma ea = true) by (now rewrite Ha in Hv).
  assert (Hlo' : SFleb (SFopp B64.one) (S754_finite true ma ea) = true)
    by (now rewrite Ha in Hlo).
  destruct (ge_minus_one_exponent _ _ Hb Hlo') as [HD He].
  assert (Hmin : py_min (fabs a) (fabs z) = B64.zero)
    by (rewrite Ha, Hz; reflexivity).
  assert (Hadd : fadd a z = a) by (rewrite Ha, Hz; reflexivity).
  assert (Hpos : fleb fzero a && fleb fzero z = false) by (rewrite Ha; reflexivity).
  assert (Hstrict : fltb a fzero && fltb z fzero = false).
  { apply andb_false_iff. right. rewrite Hz. destruct s; reflexivity. }
  assert (Hnonpos : fleb a fzero && fleb z fzero = true).
  { apply andb_true_iff. split; [rewrite Ha; reflexivity | rewrite Hz; destruct s; reflexivity]. }
  assert (Hsub : fsub fone B64.zero = B64.one) by (vm_compute; reflexivity).
  assert (Hnz : feqb B64.one fzero = false) by (vm_compute; reflexivity).
  assert (Hfin : B64.is_finite (fadd fone a) = true).
  { rewrite Ha. change (fadd fone (S754_finite true ma ea))
      with (SFadd B64.prec B64.emax B64.one (S754_finite true ma ea)).
    rewrite one_repr.
    apply SFadd_finite;
      [change (Zpos (digits2_pos 4503599627370496)) with 53; lia | lia | lia | lia]. }
  assert (Hmul : fadd a (fmul z (fadd fone a)) = a).
  { destruct (fadd fone a) as [sc|sc| |sc mc ec]; try discriminate;
      rewrite Ha, Hz; reflexivity. }
  split.
  - unfold App.combine_cf, py_div. rewrite Hpos, Hstrict, Hmin, Hadd, Hsub, Hnz.
    f_equal. now apply SFdiv_one_r.
  - unfold Engine.combine_cf. rewrite Hpos, Hnonpos. now f_equal.
Qed.

(** Below -1.0 the two variants can differ: at minus infinity and 0.0,
    [0.0 * (1 + -inf)] is NaN in the one and the other divides by 1. *)
Lemma variants_differ_at_minus_infinity :
  App.combine_cf (S754_infinity true) B64.zero = Ok (S754_infinity true) /\
  Engine.combine_cf (S754_infinity true) B64.zero = Ok S754_nan.
Proof. vm_compute. split; reflexivity. Qed.

(** X23. On binary64 the two variants of the combination agree bit for bit
    wherever [app.py]'s does not raise, for every pair of floats whose
    first is not below -1.0: at the boundary, where one argument is a zero
    and the other is negative, [a + b * (1 + a)] and
    [(a + b) / (1 - min(abs(a), abs(b)))] are both the negative argument,
    because adding a zero, multiplying by 1.0 and dividing by 1.0 do not
    round; and where [app.py]'s raises ZeroDivisionError, [engine.py]'s
    returns 0.0. *)
Theorem b64_combine_cf_variants_agree (a b : B64.t) :
  valid_binary B64.prec B64.emax a = true ->
  valid_binary B64.prec B64.emax b = true ->
  SFleb (SFopp B64.one) a = true ->
  App.combine_cf a b = Engine.combine_cf a b \/
  (App.combine_cf a b = Raise ZeroDivisionError /\
   Engine.combine_cf a b = Ok B64.zero).
Proof.
  intros Ha Hb Hlo.
  destruct (fleb fzero a && fleb fzero b) eqn:Hpos.
  { left. unfold App.combine_cf, Engine.combine_cf. now rewrite Hpos. }
  destruct (fltb a fzero && fltb b fzero) eqn:Hstrict.
  { left. unfold App.combine_cf, Engine.combine_cf. rewrite Hpos, Hstrict.
    apply andb_true_iff in Hstrict. destruct Hstrict as [H1 H2].
    cbn [fltb fleb fzero binary64] in *.
    now rewrite (SFltb_SFleb _ _ H1), (SFltb_SFleb _ _ H2). }
  destruct (fleb a fzero && fleb b fzero) eqn:Hneg.
  - left. apply andb_true_iff in Hneg. destruct Hneg as [Hna Hnb].
    cbn [fltb fleb fzero binary64] in *.
    destruct (SFltb a B64.zero) eqn:Hla.
    + (* a < 0, so b is a zero *)
      assert (Hzb : exists s, b = S754_zero s).
      { simpl in Hstrict.
        destruct b as [sb|sb| |sb mb eb]; try discriminate; [now exists sb| |];
          destruct sb; discriminate. }
      destruct Hzb as [s Hzb].
      destruct (@boundary_zero_right a b s Hzb Ha Hla Hlo) as [-> ->]. reflexivity.
    + (* a is a zero, so b < 0 *)
      assert (Hza : exists s, a = S754_zero s).
      { destruct a as [sa|sa| |sa ma ea]; try discriminate; [now exists sa| |];
          destruct sa; discriminate. }
      destruct Hza as [s Hza].
      assert (Hlb : SFltb b B64.zero = true).
      { rewrite Hza in Hpos. destruct b as [sb|sb| |sb mb eb]; try discriminate.
        - destruct sb; [reflexivity | destruct s; discriminate].
        - destruct sb; [reflexivity | destruct s; discriminate]. }
      destruct (@boundary_zero_left a b s Hza Hb Hlb) as [-> ->]. reflexivity.
  - unfold App.combine_cf, Engine.combine_cf. rewrite Hpos, Hstrict, Hneg.
    cbv zeta. unfold py_div.
    destruct (feqb (fsub fone (py_min (fabs a) (fabs b))) fzero);
      [right; now split | now left].
Qed.
End B64Exact.

(** ** The engine: passes and trace records *)

Section PassCount.
Context {F : Type} `{PyFloat F}.
Import Engine.

Lemma passes_trace_grows (rules : list (rule F)) (fuel : nat) :
  forall st st' : state F,
    passes fuel rules st = Some (Ok st') ->
    List.length (fired_trace st) <= List.length (fired_trace st').
Proof.
  induction fuel as [|fuel IH]; intros st st'; simpl; [discriminate|].
  destruct (fire_rules rules (reset_changed st)) as [st1|] eqn:E; [|discriminate].
  destruct (fire_rules_grows _ _ E) as [Hle _]. simpl in Hle.
  destruct (changed st1).
  - intros Hp. specialize (IH _ _ Hp). lia.
  - intros [= <-]. exact Hle.
Qed.

(** Every pass but the last appends to the trace: a run that returns needs
    no more passes than it has written records, and one. *)
Lemma passes_bounded_by_trace (rules : list (rule F)) (fuel : nat) :
  forall st st' : state F,
    passes fuel rules st = Some (Ok st') ->
    passes (S (List.length (fired_trace st') - List.length (fired_trace st))) rules st
    = Some (Ok st').
Proof.
  induction fuel as [|fuel IH]; intros st st' Hp; [discriminate|].
  pose proof Hp as Hp0. simpl in Hp.
  destruct (fire_rules rules (reset_changed st)) as [st1|] eqn:E; [|discriminate].
  destruct (fire_rules_grows _ _ E) as [Hle Hgrow]. simpl in Hle, Hgrow.
  cbn [passes]. rewrite E.
  destruct (changed st1) eqn:Hc; [|exact Hp].
  destruct (Hgrow eq_refl) as [Habs|Hlt]; [discriminate|].
  pose proof (passes_trace_grows _ _ _ Hp) as Hle1.
  apply (@passes_more_fuel _ _ rules
           (S (List.length (fired_trace st') - List.length (fired_trace st1)))).
  - now apply IH.
  - lia.
Qed.

(** X24. Every pass of the loop but the last one commits at least one
    change: when [forward_chaining] returns a trace of [n] records, it has
    made at most [n + 1] passes. *)
Theorem passes_bounded_by_records (fuel : nat) (kb : knowledge_base F)
        (input_facts : list (string * pyobj F)) (facts : dict F)
        (tr : list (trace_item F)) :
  forward_chaining fuel kb input_facts = Some (Ok (facts, tr)) ->
  forward_chaining (S (List.length tr)) kb input_facts = Some (Ok (facts, tr)).
Proof.
  unfold forward_chaining.
  destruct (passes fuel (kb_rules kb) (initial_state kb input_facts))
    as [[st|e]|] eqn:E; try discriminate.
  intros [= <- <-].
  pose proof (passes_bounded_by_trace _ _ _ E) as Hb.
  cbn [initial_state fired_trace List.length] in Hb.
  rewrite Nat.sub_0_r in Hb. now rewrite Hb.
Qed.
End PassCount.

(** ** Instances of the further properties *)

Section WitnessesExtra.
Import Examples.
Local Open Scope string_scope.

Lemma seeded_facts_scaled_witness :
  NoDup (map fst facts_g02) /\
  In ("G02", Num (lit 1 1)) facts_g02 /\
  dict_get "G02" (Engine.cf_facts (Engine.initial_state kb_g02 facts_g02)) =
  Some (match dict_get "G02" (Engine.base_cf kb_g02) with
        | Some b => fmul (Engine.confidence (Num (lit 1 1))) b
        | None => Engine.confidence (Num (lit 1 1))
        end).
Proof.
  assert (Hnd : NoDup (map fst facts_g02))
    by (repeat constructor; simpl; tauto).
  assert (Hin : In ("G02", Num (lit 1 1)) facts_g02) by (left; reflexivity).
  split; [exact Hnd|]. split; [exact Hin|].
  exact (@seeded_facts_scaled _ _ kb_g02 facts_g02 "G02" (Num (lit 1 1)) Hnd Hin).
Defined.

Lemma fact_store_and_trace_grow_witness :
  Engine.reachable (kb_rules kb_g02) (Engine.initial_state kb_g02 facts_g02) state_g02 /\
  (exists codes,
      dict_keys (Engine.cf_facts state_g02) =
      (dict_keys (Engine.cf_facts (Engine.initial_state kb_g02 facts_g02)) ++ codes)%list) /\
  (exists records,
      Engine.fired_trace state_g02 =
      (Engine.fired_trace (Engine.initial_state kb_g02 facts_g02) ++ records)%list).
Proof.
  assert (Hr : Engine.reachable (kb_rules kb_g02)
                 (Engine.initial_state kb_g02 facts_g02) state_g02).
  { apply Engine.reach_fire
      with (st := Engine.initial_state kb_g02 facts_g02)
           (r := Rule "R1" ["G02"] "D1" (Some (lit 8 10)) None).
    - apply Engine.reach_start.
    - left. reflexivity.
    - vm_compute. reflexivity. }
  split; [exact Hr|].
  destruct (fact_store_and_trace_grow Hr) as (Hk & Ht & _).
  split; [exact Hk | exact Ht].
Defined.

Lemma result_keys_explained_witness :
  Engine.forward_chaining 2 kb_g02 facts_g02 =
    Some (Ok (fst result_g02, snd result_g02)) /\
  (In "D1" (dict_keys (fst result_g02)) <->
   exists code, "D1" = Engine.translate_key code /\
                (In code (map fst facts_g02) \/
                 In code (map (@Engine.t_conclusion B64.t) (snd result_g02)))).
Proof.
  assert (Hrun : Engine.forward_chaining 2 kb_g02 facts_g02 =
                 Some (Ok (fst result_g02, snd result_g02)))
    by (vm_compute; reflexivity).
  split; [exact Hrun|].
  exact (@result_keys_explained _ _ 2 kb_g02 facts_g02 _ _ "D1" Hrun).
Defined.

Lemma antecedents_asserted_or_derived_witness :
  Engine.forward_chaining 2 kb_g02 facts_g02 = Some (Ok (fst result_g02, [record_g02])) /\
  In "G02" (Engine.t_if record_g02) /\
  (In "G02" (map fst facts_g02) \/
   In "G02" (map (@Engine.t_conclusion B64.t) [])).
Proof.
  assert (Hrun : Engine.forward_chaining 2 kb_g02 facts_g02 =
                 Some (Ok (fst result_g02, [record_g02])))
    by (vm_compute; reflexivity).
  assert (Hin : In "G02" (Engine.t_if record_g02)) by (left; reflexivity).
  split; [exact Hrun|]. split; [exact Hin|].
  exact (@antecedents_asserted_or_derived _ _ 2 kb_g02 facts_g02 _ _ [] []
           record_g02 "G02" Hrun eq_refl Hin).
Defined.

Lemma trace_records_consistent_witness :
  Engine.forward_chaining 2 kb_g02 facts_g02 = Some (Ok (fst result_g02, [record_g02])) /\
  py_min_list (Engine.t_antecedent_cfs record_g02) = Ok (Engine.t_cf_antecedent record_g02) /\
  Engine.t_rule_contribution record_g02 =
    fmul (Engine.t_rule_cf record_g02) (Engine.t_cf_antecedent record_g02).
Proof.
  assert (Hrun : Engine.forward_chaining 2 kb_g02 facts_g02 =
                 Some (Ok (fst result_g02, [record_g02])))
    by (vm_compute; reflexivity).
  split; [exact Hrun|].
  destruct (@trace_records_consistent _ _ 2 kb_g02 facts_g02 _ _ record_g02 Hrun
              (or_introl eq_refl)) as (_ & Hmin & Hc & _).
  split; [exact Hmin | exact Hc].
Defined.

Lemma trace_replays_to_result_witness :
  Engine.forward_chaining 2 kb_g02 facts_g02 = Some (Ok (fst result_g02, [record_g02])) /\
  fst result_g02 =
    Engine.translate
      (Engine.finalize
         (Engine.replay (Engine.seed_facts (Engine.base_cf kb_g02) facts_g02)
                        [record_g02])).
Proof.
  assert (Hrun : Engine.forward_chaining 2 kb_g02 facts_g02 =
                 Some (Ok (fst result_g02, [record_g02])))
    by (vm_compute; reflexivity).
  split; [exact Hrun|].
  exact (proj1 (@trace_replays_to_result _ _ 2 kb_g02 facts_g02 _ _ Hrun)).
Defined.

Lemma returned_state_is_fixed_point_witness :
  Engine.forward_chaining 2 kb_g02 facts_g02 = Some (Ok (fst result_g02, [record_g02])) /\
  In (Rule "R1" ["G02"] "D1" (Some (lit 8 10)) None) (kb_rules kb_g02) /\
  (let st := {| Engine.cf_facts :=
                  Engine.replay (Engine.seed_facts (Engine.base_cf kb_g02) facts_g02)
                                [record_g02];
                Engine.applied_rules := Engine.memo_of [record_g02];
                Engine.fired_trace := [record_g02];
                Engine.changed := false |} in
   Engine.fire_rule st (Rule "R1" ["G02"] "D1" (Some (lit 8 10)) None) = Ok st).
Proof.
  assert (Hrun : Engine.forward_chaining 2 kb_g02 facts_g02 =
                 Some (Ok (fst result_g02, [record_g02])))
    by (vm_compute; reflexivity).
  assert (Hin : In (Rule "R1" ["G02"] "D1" (Some (lit 8 10)) None) (kb_rules kb_g02))
    by (left; reflexivity).
  split; [exact Hrun|]. split; [exact Hin|].
  exact (@returned_state_is_fixed_point _ _ 2 kb_g02 facts_g02 _ _ _ Hrun Hin).
Defined.

Lemma unchained_rules_terminate_witness :
  Engine.unchained (kb_rules kb_g02) = true /\
  NoDup (map (@r_id B64.t) (kb_rules kb_g02)) /\
  exists facts tr,
    (forall fuel, List.length (kb_rules kb_g02) < fuel ->
                  Engine.forward_chaining fuel kb_g02 facts_g02 = Some (Ok (facts, tr))) /\
    NoDup (map (@Engine.t_rule_id B64.t) tr) /\
    List.length tr <= List.length (kb_rules kb_g02).
Proof.
  assert (Hun : Engine.unchained (kb_rules kb_g02) = true) by reflexivity.
  assert (Hids : NoDup (map (@r_id B64.t) (kb_rules kb_g02)))
    by (repeat constructor; simpl; tauto).
  split; [exact Hun|]. split; [exact Hids|].
  apply (@unchained_rules_terminate kb_g02 facts_g02 Hun Hids).
  intros k v Hin. vm_compute in Hin. destruct Hin as [Heq|[]].
  injection Heq as _ <-. reflexivity.
Defined.

Lemma exact_combine_cf_in_range_witness :
  exists v, Engine.combine_cf (1 # 2)%Q (- (1 # 4))%Q = Ok v /\ (-1 <= v <= 1)%Q.
Proof.
  apply (@exact_combine_cf_in_range (1 # 2)%Q (- (1 # 4))%Q);
    split; discriminate.
Defined.

Lemma app_rule_without_antecedents_raises_witness :
  NoDup (map (@r_id B64.t) (kb_rules kb_no_antecedent)) /\
  exists e, App.forward_chaining 1 kb_no_antecedent facts_g02_app = Some (Raise e).
Proof.
  assert (Hids : NoDup (map (@r_id B64.t) (kb_rules kb_no_antecedent)))
    by (repeat constructor; simpl; tauto).
  split; [exact Hids|].
  exact (@app_rule_without_antecedents_raises _ _ kb_no_antecedent facts_g02_app
           rule_no_antecedent 0 Hids (or_introl eq_refl) eq_refl).
Defined.

Lemma infer_reads_confidences_witness :
  App.infer float_of_label str_of_level 2 kb_g02 form_g02 = Some (Ok page_g02) /\
  dict_get "G02" (App.p_input_facts page_g02) =
    Some (App.submitted_confidence float_of_label form_g02 "G02").
Proof.
  assert (Hrun : App.infer float_of_label str_of_level 2 kb_g02 form_g02 =
                 Some (Ok page_g02)) by (vm_compute; reflexivity).
  split; [exact Hrun|].
  destruct (@infer_reads_confidences _ _ float_of_label str_of_level 2 kb_g02 form_g02
              page_g02 "G02" Hrun) as (_ & _ & _ & Hval).
  exact (proj1 (Hval (or_introl eq_refl))).
Defined.

Lemma infer_conclusions_explained_witness :
  App.infer float_of_label str_of_level 2 kb_g02 form_g02 = Some (Ok page_g02) /\
  (In "D1" (dict_keys (App.p_conclusions page_g02)) <->
   In "D1" (map (@App.t_then B64.t) (App.p_trace page_g02)) /\
   starts_with "G" "D1" = false).
Proof.
  assert (Hrun : App.infer float_of_label str_of_level 2 kb_g02 form_g02 =
                 Some (Ok page_g02)) by (vm_compute; reflexivity).
  split; [exact Hrun|].
  apply (@infer_conclusions_explained _ _ float_of_label str_of_level 2 kb_g02 form_g02
           page_g02 "D1" Hrun).
  intros code Hin. vm_compute in Hin. destruct Hin as [<-|[]]. reflexivity.
Defined.

Lemma load_kb_first_present_witness :
  (Engine.candidates "/srv/app" None =
     (["/srv/app/rules_combined.json"; "rules_combined.json"; "/srv/app/rules.json"]
      ++ "rules.json" :: [])%list /\
   Engine.load_kb fs_rules_json "/srv/app" None = Loaded 7%nat) /\
  (Engine.candidates "/srv/app" None =
     (["/srv/app/rules_combined.json"]
      ++ "rules_combined.json" :: ["/srv/app/rules.json"; "rules.json"])%list /\
   Engine.load_kb fs_not_utf8 "/srv/app" None =
     LoadRaise (Uncaught "UnicodeDecodeError")).
Proof.
  assert (Hc : Engine.candidates "/srv/app" None =
               (["/srv/app/rules_combined.json"; "rules_combined.json";
                 "/srv/app/rules.json"] ++ "rules.json" :: [])%list) by reflexivity.
  assert (Hd : Engine.candidates "/srv/app" None =
               (["/srv/app/rules_combined.json"]
                ++ "rules_combined.json" :: ["/srv/app/rules.json"; "rules.json"])%list)
    by reflexivity.
  split; (split; [assumption|]).
  - refine (proj1 (@load_kb_first_present nat string fs_rules_json "/srv/app" None
                     _ _ _ Hc _) 7%nat eq_refl).
    repeat constructor.
  - refine (proj1 (proj2 (proj2 (@load_kb_first_present nat string fs_not_utf8
                     "/srv/app" None _ _ _ Hd _))) "UnicodeDecodeError" eq_refl).
    repeat constructor.
Defined.

Lemma loaders_prefer_different_directories_witness :
  Engine.load_kb fs_two_copies "/srv/app" None = Loaded 2%nat /\
  App.expert_system fs_two_copies "/srv/app" "/srv/app" =
    (["Loading knowledge base from: rules_combined.json"], Loaded 1%nat).
Proof.
  exact (@loaders_prefer_different_directories nat string fs_two_copies "/srv/app" "/srv/app"
           "/srv/app" 1%nat 2%nat eq_refl eq_refl).
Defined.

Lemma unknown_code_seeded_alike_witness :
  valid_binary B64.prec B64.emax (lit 5 10) = true /\
  App.calculate_cf kb_g02 (lit 5 10) "D9" = lit 5 10 /\
  Engine.seed_fact (Engine.base_cf kb_g02) [] ("D9", Num (lit 5 10)) =
    dict_set "D9" (lit 5 10) [].
Proof.
  assert (Hv : valid_binary B64.prec B64.emax (lit 5 10) = true)
    by (vm_compute; reflexivity).
  split; [exact Hv|].
  apply (@unknown_code_seeded_alike kb_g02 "D9" (lit 5 10) [] Hv).
  intros s Hin. vm_compute in Hin. destruct Hin as [<-|[]]. discriminate.
Defined.

Lemma b64_combine_cf_variants_agree_witness :
  valid_binary B64.prec B64.emax B64.zero = true /\
  valid_binary B64.prec B64.emax (neg 4 10) = true /\
  SFleb (SFopp B64.one) B64.zero = true /\
  (App.combine_cf B64.zero (neg 4 10) = Engine.combine_cf B64.zero (neg 4 10) \/
   (App.combine_cf B64.zero (neg 4 10) = Raise ZeroDivisionError /\
    Engine.combine_cf B64.zero (neg 4 10) = Ok B64.zero)).
Proof.
  assert (Ha : valid_binary B64.prec B64.emax B64.zero = true) by reflexivity.
  assert (Hb : valid_binary B64.prec B64.emax (neg 4 10) = true)
    by (vm_compute; reflexivity).
  assert (Hlo : SFleb (SFopp B64.one) B64.zero = true) by (vm_compute; reflexivity).
  split; [exact Ha|]. split; [exact Hb|]. split; [exact Hlo|].
  exact (@b64_combine_cf_variants_agree B64.zero (neg 4 10) Ha Hb Hlo).
Defined.

Lemma app_trace_replays_to_result_witness :
  App.forward_chaining 2 kb_g02 facts_g02_app =
    Some (Ok (fst app_result_g02, snd app_result_g02)) /\
  fst app_result_g02 =
    App.replay (App.seed_facts kb_g02 facts_g02_app) (snd app_result_g02).
Proof.
  assert (Hrun : App.forward_chaining 2 kb_g02 facts_g02_app =
                 Some (Ok (fst app_result_g02, snd app_result_g02)))
    by (vm_compute; reflexivity).
  split; [exact Hrun|].
  exact (proj1 (@app_trace_replays_to_result _ _ 2 kb_g02 facts_g02_app _ _ Hrun)).
Defined.

Lemma passes_bounded_by_records_witness :
  Engine.forward_chaining 5 kb_g02 facts_g02 = Some (Ok (fst result_g02, [record_g02])) /\
  Engine.forward_chaining 2 kb_g02 facts_g02 = Some (Ok (fst result_g02, [record_g02])).
Proof.
  assert (Hrun : Engine.forward_chaining 5 kb_g02 facts_g02 =
                 Some (Ok (fst result_g02, [record_g02])))
    by (vm_compute; reflexivity).
  split; [exact Hrun|].
  exact (@passes_bounded_by_records _ _ 5 kb_g02 facts_g02 _ _ Hrun).
Defined.

Lemma empty_antecedents_never_fire_witness :
  r_if rule_no_antecedent = [] /\
  Engine.fire_rule (Engine.initial_state kb_g02 facts_g02) rule_no_antecedent =
    Ok (Engine.initial_state kb_g02 facts_g02) /\
  App.forward_chaining 1 kb_no_antecedent facts_g02_app = Some (Raise ValueError).
Proof.
  assert (Hnil : r_if rule_no_antecedent = []) by reflexivity.
  split; [exact Hnil|]. split.
  - exact (proj1 (@empty_antecedents_never_fire B64.t binary64) _ _ Hnil).
  - exact (proj2 (proj2 (proj2 (@empty_antecedents_never_fire B64.t binary64)))
                 kb_no_antecedent facts_g02_app rule_no_antecedent [] 0 eq_refl Hnil).
Defined.

End WitnessesExtra.
